(** * pandora_cf_sfcno2: matching Pandora surface NO2 with GEOS-CF

    A shallow embedding of [pandora_cf_sfcno2.py] ([main], [_match_cf],
    [_read_pandora]) and the properties of its specification.

    Conventions of the embedding:
    - Python floats are exact rationals ([Q], compared with [==]), and
      infinities and NaN produced by arithmetic are not modelled.  The only
      NaN the program itself writes, the [np.nan] sentinel of the derived
      fields, is the constructor [nan] of [pyfloat].
    - Where rounding decides which way the code goes, in the integration
      loop, the loop is also given in machine arithmetic (module [Rounded]):
      every operation is followed by a rounding to the nearest machine
      number, [binary64] for the doubles of Python and numpy, and a result
      that is not finite ends the model's run as [NotFinite].
    - Python dicts ([fnl], [dsl]) and the file system are [gmap]s keyed by
      strings; numpy arrays are lists indexed with [!!], an index out of
      range raising [IndexError].
    - Exceptions are the [Raise] outcome; a loop that the source can spin
      forever is run with fuel and answers [OutOfFuel] when it runs out. *)

From Stdlib Require Import ZArith QArith Qfield Qround Qabs Qpower Lia Lqa String Ascii List.
From stdpp Require Import gmap strings list fin_maps pretty stringmap.
Import ListNotations.

Local Open Scope string_scope.
Local Open Scope list_scope.

(** ** Outcomes of Python code *)

Inductive exn : Type :=
| IndexError
| KeyError (key : string)
| FileNotFoundError (path : string)
| ValueError
| AttributeError
| AssertionError.

Inductive outcome (A : Type) : Type :=
| Ok (a : A)
| Raise (e : exn)
| OutOfFuel.
Arguments Ok {A} a.
Arguments Raise {A} e.
Arguments OutOfFuel {A}.

#[global] Instance outcome_ret : MRet outcome := @Ok.
#[global] Instance outcome_bind : MBind outcome := fun A B k m =>
  match m with
  | Ok a => k a
  | Raise e => Raise e
  | OutOfFuel => OutOfFuel
  end.

(** [a[i]] on a numpy array, for an index that is never negative. *)
Definition getitem {A} (a : list A) (i : nat) : outcome A :=
  match a !! i with
  | Some v => Ok v
  | None => Raise IndexError
  end.

(** [x < y] on floats. *)
Definition Qlt_bool (x y : Q) : bool := negb (Qle_bool y x).

(** ** Messages the program prints and files it touches *)

Inductive event : Type :=
| PrintObsMissing (ifile : string)        (* obs file does not exist, skip *)
| PrintFileExists (ofile : string)        (* file exists, don't do anything *)
| PrintReadingObs (ifile : string)        (* Reading {} *)
| PrintLatitude (lat : Q)                 (* location latitude: {} *)
| PrintLongitude (lon : Q)                (* location longitude: {} *)
| PrintFileNotFound (path : string)       (* Warning - file not found: {} *)
| PrintReading (path : string)            (* reading {} *)
| PrintAboveAtmosphere (ihgt : Q)         (* Warning: Pandora layer height greater ... *)
| PrintWritten (ofile : string)           (* data written to {} *)
| ReadObservations (ifile : string)       (* pd.read_csv / open of the obs file *)
| OpenDataset (path : string)             (* xr.open_dataset *)
| WriteCsv (ofile : string).              (* DataFrame.to_csv *)

(** ** Column integration ([_match_cf], the [while inML] loop) *)

Module Integration.
Local Open Scope Q_scope.

(** [VV_TO_MOLEC = 1000./(9.80665*28.9644)] *)
Definition VV_TO_MOLEC : Q := 1000 / ((980665 # 100000) * (289644 # 10000)).

(** The four arrays read with [values[0,::-1]], surface first. *)
Record profile : Type := Profile {
  delp : list Q;
  zl : list Q;
  q : list Q;
  no2 : list Q
}.

(** The variables of the loop.  [frac] is unbound before the first pass;
    [out] collects what the loop prints. *)
Record loop_state : Type := LoopState {
  inML : bool;
  iL : nat;
  l1col : Q;
  frac : option Q;
  out : list event
}.

Definition loop_init : loop_state :=
  {| inML := true; iL := 0%nat; l1col := 0; frac := None; out := [] |}.

Section Loop.
Variable p : profile.
Variable ihgt : Q.

(** One pass through the body of [while inML]. *)
Definition loop_body (st : loop_state) : outcome loop_state :=
  let i := iL st in
  z0 ← getitem (zl p) i;
  z1 ← getitem (zl p) (i + 1);
  let toph := (z0 + z1) / 2 in
  fr ← (if Qlt_bool ihgt toph then
           both ← (if (0 <? i)%nat then
                      zm ← getitem (zl p) (i - 1);
                      Ok ((z0 + zm) / 2)
                    else Ok 0);
           Ok ((ihgt - both) / (toph - both))
         else Ok 1);
  x ← getitem (no2 p) i;
  dp ← getitem (delp p) i;
  qi ← getitem (q p) i;
  let l1col' := l1col st + x * dp * (1 - qi) * VV_TO_MOLEC * fr in
  let i' := (i + 1)%nat in
  let inML' := if Qlt_bool fr 1 then false else inML st in
  (* [inML: False] under the second test is an annotation, not an
     assignment: only the message is produced there. *)
  let out' := if (length (zl p) + 1 <=? i')%nat
              then out st ++ [PrintAboveAtmosphere ihgt] else out st in
  Ok {| inML := inML'; iL := i'; l1col := l1col'; frac := Some fr; out := out' |}.

(** [while inML: body], at most [fuel] passes. *)
Fixpoint while_inML (fuel : nat) (st : loop_state) : outcome loop_state :=
  if inML st then
    match fuel with
    | O => OutOfFuel
    | S fuel' => st' ← loop_body st; while_inML fuel' st'
    end
  else Ok st.

(** The states the loop goes through, the initial one first. *)
Fixpoint while_trace (fuel : nat) (st : loop_state) : list loop_state :=
  st ::
  (if inML st then
     match fuel with
     | O => []
     | S fuel' =>
         match loop_body st with
         | Ok st' => while_trace fuel' st'
         | _ => []
         end
     end
   else []).

(** Every pass reads [zl[iL+1]], so the loop never starts a pass beyond
    the [length zl]-th. *)
Definition integrate : outcome loop_state :=
  while_inML (S (length (zl p))) loop_init.

Definition loop_states : list loop_state :=
  while_trace (S (length (zl p))) loop_init.

(** The values [l1col] takes, the initial [0.0] first. *)
Definition running_sums : list Q := map l1col loop_states.
End Loop.

End Integration.

(** ** Strings *)

(** [needle in hay] *)
Fixpoint contains (needle hay : string) : bool :=
  String.prefix needle hay ||
  match hay with
  | EmptyString => false
  | String _ hay' => contains needle hay'
  end.

(** [s.split(sep)] for a one-character separator. *)
Fixpoint split (sep : ascii) (s : string) : list string :=
  match s with
  | EmptyString => [EmptyString]
  | String c s' =>
      if Ascii.eqb c sep then EmptyString :: split sep s'
      else match split sep s' with
           | w :: ws => String c w :: ws
           | [] => [String c EmptyString]
           end
  end.

(** [s.replace(old, new)]; [old] is never empty in the program.  [skip]
    counts the characters of a match still to be dropped. *)
Fixpoint replace_from (old new : string) (skip : nat) (s : string) : string :=
  match s with
  | EmptyString => EmptyString
  | String c s' =>
      match skip with
      | S k => replace_from old new k s'
      | O =>
          if String.prefix old s
          then new +:+ replace_from old new (String.length old - 1) s'
          else String c (replace_from old new 0 s')
      end
  end.

Definition replace (old new s : string) : string := replace_from old new 0 s.

(** [l[-1]] *)
Definition getlast {A} (l : list A) : outcome A :=
  match last l with
  | Some v => Ok v
  | None => Raise IndexError
  end.

Definition backslash : ascii := ascii_of_N 92.
Definition dquote : ascii := ascii_of_N 34.

(** One byte of the representation: quotes and backslashes escaped, tab,
    newline and return by letter, other bytes outside the printable ASCII
    range as [\xhh]. *)
Definition hex_digit (n : N) : ascii :=
  ascii_of_N (if (n <? 10)%N then 48 + n else 87 + n).

Definition repr_byte (quote c : ascii) : string :=
  let n := N_of_ascii c in
  if Ascii.eqb c quote || Ascii.eqb c backslash then String backslash (String c EmptyString)
  else if (n =? 9)%N then "\t"
  else if (n =? 10)%N then "\n"
  else if (n =? 13)%N then "\r"
  else if (n <? 32)%N || (127 <=? n)%N
       then String backslash (String "x"%char
              (String (hex_digit (n / 16)) (String (hex_digit (n mod 16)) EmptyString)))
  else String c EmptyString.

Fixpoint repr_bytes_body (quote : ascii) (b : string) : string :=
  match b with
  | EmptyString => EmptyString
  | String c b' => repr_byte quote c +:+ repr_bytes_body quote b'
  end.

(** [str(b)] for a bytes object [b]: the [b'...'] representation, in
    double quotes when [b] holds a single quote and no double quote. *)
Definition str_of_bytes (b : string) : string :=
  let quote :=
    if contains "'" b && negb (contains (String dquote EmptyString) b)
    then dquote else "'"%char in
  String "b"%char (String quote (repr_bytes_body quote b +:+ String quote EmptyString)).

(** ** Time stamps

    A time stamp is the number of nanoseconds since 1970-01-01 00:00, as
    pandas stores it. *)

Definition hour_ns : Z := 3600 * 10 ^ 9.
Definition day_ns : Z := 24 * hour_ns.

(** [MINDATE = dt.datetime(2020,1,1)]: 18262 days after the epoch. *)
Definition MINDATE : Z := 18262 * day_ns.

(** The number of days from 1970-01-01 to the day [d] of the month [m] of
    the year [y] of the Gregorian calendar: years are counted from March, in
    eras of 400 years of 146097 days. *)
Definition days_from_civil (y m d : Z) : Z :=
  (let y' := if m <=? 2 then y - 1 else y in
   let era := y' / 400 in
   let yoe := y' - era * 400 in
   let doy := (153 * (if 2 <? m then m - 3 else m + 9) + 2) / 5 + d - 1 in
   let doe := yoe * 365 + yoe / 4 - yoe / 100 + doy in
   era * 146097 + doe - 719468)%Z.

(** The time stamp of midnight at the start of a day: [dt.datetime(y,m,d)]
    as pandas compares it with the [date] column. *)
Definition datetime (y m d : Z) : Z := (days_from_civil y m d * day_ns)%Z.

(** [Timestamp.round('H')]: to the nearest multiple of an hour, a tie going
    to the even multiple. *)
Definition round_H (t : Z) : Z :=
  let quo := (t / hour_ns)%Z in
  let rem := (t mod hour_ns)%Z in
  if (hour_ns / 2 <? rem)%Z || ((rem =? hour_ns / 2)%Z && Z.odd quo)
  then ((quo + 1) * hour_ns)%Z
  else (quo * hour_ns)%Z.

(** [today - timedelta(days=3)], then cut to its year, month and day. *)
Definition maxdate_of (today : Z) : Z :=
  ((today - 3 * day_ns) / day_ns * day_ns)%Z.

(** ** Library functions the program calls

    Formatting and parsing of dates and numbers and the CSV reader belong to
    Python and pandas; the program is modelled for any behaviour of them. *)

Class Library : Type := {
  (** [t.strftime(template)] *)
  py_strftime : Z -> string -> string;
  (** [dt.datetime.strptime(s, format)]; [None] is its [ValueError] *)
  py_strptime : string -> string -> option Z;
  (** [float(s)]; [None] is its [ValueError] *)
  py_float : string -> option Q;
  (** [int(s)]; [None] is its [ValueError] *)
  py_int : string -> option Z;
  (** [pd.read_csv(ifile,sep=',',skiprows=n)] on the lines of the file: the
      value [iline[0]] of every row of the frame *)
  pd_read_csv : list string -> nat -> outcome (list string)
}.

(** ** Model files and the file system *)

(** One variable of a model file after [sel(lon=..,lat=..,method='nearest')]
    at the first time: a number for a surface field, the column of levels
    (top of the atmosphere first, as stored) for a 3-D field. *)
Inductive field : Type :=
| Surface (v : Q)
| Levels (vs : list Q).

(** An open dataset: nearest-neighbour selection is its only use. *)
Record dataset : Type := Dataset {
  sel_nearest : Q -> Q -> gmap string field   (* lon, lat *)
}.

(** A row of the observation frame built by [_read_pandora]. *)
Record obs : Type := Obs {
  date : Z;
  pandora_no2_qval : Z;
  pandora_no2_sfcconc : Q;
  pandora_no2_l1hgt : Q;
  pandora_no2_l1col : Q
}.

(** A float of the output frame: [np.nan] or a number. *)
Inductive pyfloat : Type :=
| nan
| fin (v : Q).

(** A row of the frame that [main] writes. *)
Record merged : Type := Merged {
  m_obs : obs;
  pandora_no2_sfcmr : pyfloat;
  cf_no2_sfcmr : pyfloat;
  cf_no2_sfcconc : pyfloat;
  cf_no2_l1col : pyfloat;
  cf_no2_pbl : pyfloat;
  m_lat : Q;
  m_lon : Q
}.

Inductive file : Type :=
| TextFile (lines : list string)           (* lines as [readline] returns them *)
| JsonLocations (urls : list (option string)) (* the ['pandora_url'] of each entry *)
| NetCDF (d : dataset)
| CsvFile (rows : list merged).

(** What a run can observe and change: the files, the clock, the messages
    and file accesses so far, and the two dict objects [fnl] and [dsl] that
    [main] creates and [_match_cf] receives, updates in place and hands
    back (the same two objects throughout a run). *)
Record world : Type := World {
  fs : gmap string file;
  clock : Z;
  log : list event;
  fnl : gmap string string;
  dsl : gmap string dataset
}.

(** ** The monad of the program: state and exceptions *)

Definition M (A : Type) : Type := world -> outcome A * world.

#[global] Instance M_ret : MRet M := fun A a w => (Ok a, w).
#[global] Instance M_bind : MBind M := fun A B k m w =>
  match m w with
  | (Ok a, w') => k a w'
  | (Raise e, w') => (Raise e, w')
  | (OutOfFuel, w') => (OutOfFuel, w')
  end.

(** The world after some more events. *)
Definition logged (es : list event) (w : world) : world :=
  {| fs := fs w; clock := clock w; log := log w ++ es; fnl := fnl w; dsl := dsl w |}.

(** The world after [fnl[col]=path; dsl[col]=ds]. *)
Definition cached_as (col path : string) (ds : dataset) (w : world) : world :=
  {| fs := fs w; clock := clock w; log := log w;
     fnl := <[col:=path]> (fnl w); dsl := <[col:=ds]> (dsl w) |}.

Definition raise {A} (e : exn) : M A := fun w => (Raise e, w).
Definition out_of_fuel {A} : M A := fun w => (OutOfFuel, w).
Definition lift {A} (o : outcome A) : M A := fun w => (o, w).
Definition emit (e : event) : M unit := fun w => (Ok tt, logged [e] w).
Definition get_fs : M (gmap string file) := fun w => (Ok (fs w), w).
Definition today : M Z := fun w => (Ok (clock w), w).

(** [os.path.isfile(path)] *)
Definition isfile (path : string) : M bool :=
  files ← get_fs; mret (bool_decide (is_Some (files !! path))).

(** [xr.open_dataset(path)] *)
Definition open_dataset (path : string) : M dataset :=
  files ← get_fs;
  emit (OpenDataset path);;
  match files !! path with
  | Some (NetCDF d) => mret d
  | Some _ => raise ValueError
  | None => raise (FileNotFoundError path)
  end.

(** [ds.sel(lon=lon,lat=lat,method='nearest')[name].values[0]] of a surface
    field.  (On a 3-D variable numpy would hand back the whole column; the
    program never does this with GEOS-CF files and the model reports it as an
    error.) *)
Definition sel_surface (d : dataset) (lon lat : Q) (name : string) : outcome Q :=
  match sel_nearest d lon lat !! name with
  | Some (Surface v) => Ok v
  | Some (Levels _) => Raise ValueError
  | None => Raise (KeyError name)
  end.

(** [ds.sel(lon=lon,lat=lat,method='nearest')[name].values[0,:]] *)
Definition sel_levels (d : dataset) (lon lat : Q) (name : string) : outcome (list Q) :=
  match sel_nearest d lon lat !! name with
  | Some (Levels vs) => Ok vs
  | Some (Surface _) => Raise IndexError
  | None => Raise (KeyError name)
  end.

Definition of_option {A} (e : exn) (o : option A) : outcome A :=
  match o with
  | Some a => Ok a
  | None => Raise e
  end.

(** [l[i]] on a Python list for any integer [i]. *)
Definition getitem_Z {A} (l : list A) (i : Z) : outcome A :=
  let n := Z.of_nat (length l) in
  let j := if (i <? 0)%Z then (i + n)%Z else i in
  if (j <? 0)%Z then Raise IndexError else getitem l (Z.to_nat j).

(** ** [_match_cf] *)

Record args : Type := Args {
  locations : string;
  nsite : Z;
  cf_template : string;
  pbl_template : string
}.

(** The five numbers [_match_cf] returns. *)
Record cf_values : Type := CfValues {
  sfcmr : pyfloat;
  sfcconc : pyfloat;
  l1col : pyfloat;
  pbl : pyfloat;
  sfcmr_pandora : pyfloat
}.

(** [sfcmr=np.nan; sfcconc=np.nan; l1col=np.nan; pbl=np.nan; sfcmr_pandora=np.nan] *)
Definition nan_values : cf_values :=
  {| sfcmr := nan; sfcconc := nan; l1col := nan; pbl := nan; sfcmr_pandora := nan |}.

(** [iconc * 1.0e9] *)
Definition to_ppbv (iconc : Q) : Q := (iconc * 1000000000)%Q.

(** [iconc * prs / ( 8.314 * temp )] *)
Definition to_conc (iconc prs temp : Q) : Q :=
  (iconc * prs / ((8314 # 1000) * temp))%Q.

(** [conc / prs * ( 8.314 * temp ) * 1.0e9 / (1.-q0)] *)
Definition conc_to_dry_ppbv (conc prs temp q0 : Q) : Q :=
  (conc / prs * ((8314 # 1000) * temp) * 1000000000 / (1 - q0))%Q.

(** The test [if col in fnl: if fnl[col]==path: ds = dsl[col]]. *)
Definition lookup_cache (col path : string) : M (option dataset) := fun w =>
  match fnl w !! col with
  | Some cur =>
      if String.eqb cur path then
        match dsl w !! col with
        | Some ds => (Ok (Some ds), w)
        | None => (Raise (KeyError col), w)
        end
      else (Ok None, w)
  | None => (Ok None, w)
  end.

(** [fnl[col]=path; dsl[col]=ds.copy()] *)
Definition store_cache (col path : string) (ds : dataset) : M unit := fun w =>
  (Ok tt, cached_as col path ds w).

(** [print('reading ..'); ds = xr.open_dataset(path); fnl[col]=path; dsl[col]=ds.copy()] *)
Definition read_collection (col path : string) : M dataset :=
  emit (PrintReading path);;
  ds ← open_dataset path;
  store_cache col path ds;;
  mret ds.

(** The dataset of a collection: the cached one when the path is the cached
    path, a newly read one otherwise. *)
Definition resolve (col path : string) : M dataset :=
  hit ← lookup_cache col path;
  match hit with
  | Some ds => mret ds
  | None => read_collection col path
  end.

Section Program.
Context {lib : Library}.

(** Lines 169-204: the model values at the station and the partial column. *)
Definition derive (row : obs) (lat lon : Q) (dsc dsm dsp : dataset) : M cf_values :=
  zpbl ← lift (sel_surface dsp lon lat "ZPBL");
  no2_top_first ← lift (sel_levels dsc lon lat "NO2");
  iconc ← lift (getlast no2_top_first);
  prs ← lift (sel_surface dsm lon lat "PS");
  t_top_first ← lift (sel_levels dsm lon lat "T");
  temp ← lift (getlast t_top_first);
  let ihgt := (pandora_no2_l1hgt row * 1000)%Q in
  delp_top_first ← lift (sel_levels dsm lon lat "DELP");
  zl_top_first ← lift (sel_levels dsm lon lat "ZL");
  q_top_first ← lift (sel_levels dsm lon lat "Q");
  no2_top_first' ← lift (sel_levels dsc lon lat "NO2");
  let p := {| Integration.delp := rev delp_top_first;
              Integration.zl := rev zl_top_first;
              Integration.q := rev q_top_first;
              Integration.no2 := rev no2_top_first' |} in
  st ← lift (Integration.integrate p ihgt);
  foldr (fun e k => emit e;; k) (mret tt) (Integration.out st);;
  q0 ← lift (getitem (Integration.q p) 0);
  mret {| sfcmr := fin (to_ppbv iconc);
          sfcconc := fin (to_conc iconc prs temp);
          l1col := fin (Integration.l1col st);
          pbl := fin zpbl;
          sfcmr_pandora := fin (conc_to_dry_ppbv (pandora_no2_sfcconc row) prs temp q0) |}.

Definition _match_cf (a : args) (row : obs) (lat lon : Q) : M cf_values :=
  let idate := round_H (date row) in
  let templ := py_strftime idate (cf_template a) in
  let ifilec := replace "<col>" "chm" templ in
  let ifilem := replace "<col>" "met" templ in
  (* for pbl collection, use tavg collection: no rounding of input date *)
  let ifilep := py_strftime (date row) (pbl_template a) in
  let with_chm (dsc : dataset) : M cf_values :=
    dsm ← resolve "met" ifilem;
    dsp ← resolve "pbl" ifilep;
    derive row lat lon dsc dsm dsp in
  hitc ← lookup_cache "chm" ifilec;
  match hitc with
  | Some dsc => with_chm dsc
  | None =>
      found ← isfile ifilec;
      if negb found then
        emit (PrintFileNotFound ifilec);;
        mret nan_values
      else
        dsc ← read_collection "chm" ifilec;
        with_chm dsc
  end.

(** ** [_read_pandora] *)

(** One record line: [vals = iline[0].split(" ")] and the five fields. *)
Definition parse_row (line : string) : outcome obs :=
  let vals := split " "%char line in
  v0 ← getitem vals 0;
  idate ← of_option ValueError (py_strptime v0 "%Y%m%dT%H%M%S.%fz");
  v52 ← getitem vals 52;
  qval ← of_option ValueError (py_int v52);
  v55 ← getitem vals 55;
  sfc ← of_option ValueError (py_float v55);
  v67 ← getitem vals 67;
  l1hgt ← of_option ValueError (py_float v67);
  v68 ← getitem vals 68;
  l1c ← of_option ValueError (py_float v68);
  Ok {| date := idate; pandora_no2_qval := qval; pandora_no2_sfcconc := sfc;
        pandora_no2_l1hgt := l1hgt; pandora_no2_l1col := l1c |}.

Fixpoint parse_rows (rows : list string) : outcome (list obs) :=
  match rows with
  | [] => Ok []
  | r :: rows' => o ← parse_row r; os ← parse_rows rows'; Ok (o :: os)
  end.

(** [float(str(line.split(':')[1]).replace(" ","").replace("\n","").replace("'",""))] *)
Definition parse_coordinate (line : string) : outcome Q :=
  part ← getitem (split ":"%char line) 1;
  of_option ValueError
    (py_float (replace "'" "" (replace "\n" "" (replace " " "" part)))).

(** [f.readline()]: the next line, or the empty bytes at the end of the
    file, and the file object after the call. *)
Definition readline (f : list string) : string * list string :=
  match f with
  | [] => (EmptyString, [])
  | l :: f' => (l, f')
  end.

(** [while lat is None or lon is None: ...], at most [fuel] passes over
    the file object [f]. *)
Fixpoint scan_location (fuel : nat) (f : list string) (lat lon : option Q)
  : M (Q * Q) :=
  match lat, lon with
  | Some la, Some lo => mret (la, lo)
  | _, _ =>
      match fuel with
      | O => out_of_fuel
      | S fuel' =>
          let '(bytes, f') := readline f in
          let line := str_of_bytes bytes in
          lat' ← (if contains "Location latitude" line then
                    v ← lift (parse_coordinate line);
                    emit (PrintLatitude v);;
                    mret (Some v)
                  else mret lat);
          lon' ← (if contains "Location longitude" line then
                    v ← lift (parse_coordinate line);
                    emit (PrintLongitude v);;
                    mret (Some v)
                  else mret lon);
          scan_location fuel' f' lat' lon'
      end
  end.

Definition _read_pandora (fuel : nat) (ifile : string) : M (list obs * Q * Q) :=
  emit (PrintReadingObs ifile);;
  files ← get_fs;
  emit (ReadObservations ifile);;
  lines ← match files !! ifile with
          | Some (TextFile ls) => mret ls
          | Some _ => raise ValueError
          | None => raise (FileNotFoundError ifile)
          end;
  rows ← lift (pd_read_csv lines 93);
  tmp ← lift (parse_rows rows);
  (* [pd.concat(tmp)] refuses an empty list *)
  alldat ← match tmp with
           | [] => raise ValueError
           | _ => mret tmp
           end;
  ll ← scan_location fuel lines None None;
  mret (alldat, ll.1, ll.2).

(** ** [main] *)

(** The three [pand.loc[...]] filters of lines 59-61 on one row. *)
Definition in_window (maxdate : Z) (r : obs) : bool :=
  (MINDATE <=? date r)%Z && (date r <=? maxdate)%Z &&
  (Qlt_bool 0 (pandora_no2_l1hgt r) && Qlt_bool (pandora_no2_l1hgt r) 15).

(** [for irow, row in enumerate(pand.itertuples())] with the five
    assignments, and the two columns [lat] and [lon]. *)
Fixpoint match_rows (a : args) (lat lon : Q) (pand : list obs) : M (list merged) :=
  match pand with
  | [] => mret []
  | row :: pand' =>
      v ← _match_cf a row lat lon;
      ms ← match_rows a lat lon pand';
      mret ({| m_obs := row;
               pandora_no2_sfcmr := sfcmr_pandora v;
               cf_no2_sfcmr := sfcmr v;
               cf_no2_sfcconc := sfcconc v;
               cf_no2_l1col := l1col v;
               cf_no2_pbl := pbl v;
               m_lat := lat; m_lon := lon |} :: ms)
  end.

(** [fnl={}; dsl={}] *)
Definition new_dicts : M unit := fun w =>
  (Ok tt, {| fs := fs w; clock := clock w; log := log w; fnl := ∅; dsl := ∅ |}).

(** The world after [pand.to_csv(ofile)]. *)
Definition written (ofile : string) (rows : list merged) (w : world) : world :=
  {| fs := <[ofile := CsvFile rows]> (fs w); clock := clock w;
     log := log w ++ [WriteCsv ofile]; fnl := fnl w; dsl := dsl w |}.

(** [pand.to_csv(ofile, ...)] *)
Definition to_csv (ofile : string) (rows : list merged) : M unit := fun w =>
  (Ok tt, written ofile rows w).

(** [json.load(open(args.locations))] *)
Definition load_locations (path : string) : M (list (option string)) :=
  files ← get_fs;
  match files !! path with
  | Some (JsonLocations urls) => mret urls
  | Some _ => raise ValueError
  | None => raise (FileNotFoundError path)
  end.

(** Lines 53-88 of [main]: read, filter, match, write. *)
Definition merge (fuel : nat) (a : args) (ifile ofile : string) : M unit :=
  r ← _read_pandora fuel ifile;
  let '(pand, lat, lon) := r in
  now ← today;
  let maxdate := maxdate_of now in
  let pand := filter (fun r => in_window maxdate r) pand in
  new_dicts;;
  rows ← match_rows a lat lon pand;
  to_csv ofile rows;;
  emit (PrintWritten ofile).

(** [locations[args.nsite].get('pandora_url').split('/')[-1]] *)
Definition basename_of (a : args) : M string :=
  locs ← load_locations (locations a);
  if negb (nsite a <? Z.of_nat (length locs))%Z then raise AssertionError else
  iloc ← lift (getitem_Z locs (nsite a));
  url ← lift (of_option AttributeError iloc);
  lift (getlast (split "/"%char url)).

Definition ifile_of (basename : string) : string := "obs/" +:+ basename.
Definition ofile_of (basename : string) : string :=
  "merged_csv/" +:+ replace ".txt" "+GEOSCF.csv" basename.

Definition main (fuel : nat) (a : args) : M unit :=
  basename ← basename_of a;
  let ifile := ifile_of basename in
  obs_there ← isfile ifile;
  if negb obs_there then emit (PrintObsMissing ifile) else
  let ofile := ofile_of basename in
  out_there ← isfile ofile;
  if (out_there : bool) then emit (PrintFileExists ofile) else
  merge fuel a ifile ofile.
End Program.

(** ** The layer-wise description of the partial column *)

Module Layers.
Import Integration.
Local Open Scope Q_scope.

(** Height of the top of layer [i]: the midpoint of [z[i]] and [z[i+1]]. *)
Definition layer_top (p : profile) (i : nat) : option Q :=
  z0 ← zl p !! i; z1 ← zl p !! (i + 1)%nat; Some ((z0 + z1) / 2).

(** Height of the bottom of layer [i]: the midpoint of [z[i]] and [z[i-1]],
    the ground for the first layer. *)
Definition layer_bottom (p : profile) (i : nat) : Q :=
  if (0 <? i)%nat then
    match zl p !! i, zl p !! (i - 1)%nat with
    | Some z0, Some zm => (z0 + zm) / 2
    | _, _ => 0
    end
  else 0.

(** [x[i]*Δp[i]*(1-q[i])*K], the amount held by the whole of layer [i]. *)
Definition layer_amount (p : profile) (i : nat) : Q :=
  nth i (no2 p) 0 * nth i (delp p) 0 * (1 - nth i (q p) 0) * VV_TO_MOLEC.

Definition Qsum (l : list Q) : Q := foldr Qplus 0 l.

(** The amount of the layers [0 .. n-1]. *)
Definition sum_layers (p : profile) (n : nat) : Q :=
  Qsum (map (layer_amount p) (seq 0 n)).

Definition top_at_or_below (p : profile) (H : Q) (i : nat) : bool :=
  match layer_top p i with
  | Some t => Qle_bool t H
  | None => false
  end.

(** The amount of all layers whose top is at or below [H]. *)
Definition sum_below (p : profile) (H : Q) : Q :=
  Qsum (map (layer_amount p)
            (filter (fun i => top_at_or_below p H i = true) (seq 0 (length (zl p))))).

(** The share of layer [j] that lies below [H]. *)
Definition fraction (p : profile) (H : Q) (j : nat) : Q :=
  match layer_top p j with
  | Some t => (H - layer_bottom p j) / (t - layer_bottom p j)
  | None => 0
  end.


(** Mid-layer heights do not decrease with the index. *)
Definition ascending (z : list Q) : Prop :=
  forall i a b, z !! i = Some a -> z !! S i = Some b -> a <= b.

(** [j] is the first layer whose top is above [H]. *)
Definition first_above (p : profile) (H : Q) (j : nat) : Prop :=
  (exists t, layer_top p j = Some t /\ H < t) /\
  forall i, (i < j)%nat -> exists t, layer_top p i = Some t /\ t <= H.

Fixpoint nondecreasing (l : list Q) : Prop :=
  match l with
  | a :: (b :: _) as l' => a <= b /\ nondecreasing l'
  | _ => True
  end.

End Layers.

(** ** Machine numbers

    The program computes in binary floating point.  A finite machine number
    is the rational it denotes; an operation returns the exact result
    rounded to the nearest machine number, ties to the even mantissa, and
    has no finite result when the rounded value is beyond the largest
    machine number or when it divides by zero.  One rounding stands for the
    format of every number of a computation: the data files decide the
    format of the arrays, and the laws below hold for every binary format. *)

Definition pow2 (e : Z) : Q := (2 ^ e)%Q.

(** [floor (log2 x)] for a positive [x]. *)
Definition ilog2 (x : Q) : Z :=
  let k := (Z.log2 (Qnum x) - Z.log2 (Zpos (Qden x)))%Z in
  if Qle_bool (pow2 k) x then k else (k - 1)%Z.

(** The nearest integer, ties to the even one. *)
Definition nearest_even (x : Q) : Z :=
  let f := Qfloor x in
  match (x - inject_Z f ?= 1 # 2)%Q with
  | Lt => f
  | Gt => (f + 1)%Z
  | Eq => if Z.even f then f else (f + 1)%Z
  end.

(** The exponent of the last place of a positive [a]: mantissas have [prec]
    bits and no exponent is below [emin]. *)
Definition last_place (prec emin : Z) (a : Q) : Z :=
  Z.max (ilog2 a - (prec - 1)) emin.

(** [a] rounded to a whole multiple of [2 ^ E]. *)
Definition round_at (E : Z) (a : Q) : Q :=
  (inject_Z (nearest_even (a / pow2 E)) * pow2 E)%Q.

(** A positive [a] rounded to [prec] bits. *)
Definition round_pos (prec emin : Z) (a : Q) : Q :=
  round_at (last_place prec emin a) a.

(** Rounding to the format with [prec] bits of mantissa, least exponent
    [emin] and every finite number below [2 ^ emax]. *)
Definition round_to (prec emin emax : Z) (x : Q) : option Q :=
  match (Qred x ?= 0)%Q with
  | Eq => Some 0%Q
  | Gt => let r := round_pos prec emin (Qred x) in
          if Qle_bool (pow2 emax) r then None else Some (Qred r)
  | Lt => let r := round_pos prec emin (Qred (- x)) in
          if Qle_bool (pow2 emax) r then None else Some (Qred (- r))
  end.

(** IEEE 754 binary64, the [float] of Python and the [float64] of numpy. *)
Definition binary64 : Q -> option Q := round_to 53 (-1074) 1024.

(** What the properties below use of a rounding: it depends on the value
    alone, leaves 0 as it is, keeps the order, and leaves a machine number
    as it is. *)
Record rounding (rnd : Q -> option Q) : Prop := Rounding {
  rnd_proper : forall x y, (x == y)%Q -> rnd x = rnd y;
  rnd_0 : rnd 0%Q = Some 0%Q;
  rnd_mono : forall x y a b, (x <= y)%Q -> rnd x = Some a -> rnd y = Some b -> (a <= b)%Q;
  rnd_idem : forall x a, rnd x = Some a -> rnd a = Some a
}.

(** ** The integration loop in machine arithmetic *)

Module Rounded.
Import Integration.
Local Open Scope Q_scope.

(** The model follows a computation as long as its numbers are finite. *)
Inductive run (A : Type) : Type :=
| Done (o : outcome A)
| NotFinite.
Arguments Done {A} o.
Arguments NotFinite {A}.

#[global] Instance run_ret : MRet run := fun A a => Done (Ok a).
#[global] Instance run_bind : MBind run := fun A B k m =>
  match m with
  | Done (Ok a) => k a
  | Done (Raise e) => Done (Raise e)
  | Done OutOfFuel => Done OutOfFuel
  | NotFinite => NotFinite
  end.

(** A number that has to be finite for the model to go on. *)
Definition finite {A} (o : option A) : run A :=
  match o with
  | Some a => Done (Ok a)
  | None => NotFinite
  end.

Section Arithmetic.
Variable rnd : Q -> option Q.

Definition add (a b : Q) : option Q := rnd (a + b).
Definition sub (a b : Q) : option Q := rnd (a - b).
Definition mul (a b : Q) : option Q := rnd (a * b).
Definition div (a b : Q) : option Q := if Qeq_bool b 0 then None else rnd (a / b).

(** [VV_TO_MOLEC = 1000./(9.80665*28.9644)]; the two decimal literals are
    rounded when they are read. *)
Definition VV_TO_MOLEC : option Q :=
  g ← rnd (980665 # 100000);
  m ← rnd (289644 # 10000);
  gm ← mul g m;
  div 1000 gm.

(** [(za+zb)/2.] *)
Definition midpoint (za zb : Q) : option Q :=
  s ← add za zb; div s 2.

(** [(ihgt-both) / (toph-both)] *)
Definition share (ihgt toph both : Q) : option Q :=
  n ← sub ihgt both; d ← sub toph both; div n d.

(** [no2[iL] * delp[iL] * (1.-q[iL]) * VV_TO_MOLEC * frac] *)
Definition amount (x dp qi fr : Q) : option Q :=
  a ← mul x dp;
  dry ← sub 1 qi;
  b ← mul a dry;
  vv ← VV_TO_MOLEC;
  c ← mul b vv;
  mul c fr.

Section Loop.
Variable p : profile.
Variable ihgt : Q.

(** One pass through the body of [while inML]. *)
Definition loop_body (st : loop_state) : run loop_state :=
  let i := iL st in
  z0 ← Done (getitem (zl p) i);
  z1 ← Done (getitem (zl p) (i + 1));
  toph ← finite (midpoint z0 z1);
  fr ← (if Qlt_bool ihgt toph then
          both ← (if (0 <? i)%nat then
                    zm ← Done (getitem (zl p) (i - 1));
                    finite (midpoint z0 zm)
                  else mret 0);
          finite (share ihgt toph both)
        else mret 1);
  x ← Done (getitem (no2 p) i);
  dp ← Done (getitem (delp p) i);
  qi ← Done (getitem (q p) i);
  c ← finite (amount x dp qi fr);
  l1col' ← finite (add (l1col st) c);
  let i' := (i + 1)%nat in
  let inML' := if Qlt_bool fr 1 then false else inML st in
  let out' := if (length (zl p) + 1 <=? i')%nat
              then out st ++ [PrintAboveAtmosphere ihgt] else out st in
  Done (Ok {| inML := inML'; iL := i'; l1col := l1col'; frac := Some fr; out := out' |}).

(** [while inML: body], at most [fuel] passes. *)
Fixpoint while_inML (fuel : nat) (st : loop_state) : run loop_state :=
  if inML st then
    match fuel with
    | O => Done OutOfFuel
    | S fuel' => st' ← loop_body st; while_inML fuel' st'
    end
  else Done (Ok st).

(** The states the loop goes through, the initial one first. *)
Fixpoint while_trace (fuel : nat) (st : loop_state) : list loop_state :=
  st ::
  (if inML st then
     match fuel with
     | O => []
     | S fuel' =>
         match loop_body st with
         | Done (Ok st') => while_trace fuel' st'
         | _ => []
         end
     end
   else []).

(** [inML = True; iL = 0; l1col = 0.0] and the loop. *)
Definition integrate : run loop_state :=
  while_inML (S (length (zl p))) loop_init.

(** The values [l1col] takes, the initial [0.0] first. *)
Definition running_sums : list Q :=
  map l1col (while_trace (S (length (zl p))) loop_init).
End Loop.

(** *** The layer-wise description, in the same arithmetic *)

(** Height of the top of layer [i], as the loop computes it. *)
Definition layer_top (p : profile) (i : nat) : option Q :=
  z0 ← zl p !! i; z1 ← zl p !! (i + 1)%nat; midpoint z0 z1.

(** Height of the bottom of layer [i], as the loop computes it. *)
Definition layer_bottom (p : profile) (i : nat) : option Q :=
  if (0 <? i)%nat then
    z0 ← zl p !! i; zm ← zl p !! (i - 1)%nat; midpoint z0 zm
  else Some 0.

(** The share of layer [j] below [H], as the loop computes it. *)
Definition fraction (p : profile) (H : Q) (j : nat) : option Q :=
  t ← layer_top p j; b ← layer_bottom p j; share H t b.

(** The amount of layer [i] taken with the share [fr]. *)
Definition layer_amount (p : profile) (i : nat) (fr : Q) : option Q :=
  x ← no2 p !! i; dp ← delp p !! i; qi ← q p !! i; amount x dp qi fr.

Definition top_at_or_below (p : profile) (H : Q) (i : nat) : bool :=
  match layer_top p i with
  | Some t => Qle_bool t H
  | None => false
  end.

(** One more whole layer added to a sum. *)
Definition add_layer (p : profile) (acc : option Q) (i : nat) : option Q :=
  s ← acc; c ← layer_amount p i 1; add s c.

(** The sum, in the order of the layers, of all layers whose top is at or
    below [H]. *)
Definition sum_below (p : profile) (H : Q) : option Q :=
  fold_left (add_layer p)
    (filter (fun i => top_at_or_below p H i = true) (seq 0 (length (zl p))))
    (Some 0).


(** [j] is the first layer whose computed top is above [H]. *)
Definition first_above (p : profile) (H : Q) (j : nat) : Prop :=
  (exists t, layer_top p j = Some t /\ H < t) /\
  forall i, (i < j)%nat -> exists t, layer_top p i = Some t /\ t <= H.

End Arithmetic.
End Rounded.

(** ** Vocabulary of the statements about runs *)

(** A computation that leaves the files and the clock as they are,
    whatever its outcome. *)
Definition keeps_files {A} (m : M A) : Prop :=
  forall w, fs (m w).2 = fs w /\ clock (m w).2 = clock w.

(** Two observations that differ at most in the quality flag. *)
Definition same_but_qval (r1 r2 : obs) : Prop :=
  date r1 = date r2 /\
  pandora_no2_sfcconc r1 = pandora_no2_sfcconc r2 /\
  pandora_no2_l1hgt r1 = pandora_no2_l1hgt r2 /\
  pandora_no2_l1col r1 = pandora_no2_l1col r2.

(** The derived fields of an output row. *)
Definition derived (m : merged) : list pyfloat :=
  [pandora_no2_sfcmr m; cf_no2_sfcmr m; cf_no2_sfcconc m; cf_no2_l1col m; cf_no2_pbl m].

(** An outcome of the scan that is not a return: it runs for ever, or it
    stops on a line of the file whose coordinate cannot be read. *)
Definition spins_or_misreads {lib : Library} (lines : list string) {A}
    (o : outcome A) : Prop :=
  match o with
  | Ok _ => False
  | Raise e => exists l, l ∈ lines /\ parse_coordinate (str_of_bytes l) = Raise e
  | OutOfFuel => True
  end.

(** The world at another time of day. *)
Definition at_time (now : Z) (w : world) : world :=
  {| fs := fs w; clock := now; log := log w; fnl := fnl w; dsl := dsl w |}.

(** The model files opened among some events. *)
Definition opened (es : list event) : list string :=
  omap (fun e => match e with OpenDataset path => Some path | _ => None end) es.

(** [path] is the path currently cached for the collection [col]. *)
Definition is_cached (col path : string) (w : world) : bool :=
  bool_decide (fnl w !! col = Some path).

(** [ds] is what resolving [col] to [path] has to give: the cached dataset
    when [path] is the cached path, the content of the file otherwise. *)
Definition resolvable (col path : string) (ds : dataset) (w : world) : Prop :=
  if is_cached col path w then dsl w !! col = Some ds
  else fs w !! path = Some (NetCDF ds).

(** The files a resolution has to open. *)
Definition newly_opened (col path : string) (w : world) : list string :=
  if is_cached col path w then [] else [path].

(** The world after resolving [col] to [path]. *)
Definition resolved (col path : string) (ds : dataset) (w : world) : world :=
  if is_cached col path w then w
  else cached_as col path ds (logged [PrintReading path; OpenDataset path] w).

(** ** [download_all.py] *)

(** What [urllib.request.urlretrieve(url, filename)] can meet at an
    address: the whole file arrives; the connection ends early, which leaves
    the part received on disk and raises; the address is a [file:] one, which
    is copied only when a file name is given; or there is no answer, and
    nothing is written. *)
Inductive fetch : Type :=
| Fetched (content : list string)
| Truncated (content : list string)
| Local (content : list string)
| Refused.

Inductive dl_event : Type :=
| PrintAttempt (url : string)        (* attempting to download {} *)
| PrintCouldNot (ofile : string)     (* could not download {} *)
| PrintSkip (ofile : string).        (* file exists - skip: {} *)

(** The files of the current directory and the messages so far. *)
Record dl_world : Type := DlWorld {
  dl_fs : gmap string file;
  dl_log : list dl_event
}.

Definition dl_print (e : dl_event) (w : dl_world) : dl_world :=
  {| dl_fs := dl_fs w; dl_log := dl_log w ++ [e] |}.

Definition dl_write (ofile : string) (content : list string) (w : dl_world) : dl_world :=
  {| dl_fs := <[ofile := TextFile content]> (dl_fs w); dl_log := dl_log w |}.

Section Downloader.
Variable web : string -> fetch.
(** The name [tempfile.NamedTemporaryFile(delete=False)] picks, given the
    files there are; and whether [open(name, 'wb')] succeeds. *)
Variable mkstemp : gmap string file -> string.
Variable can_open : string -> bool.

(** Where [urlretrieve] writes: [if filename: tfp = open(filename, 'wb')],
    [else: tfp = tempfile.NamedTemporaryFile(delete=False)].  The empty
    string is no file name. *)
Definition destination (filename : string) (w : dl_world) : string :=
  if String.eqb filename EmptyString then mkstemp (dl_fs w) else filename.

(** [urllib.request.urlretrieve(url, filename)]: the world afterwards, and
    whether it raised. *)
Definition urlretrieve (url filename : string) (w : dl_world) : bool * dl_world :=
  match web url with
  | Refused => (true, w)
  | Local content =>
      (* [if url_type == "file" and not filename: return] *)
      if String.eqb filename EmptyString then (false, w)
      else if can_open filename then (false, dl_write filename content w)
      else (true, w)
  | Fetched content =>
      if can_open (destination filename w)
      then (false, dl_write (destination filename w) content w)
      else (true, w)
  | Truncated content =>
      if can_open (destination filename w)
      then (true, dl_write (destination filename w) content w)
      else (true, w)
  end.

(** The body of [for l in urls]. *)
Definition download_one (l : option string) (w : dl_world) : outcome unit * dl_world :=
  match l with
  | None => (Ok tt, w)
  | Some url =>
      match getlast (split "/"%char url) with
      | Ok ofile =>
          if negb (bool_decide (is_Some (dl_fs w !! ofile))) then
            let w1 := dl_print (PrintAttempt url) w in
            let '(raised, w2) := urlretrieve url ofile w1 in
            (* [try: ... except:] catches whatever was raised *)
            if (raised : bool) then (Ok tt, dl_print (PrintCouldNot ofile) w2)
            else (Ok tt, w2)
          else (Ok tt, dl_print (PrintSkip ofile) w)
      | Raise e => (Raise e, w)
      | OutOfFuel => (OutOfFuel, w)
      end
  end.

Fixpoint download_urls (urls : list (option string)) (w : dl_world)
  : outcome unit * dl_world :=
  match urls with
  | [] => (Ok tt, w)
  | l :: urls' =>
      match download_one l w with
      | (Ok _, w') => download_urls urls' w'
      | (Raise e, w') => (Raise e, w')
      | (OutOfFuel, w') => (OutOfFuel, w')
      end
  end.

(** [main] of [download_all.py]: [urls = json.load(open(args.urllist))] and
    the loop. *)
Definition download_all (urllist : string) (w : dl_world) : outcome unit * dl_world :=
  match dl_fs w !! urllist with
  | Some (JsonLocations urls) => download_urls urls w
  | Some _ => (Raise ValueError, w)
  | None => (Raise (FileNotFoundError urllist), w)
  end.
End Downloader.

(** ** More vocabulary *)

(** A computation that only adds events satisfying [P] to the log. *)
Definition emits_only {A} (P : event -> Prop) (m : M A) : Prop :=
  forall w, exists es, log (m w).2 = log w ++ es /\ Forall P es.

(** Every collection with a cached path has a cached dataset. *)
Definition cache_consistent (w : world) : Prop :=
  forall col, is_Some (fnl w !! col) -> is_Some (dsl w !! col).

(** The variables [_match_cf] reads from the model files. *)
Definition model_variables : list string :=
  ["ZPBL"; "NO2"; "PS"; "T"; "DELP"; "ZL"; "Q"].

(** A computation that keeps the cache consistent and whose only
    [KeyError] is a missing model variable. *)
Definition cache_safe {A} (m : M A) : Prop :=
  forall w, cache_consistent w ->
    cache_consistent (m w).2 /\
    forall key, (m w).1 = Raise (KeyError key) -> key ∈ model_variables.

(** The five derived numbers are all present. *)
Definition all_fin (v : cf_values) : Prop :=
  exists a b c d e,
    v = {| sfcmr := fin a; sfcconc := fin b; l1col := fin c; pbl := fin d;
           sfcmr_pandora := fin e |}.

(** A character of a string. *)
Fixpoint has_char (c : ascii) (s : string) : bool :=
  match s with
  | EmptyString => false
  | String c' s' => Ascii.eqb c' c || has_char c s'
  end.

(** The profile with every mixing ratio multiplied by [k]. *)
Definition scale_no2 (k : Q) (p : Integration.profile) : Integration.profile :=
  {| Integration.delp := Integration.delp p; Integration.zl := Integration.zl p;
     Integration.q := Integration.q p;
     Integration.no2 := map (Qmult k) (Integration.no2 p) |}.

(** Two loop states that agree but for the column, [k] times larger in
    the second. *)
Definition scaled (k : Q) (st st' : Integration.loop_state) : Prop :=
  Integration.inML st' = Integration.inML st /\
  Integration.iL st' = Integration.iL st /\
  Integration.frac st' = Integration.frac st /\
  Integration.out st' = Integration.out st /\
  (Integration.l1col st' == k * Integration.l1col st)%Q.

(** Nothing is left to download for [url]: the file it names is there, or
    asking for it again would write nothing. *)
Definition settled (web : string -> fetch) (can_open : string -> bool)
    (files : gmap string file) (url : string) : Prop :=
  forall ofile, last (split "/"%char url) = Some ofile ->
    is_Some (files !! ofile) \/ web url = Refused \/ can_open ofile = false.

(** A name that [tempfile] may have picked. *)
Definition temporary (mkstemp : gmap string file -> string) (name : string) : Prop :=
  exists files, name = mkstemp files.

(** What a file that appears has to be: the file named by the last
    component of an address that the network answered, or a temporary file
    when the address ends with [/] and so names none. *)
Definition fetched_as (web : string -> fetch) (mkstemp : gmap string file -> string)
    (url p : string) : Prop :=
  web url <> Refused /\
  ((last (split "/"%char url) = Some p /\ p <> EmptyString /\ has_char "/" p = false) \/
   (last (split "/"%char url) = Some EmptyString /\ temporary mkstemp p)).

(** The chemistry file of an observation. *)
Definition chm_path {lib : Library} (a : args) (row : obs) : string :=
  replace "<col>" "chm" (py_strftime (round_H (date row)) (cf_template a)).

(** The output row of an observation without model values. *)
Definition nan_row (lat lon : Q) (row : obs) : merged :=
  {| m_obs := row; pandora_no2_sfcmr := nan; cf_no2_sfcmr := nan; cf_no2_sfcconc := nan;
     cf_no2_l1col := nan; cf_no2_pbl := nan; m_lat := lat; m_lon := lon |}.

(** A line of the observation file that carries neither label. *)
Definition unlabelled (l : string) : Prop :=
  contains "Location latitude" (str_of_bytes l) = false /\
  contains "Location longitude" (str_of_bytes l) = false.

(** ** Small inputs used to exercise the definitions *)

Module Examples.
Import Integration.
Local Open Scope Q_scope.

(** Three model levels with mid-layer heights 10, 30 and 50 m, so that the
    layer tops are at 20 and 40 m; [q0] is the humidity of the lowest one. *)
Definition three_levels (q0 : Q) : profile :=
  {| delp := [1; 1; 1]; zl := [10; 30; 50]; q := [q0; 0; 0]; no2 := [1; 1; 1] |}.

(** Two model levels: the only layer top is at 20 m. *)
Definition two_levels : profile :=
  {| delp := [1; 1]; zl := [10; 30]; q := [0; 0]; no2 := [1; 1] |}.

(** A small stand-in for the library: dates are printed and read as whole
    seconds since the epoch (the directive [%s]), numbers are whole, and the
    CSV reader hands back every line after the header without its newline. *)
Fixpoint digits (s : string) (acc : Z) : option Z :=
  match s with
  | EmptyString => Some acc
  | String c s' =>
      let n := Z.of_N (N_of_ascii c) in
      if ((48 <=? n) && (n <=? 57))%Z then digits s' (acc * 10 + (n - 48))%Z else None
  end.

Definition whole_number (s : string) : option Z :=
  match s with
  | EmptyString => None
  | String "-" (String c s') => Z.opp <$> digits (String c s') 0
  | _ => digits s 0
  end.

Fixpoint chomp (s : string) : string :=
  match s with
  | EmptyString => EmptyString
  | String c s' =>
      match s' with
      | EmptyString => if (N_of_ascii c =? 10)%N then EmptyString else s
      | _ => String c (chomp s')
      end
  end.

Definition seconds : Z := 10 ^ 9.

Definition toy_library : Library :=
  {| py_strftime t templ := replace "%s" (pretty (t / seconds)%Z) templ;
     py_strptime s _ := (fun n => n * seconds)%Z <$> whole_number s;
     py_float s := inject_Z <$> whole_number s;
     py_int := whole_number;
     pd_read_csv lines skip := Ok (chomp <$> drop (S skip) lines) |}.

Definition newline : string := String (ascii_of_N 10) EmptyString.

(** A record line with the five fields the parser reads at positions 0, 52,
    55, 67 and 68. *)
Definition record_line (t qval sfcconc l1hgt l1col : string) : string :=
  String.concat " "
    ([t] ++ replicate 51 "0" ++ [qval; "0"; "0"; sfcconc] ++ replicate 11 "0"
     ++ [l1hgt; l1col]) +:+ newline.

(** A 93-line preamble, the header line, and the record lines. *)
Definition obs_lines (coordinates : list string) (records : list string) : list string :=
  coordinates ++ replicate (93 - length coordinates) ("---" +:+ newline)
  ++ ["Column 1: UT date and time" +:+ newline] ++ records.

Definition latitude_line : string := "Location latitude [deg]: 39" +:+ newline.
Definition longitude_line : string := "Location longitude [deg]: -77" +:+ newline.

(** 2020-09-13 12:26:40, flag 10, 1 km layer; and 2019-12-31 23:59:59. *)
Definition record_2020 : string := record_line "1600000000" "10" "7" "1" "5".
Definition record_2019 : string := record_line "1577836799" "10" "7" "1" "5".

Definition chm_dataset : dataset :=
  {| sel_nearest _ _ :=
       {[ "NO2" := Levels [1 # 1000000000; 1 # 500000000; 1 # 50000000] ]} |}.
Definition met_dataset : dataset :=
  {| sel_nearest _ _ :=
       <["PS" := Surface 101325]> (<["T" := Levels [250; 280; 288]]>
       (<["DELP" := Levels [1500; 1500; 1500]]> (<["ZL" := Levels [3000; 1000; 100]]>
       {[ "Q" := Levels [1 # 1000; 1 # 200; 1 # 100] ]}))) |}.
Definition pbl_dataset : dataset :=
  {| sel_nearest _ _ := {[ "ZPBL" := Surface 800 ]} |}.

Definition site_url : string :=
  "https://data.pandonia-global-network.org/WashingtonDC/Pandora140s1/L2/Pandora140s1_WashingtonDC_L2_rnvh3p1-8.txt".
Definition site_obs : string := "obs/Pandora140s1_WashingtonDC_L2_rnvh3p1-8.txt".
Definition site_out : string := "merged_csv/Pandora140s1_WashingtonDC_L2_rnvh3p1-8+GEOSCF.csv".

Definition site_args : args :=
  {| locations := "PANDORA_Locations.json"; nsite := 0;
     cf_template := "cf/<col>.%s.nc4"; pbl_template := "cf/tavg.%s.nc4" |}.

(** The site registry, the observation file and the three model files of
    the record of 2020, on 2023-11-14. *)
Definition site_files (obs_file : list string) : gmap string file :=
  <["PANDORA_Locations.json" := JsonLocations [Some site_url]]>
  (<[site_obs := TextFile obs_file]>
  (<["cf/chm.1599998400.nc4" := NetCDF chm_dataset]>
  (<["cf/met.1599998400.nc4" := NetCDF met_dataset]>
  {[ "cf/tavg.1600000000.nc4" := NetCDF pbl_dataset ]}))).

Definition world_of (files : gmap string file) : world :=
  {| fs := files; clock := 1700000000 * seconds; log := []; fnl := ∅; dsl := ∅ |}.

Definition site_world : world :=
  world_of (site_files (obs_lines [latitude_line; longitude_line] [record_2019; record_2020])).

(** The same site when the meteorology file of that hour is missing. *)
Definition world_without_met : world :=
  world_of (delete "cf/met.1599998400.nc4"
              (site_files (obs_lines [latitude_line; longitude_line] [record_2019; record_2020]))).

(** The same site with an observation file that has no longitude line. *)
Definition world_without_longitude : world :=
  world_of (site_files (obs_lines [latitude_line] [record_2019; record_2020])).

(** A site whose observation file holds one record, of 2019, and a site
    whose observation file holds no record. *)
Definition world_before_2020 : world :=
  world_of (site_files (obs_lines [latitude_line; longitude_line] [record_2019])).
Definition world_without_records : world :=
  world_of (site_files (obs_lines [latitude_line; longitude_line] [])).

(** A network that has the station's file, cuts a second one short and
    does not answer for any other address; and a list to download. *)
Definition cut_url : string := "https://data.pandonia-global-network.org/Cut/short.txt".
Definition toy_web (url : string) : fetch :=
  if String.eqb url site_url then Fetched [latitude_line; longitude_line]
  else if String.eqb url cut_url then Truncated [latitude_line]
  else if String.eqb url "https://data.pandonia-global-network.org/" then Fetched ["index"]
  else Refused.
Definition toy_mkstemp (files : gmap string file) : string :=
  fresh_string "/tmp/tmp" files.
Definition download_list : list (option string) :=
  [Some site_url; None; Some cut_url;
   Some "https://data.pandonia-global-network.org/Gone/gone.txt"].
(** The same list with an address that names no file. *)
Definition download_list_with_index : list (option string) :=
  Some "https://data.pandonia-global-network.org/" :: download_list.
Definition download_world : dl_world :=
  {| dl_fs := {[ "PANDORA_Locations.json" := JsonLocations download_list ]};
     dl_log := [] |}.
Definition download_world_with_index : dl_world :=
  {| dl_fs := {[ "PANDORA_Locations.json" := JsonLocations download_list_with_index ]};
     dl_log := [] |}.

End Examples.

(** Inputs for the statements about machine arithmetic. *)
Module MachineExamples.
Import Integration.
Local Open Scope Q_scope.

(** The machine number a decimal literal denotes. *)
Definition double (x : Q) : Q :=
  match binary64 x with
  | Some a => a
  | None => 0
  end.

(** Three model levels at -50, 10 and 100 m: the layer tops are at -20 and
    55 m. *)
Definition low_levels : profile :=
  {| delp := [1; 1; 1]; zl := [-50; 10; 100]; q := [0; 0; 0]; no2 := [1; 1; 1] |}.

(** [54.99999999999999] *)
Definition just_under_55 : Q := double (5499999999999999 # 100000000000000).

(** Four model levels at 33.127, 152.068, 339.002 and 445.449 m. *)
Definition four_levels : profile :=
  {| delp := [1; 1; 1; 1];
     zl := [double (33127 # 1000); double (152068 # 1000); double (339002 # 1000);
            double (445449 # 1000)];
     q := [0; 0; 0; 0]; no2 := [1; 1; 1; 1] |}.

(** [245.535] *)
Definition inside_second_layer : Q := double (245535 # 1000).

End MachineExamples.

(** * Properties *)

Lemma Qlt_bool_iff x y : Qlt_bool x y = true <-> (x < y)%Q.
Proof.
  unfold Qlt_bool. rewrite negb_true_iff, <- not_true_iff_false, Qle_bool_iff.
  split; [apply Qnot_le_lt | apply Qlt_not_le].
Qed.

Lemma Qlt_bool_false_iff x y : Qlt_bool x y = false <-> (y <= x)%Q.
Proof.
  unfold Qlt_bool. rewrite negb_false_iff. apply Qle_bool_iff.
Qed.



Section IntegrationFacts.
Import Integration Layers.
Local Open Scope Q_scope.

Variable p : profile.
Variable H : Q.


(** What a pass that succeeds has done. *)
Lemma loop_body_inv st st' :
  loop_body p H st = Ok st' ->
  exists t, layer_top p (iL st) = Some t /\
    let fr := if Qlt_bool H t then (H - layer_bottom p (iL st)) / (t - layer_bottom p (iL st))
              else 1 in
    inML st' = (if Qlt_bool fr 1 then false else inML st) /\
    iL st' = (iL st + 1)%nat /\
    frac st' = Some fr /\
    out st' = out st /\
    l1col st' == l1col st + layer_amount p (iL st) * fr.
Proof.
  unfold loop_body, layer_top, layer_bottom, getitem.
  destruct (zl p !! iL st) as [z0|] eqn:E0; [|discriminate].
  destruct (zl p !! (iL st + 1)%nat) as [z1|] eqn:E1; [|discriminate].
  simpl. intros Hb. exists ((z0 + z1) / 2). split; [reflexivity|].
  pose proof (lookup_lt_Some _ _ _ E1) as L1.
  assert (Hout : (length (zl p) + 1 <=? iL st + 1)%nat = false)
    by (apply Nat.leb_gt; lia).
  rewrite Hout in Hb.
  assert (Hamount : forall x dp qi, no2 p !! iL st = Some x -> delp p !! iL st = Some dp ->
             q p !! iL st = Some qi ->
             layer_amount p (iL st) = x * dp * (1 - qi) * VV_TO_MOLEC).
  { intros x dp qi Ex Ed Eq. unfold layer_amount.
    now rewrite (nth_lookup_Some _ _ _ _ Ex), (nth_lookup_Some _ _ _ _ Ed),
      (nth_lookup_Some _ _ _ _ Eq). }
  destruct (Qlt_bool H ((z0 + z1) / 2)).
  - destruct (0 <? iL st)%nat.
    + destruct (zl p !! (iL st - 1)%nat) as [zm|]; [|discriminate]. simpl in Hb.
      destruct (no2 p !! iL st) as [x|]; [|discriminate].
      destruct (delp p !! iL st) as [dp|]; [|discriminate].
      destruct (q p !! iL st) as [qi|]; [|discriminate].
      simpl in Hb. injection Hb as <-. simpl.
      rewrite (Hamount x dp qi) by reflexivity. repeat split; reflexivity.
    + simpl in Hb.
      destruct (no2 p !! iL st) as [x|]; [|discriminate].
      destruct (delp p !! iL st) as [dp|]; [|discriminate].
      destruct (q p !! iL st) as [qi|]; [|discriminate].
      simpl in Hb. injection Hb as <-. simpl.
      rewrite (Hamount x dp qi) by reflexivity. repeat split; reflexivity.
  - simpl in Hb.
    destruct (no2 p !! iL st) as [x|]; [|discriminate].
    destruct (delp p !! iL st) as [dp|]; [|discriminate].
    destruct (q p !! iL st) as [qi|]; [|discriminate].
    simpl in Hb. injection Hb as <-. simpl.
    rewrite (Hamount x dp qi) by reflexivity. repeat split; reflexivity.
Qed.

(** A pass fails only on an index out of range, and always ends. *)
Lemma loop_body_fails st :
  (exists st', loop_body p H st = Ok st') \/ loop_body p H st = Raise IndexError.
Proof.
  unfold loop_body, getitem.
  repeat (match goal with
          | |- context [match ?l !! ?i with _ => _ end] => destruct (l !! i)
          | |- context [if ?b then _ else _] => destruct b
          end; simpl; eauto).
Qed.

Lemma fraction_bounds b t :
  b <= H -> H < t -> 0 <= (H - b) / (t - b) /\ (H - b) / (t - b) < 1.
Proof.
  intros Hb Ht. assert (0 < t - b) by lra. split.
  - apply Qle_shift_div_l; [assumption | lra].
  - apply Qlt_shift_div_r; [assumption | lra].
Qed.

(** The bottom of a layer is the top of the layer below it. *)
Lemma layer_bottom_succ i t :
  layer_top p i = Some t -> layer_bottom p (i + 1) == t.
Proof.
  unfold layer_top, layer_bottom.
  destruct (zl p !! i) as [z0|] eqn:E0; [|discriminate].
  destruct (zl p !! (i + 1)%nat) as [z1|] eqn:E1; [|discriminate].
  simpl. intros [= <-].
  replace (0 <? i + 1)%nat with true by (symmetry; apply Nat.ltb_lt; lia).
  replace (i + 1 - 1)%nat with i by lia. rewrite E0.
  field.
Qed.

Lemma layer_top_lt i t : layer_top p i = Some t -> (i + 1 < length (zl p))%nat.
Proof.
  unfold layer_top.
  destruct (zl p !! i) as [z0|]; [|discriminate].
  destruct (zl p !! (i + 1)%nat) as [z1|] eqn:E1; [|discriminate].
  intros _. exact (lookup_lt_Some _ _ _ E1).
Qed.

(** The loop always ends: by the pass that reads past the last level at
    the latest. *)
Lemma while_terminates fuel st :
  (length (zl p) - iL st < fuel)%nat -> while_inML p H fuel st <> OutOfFuel.
Proof.
  revert st. induction fuel as [|fuel IH]; intros st Hf; [lia|].
  simpl. destruct (inML st); [|discriminate].
  destruct (loop_body_fails st) as [[st' Hb]|Hb]; rewrite Hb; simpl; [|discriminate].
  destruct (loop_body_inv _ _ Hb) as (t & Ht & _ & Hi & _).
  apply layer_top_lt in Ht. apply IH. lia.
Qed.

Lemma integrate_terminates : integrate p H <> OutOfFuel.
Proof. apply while_terminates. simpl. lia. Qed.


(** When no layer top is above [H], the loop runs until [zl[iL+1]] is out
    of range. *)
Lemma while_exhausts fuel st :
  (forall i t, layer_top p i = Some t -> t <= H) ->
  inML st = true ->
  (length (zl p) - iL st < fuel)%nat ->
  while_inML p H fuel st = Raise IndexError.
Proof.
  intros Hall. revert st. induction fuel as [|fuel IH]; intros st Hin Hf; [lia|].
  simpl. rewrite Hin.
  destruct (loop_body_fails st) as [[st' Hb]|Hb]; rewrite Hb; simpl; [|reflexivity].
  destruct (loop_body_inv _ _ Hb) as (t & Ht & Hs1 & Hs2 & _).
  apply Hall in Ht as HHt. apply Qlt_bool_false_iff in HHt. rewrite HHt in Hs1.
  change (Qlt_bool 1 1) with false in Hs1.
  apply layer_top_lt in Ht. apply IH; [congruence | lia].
Qed.

(** No reachable pass prints the warning. *)
Lemma while_prints_nothing fuel st st' :
  while_inML p H fuel st = Ok st' -> out st' = out st.
Proof.
  revert st. induction fuel as [|fuel IH]; intros st; simpl.
  - destruct (inML st); [discriminate | now intros [= <-]].
  - destruct (inML st); [|now intros [= <-]].
    destruct (loop_body_fails st) as [[st1 Hb]|Hb]; rewrite Hb; simpl; [|discriminate].
    intros Hrun. apply IH in Hrun. rewrite Hrun.
    destruct (loop_body_inv _ _ Hb) as (t & _ & _ & _ & _ & Ho & _). exact Ho.
Qed.


Lemma while_trace_head fuel st :
  exists rest, while_trace p H fuel st = st :: rest.
Proof. destruct fuel; simpl; eauto. Qed.

Lemma nth_nonneg (P : Q -> Prop) (l : list Q) i : P 0 -> Forall P l -> P (nth i l 0).
Proof.
  intros H0 Hl. revert i. induction Hl; intros [|i]; simpl; auto.
Qed.

Lemma VV_TO_MOLEC_pos : 0 < VV_TO_MOLEC.
Proof. reflexivity. Qed.

Lemma layer_amount_nonneg i :
  Forall (Qle 0) (no2 p) -> Forall (Qle 0) (delp p) ->
  Forall (fun v => 0 <= v /\ v <= 1) (q p) ->
  0 <= layer_amount p i.
Proof.
  intros Hx Hd Hq. unfold layer_amount.
  pose proof (nth_nonneg _ _ i (Qle_refl 0) Hx).
  pose proof (nth_nonneg _ _ i (Qle_refl 0) Hd).
  assert (0 <= nth i (q p) 0 /\ nth i (q p) 0 <= 1) as [? ?]
    by (apply nth_nonneg; [lra | assumption]).
  repeat apply Qmult_le_0_compat; try assumption; try lra.
  apply Qlt_le_weak, VV_TO_MOLEC_pos.
Qed.

(** With amounts that are not negative the column only grows, pass after
    pass, as long as the loop entered each layer with its bottom at or
    below [H]. *)
Lemma trace_nondecreasing fuel st :
  Forall (Qle 0) (no2 p) -> Forall (Qle 0) (delp p) ->
  Forall (fun v => 0 <= v /\ v <= 1) (q p) ->
  (inML st = true -> layer_bottom p (iL st) <= H) ->
  nondecreasing (map l1col (while_trace p H fuel st)).
Proof.
  intros Hx Hd Hq. revert st. induction fuel as [|fuel IH]; intros st Hinv; simpl.
  - destruct (inML st); exact I.
  - destruct (inML st) eqn:Hin; [|exact I].
    destruct (loop_body p H st) as [st'| |] eqn:Hb; try exact I.
    destruct (loop_body_inv _ _ Hb) as (t & Ht & Hs1 & Hs2 & _ & _ & Hs5).
    specialize (Hinv eq_refl).
    assert (Hfr : 0 <= (if Qlt_bool H t
                        then (H - layer_bottom p (iL st)) / (t - layer_bottom p (iL st))
                        else 1)).
    { destruct (Qlt_bool H t) eqn:E; [|lra].
      apply Qlt_bool_iff in E. now apply fraction_bounds. }
    assert (Hstep : l1col st <= l1col st').
    { rewrite Hs5. pose proof (layer_amount_nonneg (iL st) Hx Hd Hq) as Ha.
      pose proof (Qmult_le_0_compat _ _ Ha Hfr). lra. }
    assert (Hnext : inML st' = true -> layer_bottom p (iL st') <= H).
    { intros Hin'. rewrite Hs1 in Hin'. rewrite Hs2, (layer_bottom_succ _ _ Ht).
      destruct (Qlt_bool H t) eqn:E; [|now apply Qlt_bool_false_iff].
      apply Qlt_bool_iff in E. destruct (fraction_bounds _ _ Hinv E) as [_ Hlt].
      apply Qlt_bool_iff in Hlt. rewrite Hlt in Hin'. discriminate. }
    specialize (IH st' Hnext).
    destruct (while_trace_head fuel st') as [rest Hrest]. rewrite Hrest in *.
    simpl. split; assumption.
Qed.

Lemma ascending_le (z : list Q) i j a b :
  ascending z -> z !! i = Some a -> z !! j = Some b -> (i <= j)%nat -> a <= b.
Proof.
  intros Hz Hi Hj Hle. revert b Hj. induction Hle as [|j Hle IH]; intros b Hj.
  - rewrite Hi in Hj. injection Hj as <-. apply Qle_refl.
  - destruct (lookup_lt_is_Some_2 z j) as [c Hc].
    { apply lookup_lt_Some in Hj. lia. }
    apply Qle_trans with c; [apply IH; assumption | exact (Hz j c b Hc Hj)].
Qed.

(** Layer tops inherit the order of the mid-layer heights. *)
Lemma layer_top_mono i j a b :
  ascending (zl p) -> layer_top p i = Some a -> layer_top p j = Some b ->
  (i <= j)%nat -> a <= b.
Proof.
  unfold layer_top. intros Hz Hi Hj Hle.
  destruct (zl p !! i) as [x0|] eqn:E0; [|discriminate].
  destruct (zl p !! (i + 1)%nat) as [x1|] eqn:E1; [|discriminate].
  destruct (zl p !! j) as [y0|] eqn:F0; [|discriminate].
  destruct (zl p !! (j + 1)%nat) as [y1|] eqn:F1; [|discriminate].
  simpl in *. injection Hi as <-. injection Hj as <-.
  assert (x0 <= y0) by (eapply ascending_le; eauto).
  assert (x1 <= y1) by (eapply ascending_le; eauto; lia).
  unfold Qdiv. apply Qmult_le_compat_r; [lra | discriminate].
Qed.

Lemma filter_seq_prefix (P : nat -> Prop) `{!forall i, Decision (P i)} s n j :
  (j <= s + n)%nat ->
  (forall i, (s <= i < j)%nat -> P i) ->
  (forall i, (j <= i)%nat -> (s <= i < s + n)%nat -> ~ P i) ->
  filter P (seq s n) = seq s (j - s).
Proof.
  revert s. induction n as [|n IH]; intros s Hj Ht Hf; simpl.
  - replace (j - s)%nat with 0%nat by lia. reflexivity.
  - destruct (Nat.lt_ge_cases s j) as [Hlt|Hge].
    + rewrite filter_cons_True by (apply Ht; lia).
      replace (j - s)%nat with (S (j - S s)) by lia. simpl. f_equal.
      apply IH; [lia | intros; apply Ht; lia | intros; apply Hf; lia].
    + rewrite filter_cons_False by (apply Hf; lia).
      rewrite (IH (S s)); [| lia | intros; lia | intros; apply Hf; lia].
      replace (j - s)%nat with 0%nat by lia.
      replace (j - S s)%nat with 0%nat by lia. reflexivity.
Qed.

(** For heights in ascending order, the layers with their top at or below
    [H] are those under the first layer whose top is above [H]. *)
Lemma sum_below_first_above j :
  ascending (zl p) -> first_above p H j -> sum_below p H = sum_layers p j.
Proof.
  intros Hz [(t & Ht & HHt) Hfull]. unfold sum_below, sum_layers.
  rewrite (filter_seq_prefix _ 0 (length (zl p)) j); [now rewrite Nat.sub_0_r | | |].
  - apply layer_top_lt in Ht. lia.
  - intros i Hi. destruct (Hfull i) as (ti & Hti & HHti); [lia|].
    unfold top_at_or_below. rewrite Hti. now apply Qle_bool_iff.
  - intros i Hi _. unfold top_at_or_below.
    destruct (layer_top p i) as [ti|] eqn:Hti; [|discriminate].
    rewrite Qle_bool_iff. intros Hle.
    pose proof (layer_top_mono j i t ti Hz Ht Hti Hi). lra.
Qed.


Lemma trace_prints_nothing fuel st st' :
  st' ∈ while_trace p H fuel st -> out st' = out st.
Proof.
  revert st. induction fuel as [|fuel IH]; intros st; simpl.
  - destruct (inML st); intros Hin; apply list_elem_of_singleton in Hin; now subst.
  - intros Hin. apply elem_of_cons in Hin as [->|Hin]; [reflexivity|].
    destruct (inML st); [|now apply elem_of_nil in Hin].
    destruct (loop_body p H st) as [st1| |] eqn:Hb; try now apply elem_of_nil in Hin.
    rewrite (IH _ Hin).
    destruct (loop_body_inv _ _ Hb) as (t & _ & _ & _ & _ & Ho & _). exact Ho.
Qed.

End IntegrationFacts.

(** ** Rounding to a binary format *)

Section Powers.
Local Open Scope Q_scope.

Lemma pow2_pos e : 0 < pow2 e.
Proof. apply Qpower_0_lt. reflexivity. Qed.

Lemma pow2_add a b : pow2 (a + b) == pow2 a * pow2 b.
Proof. apply Qpower_plus. discriminate. Qed.

Lemma pow2_le a b : (a <= b)%Z -> pow2 a <= pow2 b.
Proof. intros Hab. apply Qpower_le_compat_l; [assumption | discriminate]. Qed.

Lemma pow2_lt a b : (a < b)%Z -> pow2 a < pow2 b.
Proof. intros Hab. apply Qpower_lt_compat_l; [assumption | reflexivity]. Qed.

Lemma pow2_lt_inv a b : pow2 a < pow2 b -> (a < b)%Z.
Proof. intros Hab. apply (Qpower_lt_compat_l_inv 2); [assumption | reflexivity]. Qed.

Lemma pow2_Z n : (0 <= n)%Z -> pow2 n == inject_Z (2 ^ n).
Proof. intros Hn. unfold pow2. now rewrite Zpower_Qpower. Qed.

(** A power of two is a whole multiple of every lower one. *)
Lemma pow2_multiple E g : (E <= g)%Z -> pow2 g == inject_Z (2 ^ (g - E)) * pow2 E.
Proof.
  intros Hg. rewrite <- pow2_Z by lia. rewrite <- pow2_add.
  now replace (g - E + E)%Z with g by lia.
Qed.

Lemma inject_Z_lt_inv a b : inject_Z a < inject_Z b -> (a < b)%Z.
Proof. now rewrite <- Zlt_Qlt. Qed.

Lemma inject_Z_le_inv a b : inject_Z a <= inject_Z b -> (a <= b)%Z.
Proof. now rewrite <- Zle_Qle. Qed.

(** The integer logarithm. *)
Lemma ilog2_spec x : 0 < x -> pow2 (ilog2 x) <= x /\ x < pow2 (ilog2 x + 1).
Proof.
  intros Hx. destruct x as [n d]. unfold ilog2. simpl Qnum. simpl Qden.
  assert (Hn : (0 < n)%Z).
  { unfold Qlt in Hx. simpl in Hx. lia. }
  set (ln := Z.log2 n). set (ld := Z.log2 (Z.pos d)).
  destruct (Z.log2_spec n Hn) as [Hn1 Hn2]. fold ln in Hn1, Hn2.
  destruct (Z.log2_spec (Z.pos d) ltac:(lia)) as [Hd1 Hd2]. fold ld in Hd1, Hd2.
  assert (Hln : (0 <= ln)%Z) by apply Z.log2_nonneg.
  assert (Hld : (0 <= ld)%Z) by apply Z.log2_nonneg.
  assert (Hx' : n # d == inject_Z n / inject_Z (Z.pos d)) by apply Qmake_Qdiv.
  assert (Hdpos : 0 < inject_Z (Z.pos d)) by (rewrite <- (Zlt_Qlt 0); lia).
  (* 2^(ln - ld - 1) < n/d < 2^(ln - ld + 1) *)
  assert (Hlow : pow2 (ln - ld - 1) <= n # d).
  { rewrite Hx'. apply Qle_shift_div_l; [assumption|].
    apply Qle_trans with (pow2 (ln - ld - 1) * pow2 (ld + 1)).
    - apply Qmult_le_l; [apply pow2_pos|].
      rewrite pow2_Z by lia. rewrite <- Zle_Qle. lia.
    - rewrite <- pow2_add. replace (ln - ld - 1 + (ld + 1))%Z with ln by lia.
      rewrite pow2_Z by lia. rewrite <- Zle_Qle. lia. }
  assert (Hhigh : n # d < pow2 (ln - ld + 1)).
  { rewrite Hx'. apply Qlt_shift_div_r; [assumption|].
    apply Qlt_le_trans with (pow2 (ln + 1)).
    - rewrite pow2_Z by lia. rewrite <- Zlt_Qlt. lia.
    - replace (ln + 1)%Z with (ln - ld + 1 + ld)%Z at 1 by lia.
      rewrite pow2_add. apply Qmult_le_l; [apply pow2_pos|].
      rewrite pow2_Z by lia. rewrite <- Zle_Qle. lia. }
  destruct (Qle_bool (pow2 (ln - ld)) (n # d)) eqn:Hk.
  - apply Qle_bool_iff in Hk. split; assumption.
  - assert (Hk' : n # d < pow2 (ln - ld)).
    { apply Qnot_le_lt. intros Hle. apply Qle_bool_iff in Hle. congruence. }
    split; [assumption|]. now replace (ln - ld - 1 + 1)%Z with (ln - ld)%Z by lia.
Qed.

Lemma ilog2_unique x e : pow2 e <= x -> x < pow2 (e + 1) -> ilog2 x = e.
Proof.
  intros Hlo Hhi.
  assert (Hx : 0 < x) by (eapply Qlt_le_trans; [apply pow2_pos | exact Hlo]).
  destruct (ilog2_spec x Hx) as [Hlo' Hhi'].
  assert (H1 : (ilog2 x < e + 1)%Z).
  { apply pow2_lt_inv. eapply Qle_lt_trans; eassumption. }
  assert (H2 : (e < ilog2 x + 1)%Z).
  { apply pow2_lt_inv. eapply Qle_lt_trans; eassumption. }
  lia.
Qed.

Lemma ilog2_comp x y : 0 < x -> x == y -> ilog2 x = ilog2 y.
Proof.
  intros Hx Hxy. symmetry. destruct (ilog2_spec x Hx) as [Hlo Hhi].
  apply ilog2_unique; now rewrite <- Hxy.
Qed.

Lemma ilog2_mono x y : 0 < x -> x <= y -> (ilog2 x <= ilog2 y)%Z.
Proof.
  intros Hx Hxy.
  assert (Hy : 0 < y) by (eapply Qlt_le_trans; eassumption).
  destruct (ilog2_spec x Hx) as [Hlo _]. destruct (ilog2_spec y Hy) as [_ Hhi].
  assert (H1 : (ilog2 x < ilog2 y + 1)%Z).
  { apply pow2_lt_inv. eapply Qle_lt_trans; [exact Hlo|].
    eapply Qle_lt_trans; eassumption. }
  lia.
Qed.

Lemma ilog2_pow2 e : ilog2 (pow2 e) = e.
Proof. apply ilog2_unique; [apply Qle_refl | apply pow2_lt; lia]. Qed.

(** The nearest integer. *)
Lemma nearest_even_comp x y : x == y -> nearest_even x = nearest_even y.
Proof.
  intros Hxy. unfold nearest_even. rewrite (Qfloor_comp _ _ Hxy).
  assert (Hc : (x - inject_Z (Qfloor y) ?= 1 # 2) = (y - inject_Z (Qfloor y) ?= 1 # 2)).
  { apply Qcompare_comp; [now rewrite Hxy | reflexivity]. }
  now rewrite Hc.
Qed.

Lemma nearest_even_Z n : nearest_even (inject_Z n) = n.
Proof.
  unfold nearest_even. rewrite Qfloor_Z.
  assert (H : (inject_Z n - inject_Z n ?= 1 # 2) = Lt).
  { rewrite <- Qlt_alt. lra. }
  now rewrite H.
Qed.

Lemma nearest_even_bounds x :
  (Qfloor x <= nearest_even x <= Qfloor x + 1)%Z.
Proof.
  unfold nearest_even.
  destruct (x - inject_Z (Qfloor x) ?= 1 # 2); [destruct (Z.even (Qfloor x))| |]; lia.
Qed.

Lemma nearest_even_mono x y : x <= y -> (nearest_even x <= nearest_even y)%Z.
Proof.
  intros Hxy. pose proof (Qfloor_resp_le x y Hxy) as Hf.
  destruct (Z.eq_dec (Qfloor x) (Qfloor y)) as [Heq|Hne].
  - unfold nearest_even. rewrite Heq.
    destruct (Qcompare_spec (x - inject_Z (Qfloor y)) (1 # 2)) as [Hx|Hx|Hx];
      destruct (Qcompare_spec (y - inject_Z (Qfloor y)) (1 # 2)) as [Hy|Hy|Hy];
      try destruct (Z.even (Qfloor y)); try lia; exfalso; lra.
  - pose proof (nearest_even_bounds x). pose proof (nearest_even_bounds y). lia.
Qed.

Lemma nearest_even_le x n : x <= inject_Z n -> (nearest_even x <= n)%Z.
Proof. intros Hx. rewrite <- (nearest_even_Z n). now apply nearest_even_mono. Qed.

Lemma nearest_even_ge x n : inject_Z n <= x -> (n <= nearest_even x)%Z.
Proof. intros Hx. rewrite <- (nearest_even_Z n) at 1. now apply nearest_even_mono. Qed.

End Powers.

Section Grid.
Local Open Scope Q_scope.

Lemma round_at_comp E a b : a == b -> round_at E a == round_at E b.
Proof.
  intros Hab. unfold round_at.
  rewrite (nearest_even_comp (a / pow2 E) (b / pow2 E)); [reflexivity|].
  now rewrite Hab.
Qed.

Lemma round_at_mono E a b : a <= b -> round_at E a <= round_at E b.
Proof.
  intros Hab. unfold round_at.
  apply Qmult_le_compat_r; [|apply Qlt_le_weak, pow2_pos].
  rewrite <- Zle_Qle. apply nearest_even_mono.
  apply Qmult_le_compat_r; [assumption|].
  apply Qlt_le_weak, Qinv_lt_0_compat, pow2_pos.
Qed.

Lemma round_at_multiple E k a : a == inject_Z k * pow2 E -> round_at E a == a.
Proof.
  intros Ha. unfold round_at.
  assert (Hq : a / pow2 E == inject_Z k).
  { rewrite Ha. field. intros H0. pose proof (pow2_pos E) as Hp. rewrite H0 in Hp.
    discriminate. }
  rewrite (nearest_even_comp _ _ Hq), nearest_even_Z. now rewrite Ha.
Qed.

Lemma round_at_pow2 E g : (E <= g)%Z -> round_at E (pow2 g) == pow2 g.
Proof. intros Hg. apply (round_at_multiple E (2 ^ (g - E))). now apply pow2_multiple. Qed.

Lemma round_at_le_pow2 E g a : (E <= g)%Z -> a <= pow2 g -> round_at E a <= pow2 g.
Proof.
  intros Hg Ha. rewrite <- (round_at_pow2 E g Hg). now apply round_at_mono.
Qed.

Lemma round_at_ge_pow2 E g a : (E <= g)%Z -> pow2 g <= a -> pow2 g <= round_at E a.
Proof.
  intros Hg Ha. rewrite <- (round_at_pow2 E g Hg). now apply round_at_mono.
Qed.

Lemma round_at_nonneg E a : 0 <= a -> 0 <= round_at E a.
Proof.
  intros Ha.
  assert (H0 : round_at E 0 == 0).
  { apply (round_at_multiple E 0). ring. }
  rewrite <- H0. now apply round_at_mono.
Qed.

End Grid.

Section Format.
Local Open Scope Q_scope.
Variables prec emin emax : Z.
Hypothesis prec_pos : (0 < prec)%Z.

Lemma last_place_comp a b : 0 < a -> a == b -> last_place prec emin a = last_place prec emin b.
Proof. intros Ha Hab. unfold last_place. now rewrite (ilog2_comp a b Ha Hab). Qed.

Lemma last_place_mono a b :
  0 < a -> a <= b -> (last_place prec emin a <= last_place prec emin b)%Z.
Proof.
  intros Ha Hab. unfold last_place. pose proof (ilog2_mono a b Ha Hab). lia.
Qed.

Lemma round_pos_comp a b : 0 < a -> a == b -> round_pos prec emin a == round_pos prec emin b.
Proof.
  intros Ha Hab. unfold round_pos. rewrite (last_place_comp a b Ha Hab).
  now apply round_at_comp.
Qed.

Lemma round_pos_nonneg a : 0 < a -> 0 <= round_pos prec emin a.
Proof. intros Ha. apply round_at_nonneg. now apply Qlt_le_weak. Qed.

Lemma round_pos_mono a b : 0 < a -> a <= b -> round_pos prec emin a <= round_pos prec emin b.
Proof.
  intros Ha Hab. unfold round_pos.
  assert (Hb : 0 < b) by (eapply Qlt_le_trans; eassumption).
  pose proof (last_place_mono a b Ha Hab) as HE.
  destruct (Z.eq_dec (last_place prec emin a) (last_place prec emin b)) as [Heq|Hne].
  - rewrite Heq. now apply round_at_mono.
  - (* [b] lies in a higher binade: the power of two under it separates *)
    destruct (ilog2_spec a Ha) as [_ Hahi]. destruct (ilog2_spec b Hb) as [Hblo _].
    unfold last_place in *.
    assert (Hlog : (ilog2 a + 1 <= ilog2 b)%Z) by lia.
    apply Qle_trans with (pow2 (ilog2 b)).
    + apply round_at_le_pow2; [lia|].
      apply Qlt_le_weak. eapply Qlt_le_trans; [exact Hahi|]. now apply pow2_le.
    + apply round_at_ge_pow2; [lia | assumption].
Qed.

(** The mantissa of a rounded number has at most [prec] bits, or is
    [2 ^ prec]. *)
Lemma round_pos_mantissa a :
  0 < a -> (nearest_even (a / pow2 (last_place prec emin a)) <= 2 ^ prec)%Z.
Proof.
  intros Ha. destruct (ilog2_spec a Ha) as [_ Hhi].
  apply nearest_even_le. rewrite <- pow2_Z by lia.
  apply Qle_shift_div_r; [apply pow2_pos|].
  rewrite <- pow2_add. apply Qlt_le_weak. eapply Qlt_le_trans; [exact Hhi|].
  apply pow2_le. unfold last_place. lia.
Qed.

Lemma round_pos_idem a :
  0 < a -> 0 < round_pos prec emin a ->
  round_pos prec emin (round_pos prec emin a) == round_pos prec emin a.
Proof.
  intros Ha Hr.
  pose proof (round_pos_mantissa a Ha) as Hm.
  assert (HEmin : (emin <= last_place prec emin a)%Z) by (unfold last_place; lia).
  assert (Hrm : round_pos prec emin a
                == inject_Z (nearest_even (a / pow2 (last_place prec emin a)))
                   * pow2 (last_place prec emin a)) by reflexivity.
  revert Hm HEmin Hrm.
  generalize (nearest_even (a / pow2 (last_place prec emin a))).
  generalize (last_place prec emin a).
  revert Hr. generalize (round_pos prec emin a).
  intros r Hr E m Hm HEmin Hrm.
  unfold round_pos.
  destruct (Z.le_gt_cases (last_place prec emin r) E) as [Hle|Hgt].
  - apply (round_at_multiple _ (m * 2 ^ (E - last_place prec emin r))).
    eapply Qeq_trans; [exact Hrm|].
    rewrite inject_Z_mult, <- Qmult_assoc.
    now rewrite <- (pow2_multiple (last_place prec emin r) E Hle).
  - destruct (ilog2_spec r Hr) as [Hlo _].
    assert (Hlog : (E + prec <= ilog2 r)%Z) by (unfold last_place in Hgt; lia).
    assert (Hm' : (2 ^ prec <= m)%Z).
    { apply inject_Z_le_inv. rewrite <- pow2_Z by lia.
      apply Qmult_le_r with (pow2 E); [apply pow2_pos|].
      rewrite <- pow2_add, <- Hrm.
      eapply Qle_trans; [|exact Hlo]. apply pow2_le. lia. }
    assert (Hmm : m = (2 ^ prec)%Z) by lia.
    assert (Hrp : r == pow2 (prec + E)).
    { rewrite Hrm, Hmm, pow2_add. now rewrite <- pow2_Z by lia. }
    assert (HEr : last_place prec emin r = (E + 1)%Z).
    { unfold last_place. rewrite (ilog2_comp r (pow2 (prec + E)) Hr Hrp), ilog2_pow2. lia. }
    rewrite HEr. apply (round_at_multiple _ (2 ^ (prec - 1))).
    rewrite Hrp. rewrite <- pow2_Z by lia. rewrite <- pow2_add.
    now replace (prec - 1 + (E + 1))%Z with (prec + E)%Z by lia.
Qed.

(** The four laws. *)
Lemma round_to_proper x y : x == y -> round_to prec emin emax x = round_to prec emin emax y.
Proof.
  intros Hxy. unfold round_to.
  rewrite (Qred_complete x y Hxy).
  assert (Hopp : Qred (- x) = Qred (- y)) by (apply Qred_complete; now rewrite Hxy).
  now rewrite Hopp.
Qed.

Lemma round_to_0 : round_to prec emin emax 0 = Some 0.
Proof. reflexivity. Qed.

(** The value of a rounding that has one. *)
Lemma round_to_Some x a :
  round_to prec emin emax x = Some a ->
  (x == 0 /\ a = 0) \/
  (0 < x /\ a = Qred (round_pos prec emin (Qred x)) /\
   round_pos prec emin (Qred x) < pow2 emax) \/
  (x < 0 /\ a = Qred (- round_pos prec emin (Qred (- x))) /\
   round_pos prec emin (Qred (- x)) < pow2 emax).
Proof.
  unfold round_to.
  destruct (Qcompare_spec (Qred x) 0) as [Hx|Hx|Hx]; rewrite Qred_correct in Hx.
  - intros [= <-]. now left.
  - destruct (Qle_bool _ _) eqn:Hov; [discriminate|]. intros [= <-].
    right. right. repeat split; try assumption.
    apply Qnot_le_lt. intros Hle. apply Qle_bool_iff in Hle. congruence.
  - destruct (Qle_bool _ _) eqn:Hov; [discriminate|]. intros [= <-].
    right. left. repeat split; try assumption.
    apply Qnot_le_lt. intros Hle. apply Qle_bool_iff in Hle. congruence.
Qed.

Lemma round_to_mono x y a b :
  x <= y ->
  round_to prec emin emax x = Some a -> round_to prec emin emax y = Some b -> a <= b.
Proof.
  intros Hxy Hx Hy.
  assert (Hpos : forall z, 0 < z -> 0 <= round_pos prec emin (Qred z)).
  { intros z Hz. apply round_pos_nonneg. now rewrite Qred_correct. }
  assert (Hmono : forall u v, 0 < u -> u <= v ->
            round_pos prec emin (Qred u) <= round_pos prec emin (Qred v)).
  { intros u v Hu Huv. apply round_pos_mono; rewrite ?Qred_correct; assumption. }
  apply round_to_Some in Hx as [[Hx ->]|[(Hx & -> & _)|(Hx & -> & _)]].
  - apply round_to_Some in Hy as [[Hy ->]|[(Hy & -> & _)|(Hy & -> & _)]].
    + apply Qle_refl.
    + rewrite (Qred_correct (round_pos _ _ _)). now apply Hpos.
    + exfalso. lra.
  - apply round_to_Some in Hy as [[Hy ->]|[(Hy & -> & _)|(Hy & -> & _)]].
    + exfalso. lra.
    + apply Qred_le. now apply Hmono.
    + exfalso. lra.
  - assert (Hnx : 0 < - x) by lra. pose proof (Hpos _ Hnx) as Hrx.
    apply round_to_Some in Hy as [[Hy ->]|[(Hy & -> & _)|(Hy & -> & _)]].
    + rewrite (Qred_correct (- _)). lra.
    + pose proof (Hpos _ Hy) as Hry. apply Qred_le. lra.
    + assert (Hny : 0 < - y) by lra.
      pose proof (Hmono (- y) (- x) Hny ltac:(lra)) as Hm.
      apply Qred_le. lra.
Qed.

Lemma round_to_pos_fix r :
  0 < r -> round_pos prec emin r == r -> r < pow2 emax ->
  round_to prec emin emax r = Some (Qred r).
Proof.
  intros Hr Hfix Hmax. unfold round_to.
  assert (Hc : (Qred r ?= 0) = Gt).
  { rewrite <- Qgt_alt. now rewrite Qred_correct. }
  rewrite Hc.
  assert (Hrr : round_pos prec emin (Qred r) == r).
  { rewrite <- Hfix at 2. apply round_pos_comp; [now rewrite Qred_correct|].
    apply Qred_correct. }
  assert (Hov : Qle_bool (pow2 emax) (round_pos prec emin (Qred r)) = false).
  { destruct (Qle_bool _ _) eqn:Hb; [|reflexivity].
    apply Qle_bool_iff in Hb. rewrite Hrr in Hb. exfalso. lra. }
  rewrite Hov. f_equal. now apply Qred_complete.
Qed.

Lemma round_to_neg_fix r :
  0 < r -> round_pos prec emin r == r -> r < pow2 emax ->
  round_to prec emin emax (- r) = Some (Qred (- r)).
Proof.
  intros Hr Hfix Hmax. unfold round_to.
  assert (Hc : (Qred (- r) ?= 0) = Lt).
  { rewrite <- Qlt_alt. rewrite Qred_correct. lra. }
  rewrite Hc.
  assert (Hrr : round_pos prec emin (Qred (- - r)) == r).
  { rewrite <- Hfix at 2. apply round_pos_comp.
    - rewrite Qred_correct. lra.
    - rewrite Qred_correct. ring. }
  assert (Hov : Qle_bool (pow2 emax) (round_pos prec emin (Qred (- - r))) = false).
  { destruct (Qle_bool _ _) eqn:Hb; [|reflexivity].
    apply Qle_bool_iff in Hb. rewrite Hrr in Hb. exfalso. lra. }
  rewrite Hov. f_equal. apply Qred_complete. now rewrite Hrr.
Qed.

Lemma round_to_idem x a :
  round_to prec emin emax x = Some a -> round_to prec emin emax a = Some a.
Proof.
  intros Hx.
  apply round_to_Some in Hx as [[Hx ->]|[(Hx & -> & Hmax)|(Hx & -> & Hmax)]].
  - reflexivity.
  - set (r := round_pos prec emin (Qred x)) in *.
    assert (Hx' : 0 < Qred x) by now rewrite Qred_correct.
    pose proof (round_pos_nonneg (Qred x) Hx') as Hr0. fold r in Hr0.
    destruct (Qle_lt_or_eq _ _ Hr0) as [Hr|Hr].
    + rewrite (round_to_proper (Qred r) r (Qred_correct r)).
      apply round_to_pos_fix; try assumption. now apply round_pos_idem.
    + rewrite (Qred_complete r 0 (Qeq_sym _ _ Hr)). reflexivity.
  - set (r := round_pos prec emin (Qred (- x))) in *.
    assert (Hx' : 0 < Qred (- x)) by (rewrite Qred_correct; lra).
    pose proof (round_pos_nonneg (Qred (- x)) Hx') as Hr0. fold r in Hr0.
    destruct (Qle_lt_or_eq _ _ Hr0) as [Hr|Hr].
    + rewrite (round_to_proper (Qred (- r)) (- r) (Qred_correct (- r))).
      apply round_to_neg_fix; try assumption. now apply round_pos_idem.
    + assert (H0 : - r == 0) by (rewrite <- Hr; ring).
      rewrite (Qred_complete (- r) 0 H0). reflexivity.
Qed.

Lemma round_to_rounding : rounding (round_to prec emin emax).
Proof.
  constructor.
  - apply round_to_proper.
  - apply round_to_0.
  - apply round_to_mono.
  - apply round_to_idem.
Qed.

End Format.

Lemma binary64_rounding : rounding binary64.
Proof. apply round_to_rounding. reflexivity. Qed.

(** ** The integration loop in machine arithmetic *)

Section RoundedLoop.
Import Integration Rounded.
Local Open Scope Q_scope.

Variable rnd : Q -> option Q.
Hypothesis Hrnd : rounding rnd.











Variable p : profile.
Variable H : Q.







Variable j : nat.
Variable f : Q.
Hypothesis Htop : exists t, layer_top rnd p j = Some t /\ H < t.
Hypothesis Hfrac : fraction rnd p H j = Some f.
Hypothesis Hbelow1 : f < 1.


Hypothesis HH : 0 <= H.
Hypothesis Hfirst : forall i, (i < j)%nat -> exists t, layer_top rnd p i = Some t /\ t <= H.


Hypothesis Hno2 : Forall (Qle 0) (no2 p).
Hypothesis Hdelp : Forall (Qle 0) (delp p).
Hypothesis Hq : Forall (fun v => 0 <= v /\ v <= 1) (q p).



Hypothesis Hz : Layers.ascending (zl p).


End RoundedLoop.

Section MachineColumn.
Import Integration Rounded.
Local Open Scope Q_scope.




(** What the amended C1 leaves out: just under a layer top the computed
    share can round to 1.0.  In binary64, with levels at -50, 10 and 100 m
    and [H = 54.99999999999999], layer 1 is the first with a top (55) above
    [H], its share is 1.0, the loop goes on and reads [zl[3]]. *)
Lemma share_rounds_to_one_under_a_layer_top :
  MachineExamples.just_under_55 == 7740561859543039 # 140737488355328 /\
  first_above binary64 MachineExamples.low_levels MachineExamples.just_under_55 1 /\
  fraction binary64 MachineExamples.low_levels MachineExamples.just_under_55 1 = Some 1 /\
  integrate binary64 MachineExamples.low_levels MachineExamples.just_under_55
  = Done (Raise IndexError).
Proof.
  split; [vm_compute; reflexivity|]. split; [split|split].
  - exists 55. split; [vm_compute; reflexivity | vm_compute; reflexivity].
  - intros [|i] Hi; [|lia]. exists (-20).
    split; [vm_compute; reflexivity | vm_compute; discriminate].
  - vm_compute. reflexivity.
  - vm_compute. reflexivity.
Qed.

(** With a layer above, the loop goes on to it instead: its share is
    negative and the column decreases.  In binary64, with levels at 33.127,
    152.068, 339.002 and 445.449 m and [H = 245.535], the share of layer 1
    is 1.0 and layer 2 is taken with a negative share. *)
Lemma share_of_the_next_layer_is_negative :
  first_above binary64 MachineExamples.four_levels MachineExamples.inside_second_layer 1 /\
  fraction binary64 MachineExamples.four_levels MachineExamples.inside_second_layer 1
  = Some 1 /\
  exists st f,
    integrate binary64 MachineExamples.four_levels MachineExamples.inside_second_layer
    = Done (Ok st) /\
    iL st = 3%nat /\ frac st = Some f /\ f < 0 /\
    ~ Layers.nondecreasing
        (running_sums binary64 MachineExamples.four_levels MachineExamples.inside_second_layer).
Proof.
  split; [split|split].
  - assert (Ht : exists t, layer_top binary64 MachineExamples.four_levels 1 = Some t /\
                           Qlt_bool MachineExamples.inside_second_layer t = true)
      by (vm_compute; eauto).
    destruct Ht as (t & Ht & Hlt). exists t. split; [exact Ht | now apply Qlt_bool_iff].
  - intros [|i] Hi; [|lia].
    assert (Ht : exists t, layer_top binary64 MachineExamples.four_levels 0 = Some t /\
                           Qle_bool t MachineExamples.inside_second_layer = true)
      by (vm_compute; eauto).
    destruct Ht as (t & Ht & Hle). exists t. split; [exact Ht | now apply Qle_bool_iff].
  - vm_compute. reflexivity.
  - assert (Hrun : exists st f,
               integrate binary64 MachineExamples.four_levels
                 MachineExamples.inside_second_layer = Done (Ok st) /\
               iL st = 3%nat /\ frac st = Some f /\ Qlt_bool f 0 = true)
      by (vm_compute; eexists; eexists; repeat split).
    destruct Hrun as (st & f & Hrun & Hi & Hf & Hneg).
    exists st, f. split; [exact Hrun|]. split; [exact Hi|]. split; [exact Hf|].
    split; [now apply Qlt_bool_iff|].
    vm_compute. intros (_ & _ & Hdec & _). apply Hdec. reflexivity.
Qed.

End MachineColumn.

Section ColumnClaims.
Import Integration Layers.
Local Open Scope Q_scope.




(** C3 (what the code does).  When every layer top is at or below [H] the
    loop neither prints the warning nor returns the partial sum: it ends in
    [IndexError], raised by [zl[iL+1]]. *)
Theorem C3_exhausted_layers_raise_IndexError (p : profile) (H : Q) :
  (forall i t, layer_top p i = Some t -> t <= H) ->
  integrate p H = Raise IndexError /\
  (forall st, st ∈ loop_states p H -> out st = []).
Proof.
  intros Hall. split.
  - apply while_exhausts; [assumption | reflexivity | simpl; lia].
  - intros st Hst. now apply trace_prints_nothing in Hst.
Qed.

Lemma C3_exhausted_layers_raise_IndexError_witness :
  integrate Examples.two_levels 100 = Raise IndexError.
Proof.
  apply (C3_exhausted_layers_raise_IndexError Examples.two_levels 100).
  intros [|i] t; unfold layer_top; simpl.
  - intros [= <-]. discriminate.
  - destruct i; discriminate.
Defined.

End ColumnClaims.

Section UnitConversion.
Local Open Scope Q_scope.

(** C4 (as amended).  For non-degenerate [P], [T] and [q0], the forward
    conversion followed by the inverse one gives the mixing ratio in ppb
    divided by [1 - q0], not the mixing ratio itself: the inverse also dries
    out, which the forward conversion does not undo. *)
Theorem C4_round_trip_dries_out (x0 P T q0 : Q) :
  ~ P == 0 -> ~ T == 0 -> ~ q0 == 1 ->
  conc_to_dry_ppbv (to_conc x0 P T) P T q0 == to_ppbv x0 / (1 - q0).
Proof.
  intros HP HT Hq.
  assert (Hq' : ~ 1 - q0 == 0) by (intros E; apply Hq; lra).
  unfold conc_to_dry_ppbv, to_conc, to_ppbv. field. repeat split; assumption.
Qed.

Lemma C4_round_trip_dries_out_witness :
  conc_to_dry_ppbv (to_conc (1 # 50000000) 101325 288) 101325 288 (1 # 100)
  == to_ppbv (1 # 50000000) / (1 - (1 # 100)).
Proof.
  apply (C4_round_trip_dries_out (1 # 50000000) 101325 288 (1 # 100)); lra.
Defined.

(** C4 as stated fails: 20 ppb at 1013.25 hPa, 288 K and a humidity of 0.01
    comes back as 20/0.99 ppb. *)
Lemma C4_counterexample_moist_air :
  ~ 101325 == 0 /\ ~ 288 == 0 /\ ~ (1 # 100) == 1 /\
  to_ppbv (1 # 50000000) == 20 /\
  conc_to_dry_ppbv (to_conc (1 # 50000000) 101325 288) 101325 288 (1 # 100) == 2000 # 99 /\
  ~ conc_to_dry_ppbv (to_conc (1 # 50000000) 101325 288) 101325 288 (1 # 100)
    == to_ppbv (1 # 50000000).
Proof.
  repeat split; try lra; try reflexivity.
  unfold conc_to_dry_ppbv, to_conc, to_ppbv. intros E. vm_compute in E. discriminate.
Qed.

End UnitConversion.

(** ** Running the monad *)

Lemma bind_Ok {A B} (m : M A) (k : A -> M B) w a w' :
  m w = (Ok a, w') -> (m ≫= k) w = k a w'.
Proof. unfold mbind, M_bind. now intros ->. Qed.

Lemma bind_Raise {A B} (m : M A) (k : A -> M B) w e w' :
  m w = (Raise e, w') -> (m ≫= k) w = (Raise e, w').
Proof. unfold mbind, M_bind. now intros ->. Qed.

Lemma bind_OutOfFuel {A B} (m : M A) (k : A -> M B) w w' :
  m w = (OutOfFuel, w') -> (m ≫= k) w = (OutOfFuel, w').
Proof. unfold mbind, M_bind. now intros ->. Qed.

Lemma keeps_ret {A} (a : A) : keeps_files (mret a).
Proof. now intros w. Qed.

Lemma keeps_bind {A B} (m : M A) (k : A -> M B) :
  keeps_files m -> (forall a, keeps_files (k a)) -> keeps_files (m ≫= k).
Proof.
  intros Hm Hk w. unfold mbind, M_bind. specialize (Hm w).
  destruct (m w) as [[a|e|] w1]; simpl in *; try assumption.
  destruct (Hk a w1) as [-> ->]. assumption.
Qed.

Lemma keeps_raise {A} e : keeps_files (@raise A e).
Proof. now intros w. Qed.

Lemma keeps_out_of_fuel {A} : keeps_files (@out_of_fuel A).
Proof. now intros w. Qed.

Lemma keeps_lift {A} (o : outcome A) : keeps_files (lift o).
Proof. now intros w. Qed.

Lemma keeps_emit e : keeps_files (emit e).
Proof. now intros w. Qed.

Lemma keeps_get_fs : keeps_files get_fs.
Proof. now intros w. Qed.

Lemma keeps_today : keeps_files today.
Proof. now intros w. Qed.

Lemma keeps_isfile path : keeps_files (isfile path).
Proof. now intros w. Qed.

Lemma keeps_store_cache col path ds : keeps_files (store_cache col path ds).
Proof. now intros w. Qed.

Lemma keeps_new_dicts : keeps_files new_dicts.
Proof. now intros w. Qed.

Lemma keeps_lookup_cache col path : keeps_files (lookup_cache col path).
Proof.
  intros w. unfold lookup_cache.
  destruct (fnl w !! col) as [cur|]; [|done].
  destruct (String.eqb cur path); [|done].
  now destruct (dsl w !! col).
Qed.

(** Unfolding of the monad's operations. *)
Ltac mrun :=
  unfold mbind, M_bind, mret, M_ret, lift, raise, out_of_fuel, emit, get_fs,
    today, isfile in *; simpl in *.

Create HintDb keeps.
#[local] Hint Resolve keeps_ret keeps_raise keeps_out_of_fuel keeps_lift keeps_emit
  keeps_get_fs keeps_today keeps_isfile keeps_store_cache keeps_new_dicts
  keeps_lookup_cache : keeps.

Ltac keeps :=
  repeat first
    [ progress auto with keeps
    | apply keeps_bind; [|intros]
    | match goal with
      | |- keeps_files (match ?x with _ => _ end) => destruct x
      | |- keeps_files (if ?b then _ else _) => destruct b
      end ].

Lemma keeps_open_dataset path : keeps_files (open_dataset path).
Proof. unfold open_dataset. keeps. Qed.
#[local] Hint Resolve keeps_open_dataset : keeps.

Lemma keeps_read_collection col path : keeps_files (read_collection col path).
Proof. unfold read_collection. keeps. Qed.
#[local] Hint Resolve keeps_read_collection : keeps.

Lemma keeps_resolve col path : keeps_files (resolve col path).
Proof. unfold resolve. keeps. Qed.
#[local] Hint Resolve keeps_resolve : keeps.

Lemma keeps_load_locations path : keeps_files (load_locations path).
Proof. unfold load_locations. keeps. Qed.
#[local] Hint Resolve keeps_load_locations : keeps.

Section ProgramFacts.
Context {lib : Library}.

Lemma keeps_emit_all (es : list event) :
  keeps_files (foldr (fun e k => emit e;; k) (mret tt) es).
Proof. induction es; simpl; keeps. Qed.

Lemma keeps_derive row lat lon dsc dsm dsp :
  keeps_files (derive row lat lon dsc dsm dsp).
Proof. unfold derive. pose proof keeps_emit_all. keeps. Qed.

Lemma keeps_match_cf a row lat lon : keeps_files (_match_cf a row lat lon).
Proof. unfold _match_cf. pose proof keeps_derive. keeps. Qed.

Lemma keeps_match_rows a lat lon pand : keeps_files (match_rows a lat lon pand).
Proof. induction pand; simpl; pose proof keeps_match_cf; keeps. Qed.

Lemma keeps_scan_location fuel f lat lon : keeps_files (scan_location fuel f lat lon).
Proof.
  revert f lat lon. induction fuel as [|fuel IH]; intros f lat lon; simpl.
  - destruct lat, lon; keeps.
  - destruct lat, lon, (readline f); keeps.
Qed.

Lemma keeps_read_pandora fuel ifile : keeps_files (_read_pandora fuel ifile).
Proof. unfold _read_pandora. pose proof keeps_scan_location. keeps. Qed.

Lemma keeps_basename_of a : keeps_files (basename_of a).
Proof. unfold basename_of. keeps. Qed.

(** [basename_of] only reads the locations file. *)
Lemma basename_of_reads a w :
  exists o, basename_of a w = (o, w) /\
    (forall w', fs w' !! locations a = fs w !! locations a -> basename_of a w' = (o, w')) /\
    (forall b, o = Ok b -> is_Some (fs w !! locations a)).
Proof.
  unfold basename_of, load_locations. mrun.
  destruct (fs w !! locations a) as [[ls|urls|d|rows]|] eqn:E; mrun;
    try (eexists; split; [reflexivity|]; split;
         [intros w' ->; reflexivity | intros b; try discriminate; eauto]).
  destruct (negb (nsite a <? Z.of_nat (length urls))%Z) eqn:En; mrun.
  - eexists. split; [reflexivity|]. split; [|discriminate].
    intros w' ->. mrun. rewrite En. reflexivity.
  - destruct (getitem_Z urls (nsite a)) as [iloc| |] eqn:Eg;
      try (eexists; split; [reflexivity|]; split;
           [intros w' ->; mrun; rewrite En; mrun; rewrite Eg; reflexivity
           | intros b; try discriminate; eauto]).
    destruct (of_option AttributeError iloc) as [url| |] eqn:Eu;
      eexists; (split; [reflexivity|]); (split;
           [intros w' ->; mrun; rewrite En; mrun; rewrite Eg, Eu; reflexivity | eauto]).
Qed.

(** The rows that [match_rows] builds carry the observations, in order,
    and the station's coordinates. *)
Lemma match_rows_obs a lat lon pand w rows w' :
  match_rows a lat lon pand w = (Ok rows, w') ->
  map m_obs rows = pand /\ Forall (fun m => m_lat m = lat /\ m_lon m = lon) rows.
Proof.
  revert w rows w'. induction pand as [|row pand IH]; intros w rows w'; simpl.
  - intros [= <- <-]. split; constructor.
  - unfold mbind, M_bind.
    destruct (_match_cf a row lat lon w) as [[v|e|] w1]; try discriminate.
    destruct (match_rows a lat lon pand w1) as [[ms|e|] w2] eqn:Hm; try discriminate.
    intros [= <- <-]. destruct (IH _ _ _ Hm) as [Hobs HF]. simpl.
    split; [now rewrite Hobs | constructor; [split; reflexivity | assumption]].
Qed.

(** A run of the second half of [main] either leaves the files as they are
    and does not end normally, or ends normally having written, to [ofile]
    only, one row per observation that passes the three filters. *)
Lemma merge_outcome fuel a ifile ofile w o w1 :
  merge fuel a ifile ofile w = (o, w1) ->
  (o <> Ok tt /\ fs w1 = fs w) \/
  (o = Ok tt /\ exists pand lat lon w0 rows,
      _read_pandora fuel ifile w = (Ok (pand, lat, lon), w0) /\
      fs w1 = <[ofile := CsvFile rows]> (fs w) /\
      map m_obs rows = filter (fun r => in_window (maxdate_of (clock w)) r) pand /\
      Forall (fun m => m_lat m = lat /\ m_lon m = lon) rows).
Proof.
  unfold merge. intros Hrun.
  destruct (keeps_read_pandora fuel ifile w) as [Hfs0 Hck0].
  destruct (_read_pandora fuel ifile w) as [[[[pand lat] lon]|e|] w0] eqn:Hr;
    [rewrite (bind_Ok _ _ _ _ _ Hr) in Hrun
    |rewrite (bind_Raise _ _ _ _ _ Hr) in Hrun
    |rewrite (bind_OutOfFuel _ _ _ _ Hr) in Hrun];
    simpl in *; try (injection Hrun as <- <-; left; split; [discriminate | assumption]).
  unfold mbind, M_bind, today, new_dicts in Hrun. simpl in Hrun.
  set (pand' := filter _ pand) in Hrun.
  set (w0' := {| fs := fs w0; clock := clock w0; log := log w0; fnl := ∅; dsl := ∅ |}) in Hrun.
  destruct (keeps_match_rows a lat lon pand' w0') as [Hfs1 _].
  destruct (match_rows a lat lon pand' w0') as [[rows|e|] w2] eqn:Hm; simpl in *;
    try (injection Hrun as <- <-; left; split; [discriminate | congruence]).
  injection Hrun as <- <-. right. split; [reflexivity|].
  exists pand, lat, lon, w0, rows. split; [reflexivity|].
  destruct (match_rows_obs _ _ _ _ _ _ _ Hm) as [Hobs HF].
  repeat split; try assumption.
  - simpl. congruence.
  - rewrite Hobs. subst pand'. now rewrite Hck0.
Qed.

(** [main] up to its two tests. *)
Lemma main_obs_missing fuel a w basename :
  basename_of a w = (Ok basename, w) ->
  fs w !! ifile_of basename = None ->
  main fuel a w = (Ok tt, logged [PrintObsMissing (ifile_of basename)] w).
Proof.
  intros Hb Hobs. unfold main. rewrite (bind_Ok _ _ _ _ _ Hb). mrun.
  rewrite bool_decide_eq_false_2; [reflexivity|].
  rewrite Hobs. now intros [? ?].
Qed.

Lemma main_output_exists fuel a w basename :
  basename_of a w = (Ok basename, w) ->
  is_Some (fs w !! ifile_of basename) ->
  is_Some (fs w !! ofile_of basename) ->
  main fuel a w = (Ok tt, logged [PrintFileExists (ofile_of basename)] w).
Proof.
  intros Hb Hobs Hout. unfold main. rewrite (bind_Ok _ _ _ _ _ Hb). mrun.
  rewrite bool_decide_eq_true_2 by assumption. simpl.
  rewrite bool_decide_eq_true_2 by assumption. reflexivity.
Qed.

Lemma main_merges fuel a w basename :
  basename_of a w = (Ok basename, w) ->
  is_Some (fs w !! ifile_of basename) ->
  fs w !! ofile_of basename = None ->
  main fuel a w = merge fuel a (ifile_of basename) (ofile_of basename) w.
Proof.
  intros Hb Hobs Hout. unfold main. rewrite (bind_Ok _ _ _ _ _ Hb). mrun.
  rewrite bool_decide_eq_true_2 by assumption. simpl.
  rewrite bool_decide_eq_false_2; [reflexivity|].
  rewrite Hout. now intros [? ?].
Qed.

Lemma main_skips fuel a w basename :
  basename_of a w = (Ok basename, w) ->
  fs w !! ifile_of basename = None \/ is_Some (fs w !! ofile_of basename) ->
  exists e, main fuel a w = (Ok tt, logged [e] w) /\
    (e = PrintObsMissing (ifile_of basename) \/ e = PrintFileExists (ofile_of basename)).
Proof.
  intros Hb Hskip.
  destruct (fs w !! ifile_of basename) as [f|] eqn:Hobs.
  - destruct Hskip as [?|Hout]; [discriminate|].
    eexists. split; [|right; reflexivity].
    apply main_output_exists; try assumption. rewrite Hobs. eauto.
  - eexists. split; [|left; reflexivity]. now apply main_obs_missing.
Qed.

End ProgramFacts.

Section OrchestratorClaims.
Context {lib : Library}.

(** C8.  Once the file name of the site is known: when the observation file
    is absent, [main] only prints a message and returns normally, the files
    untouched; so it does when the output file already exists; and after
    any run that returned normally, a second run with the same arguments,
    at any later time, is such a skip: one message, no reading, no model
    file opened, nothing written, every file as it was. *)
Theorem C8_skips_are_noops (fuel : nat) (a : args) (w : world) (basename : string) :
  basename_of a w = (Ok basename, w) ->
  (fs w !! ifile_of basename = None ->
     main fuel a w = (Ok tt, logged [PrintObsMissing (ifile_of basename)] w)) /\
  (is_Some (fs w !! ifile_of basename) -> is_Some (fs w !! ofile_of basename) ->
     main fuel a w = (Ok tt, logged [PrintFileExists (ofile_of basename)] w)) /\
  (forall w1, main fuel a w = (Ok tt, w1) ->
     forall fuel' now, exists e,
       main fuel' a (at_time now w1) = (Ok tt, logged [e] (at_time now w1)) /\
       (e = PrintObsMissing (ifile_of basename) \/
        e = PrintFileExists (ofile_of basename))).
Proof.
  intros Hb. split; [|split].
  - now apply main_obs_missing.
  - now apply main_output_exists.
  - intros w1 Hrun fuel' now.
    destruct (basename_of_reads a w) as (o & Ho & Hsame & Hloc).
    rewrite Hb in Ho. injection Ho as <-.
    destruct (fs w !! ifile_of basename) as [f|] eqn:Hobs.
    + destruct (fs w !! ofile_of basename) as [g|] eqn:Hout.
      * rewrite (main_output_exists fuel a w basename) in Hrun; try (rewrite ?Hobs, ?Hout; eauto).
        injection Hrun as <-. apply main_skips.
        -- now apply Hsame.
        -- right. simpl. rewrite Hout. eauto.
      * rewrite (main_merges fuel a w basename) in Hrun; try (rewrite ?Hobs; eauto).
        apply merge_outcome in Hrun as [[Hne _]|(_ & pand & lat & lon & w0 & rows & _ & Hfs & _)];
          [congruence|].
        apply main_skips.
        -- apply Hsame. simpl. rewrite Hfs. apply lookup_insert_ne.
           intros E. destruct (Hloc basename eq_refl) as [x Hx]. congruence.
        -- right. simpl. rewrite Hfs, lookup_insert_eq. eauto.
    + rewrite (main_obs_missing fuel a w basename) in Hrun by assumption.
      injection Hrun as <-. apply main_skips.
      * now apply Hsame.
      * left. exact Hobs.
Qed.

End OrchestratorClaims.

Lemma C8_skips_are_noops_witness :
  exists e,
    main (lib := Examples.toy_library) 0 Examples.site_args
      (at_time (1700086400 * Examples.seconds)
         (main (lib := Examples.toy_library) 200 Examples.site_args Examples.site_world).2)
    = (Ok tt,
       logged [e]
         (at_time (1700086400 * Examples.seconds)
            (main (lib := Examples.toy_library) 200 Examples.site_args Examples.site_world).2)).
Proof.
  destruct (C8_skips_are_noops (lib := Examples.toy_library) 200 Examples.site_args
              Examples.site_world "Pandora140s1_WashingtonDC_L2_rnvh3p1-8.txt")
    as (_ & _ & Htwice).
  - vm_compute. reflexivity.
  - destruct (Htwice
                (main (lib := Examples.toy_library) 200 Examples.site_args Examples.site_world).2)
      with (fuel' := 0%nat) (now := (1700086400 * Examples.seconds)%Z) as (e & He & _).
    + vm_compute. reflexivity.
    + exists e. exact He.
Defined.

Section FilterClaims.
Context {lib : Library}.

Lemma in_window_spec maxdate r :
  in_window maxdate r = true <->
  (MINDATE <= date r <= maxdate)%Z /\
  (0 < pandora_no2_l1hgt r /\ pandora_no2_l1hgt r < 15)%Q.
Proof.
  unfold in_window. rewrite !andb_true_iff, !Z.leb_le, !Qlt_bool_iff. tauto.
Qed.

Lemma maxdate_of_spec now :
  (day_ns | maxdate_of now)%Z /\
  (maxdate_of now <= now - 3 * day_ns < maxdate_of now + day_ns)%Z.
Proof.
  unfold maxdate_of. split.
  - apply Z.divide_factor_r.
  - pose proof (Z.mul_div_le (now - 3 * day_ns) day_ns eq_refl).
    pose proof (Z.mul_succ_div_gt (now - 3 * day_ns) day_ns eq_refl).
    lia.
Qed.

(** C7.  When a run of [main] has written the output table, its rows are
    the records of the observation file that pass the three filters, in
    file order: a record is a row of the table exactly when its time stamp
    lies between the minimum date 2020-01-01 00:00 (1577836800 seconds after
    the epoch, which is what [MINDATE] holds) and midnight of the day three
    days before today, both included, and its layer height is strictly
    between 0 and 15 km (15000 m once [_match_cf] has converted it).  So a
    record before 2020-01-01, after that midnight, or with a height at most
    0 or at least 15 km is never in the output, and every other record
    is. *)
Theorem C7_window_filter (fuel : nat) (a : args) (w w1 : world) (o : outcome unit)
    (basename : string) (rows : list merged) :
  basename_of a w = (Ok basename, w) ->
  fs w !! ofile_of basename = None ->
  main fuel a w = (o, w1) ->
  fs w1 !! ofile_of basename = Some (CsvFile rows) ->
  (MINDATE = datetime 2020 1 1 /\ datetime 2020 1 1 = 1577836800 * 10 ^ 9)%Z /\
  ((day_ns | maxdate_of (clock w))%Z /\
   (maxdate_of (clock w) <= clock w - 3 * day_ns < maxdate_of (clock w) + day_ns)%Z) /\
  exists pand lat lon w0,
    _read_pandora fuel (ifile_of basename) w = (Ok (pand, lat, lon), w0) /\
    map m_obs rows = filter (fun r => in_window (maxdate_of (clock w)) r) pand /\
    (forall r,
       r ∈ map m_obs rows <->
       r ∈ pand /\
       (datetime 2020 1 1 <= date r <= maxdate_of (clock w))%Z /\
       (0 < pandora_no2_l1hgt r /\ pandora_no2_l1hgt r < 15)%Q) /\
    (forall r,
       r ∈ pand -> (date r < 1577836800 * 10 ^ 9)%Z -> r ∉ map m_obs rows) /\
    (forall r,
       r ∈ map m_obs rows ->
       (0 < pandora_no2_l1hgt r * 1000 /\ pandora_no2_l1hgt r * 1000 < 15000)%Q).
Proof.
  intros Hb Hout Hrun Hrows.
  assert (Hmin : MINDATE = datetime 2020 1 1) by reflexivity.
  assert (Hsec : datetime 2020 1 1 = (1577836800 * 10 ^ 9)%Z) by reflexivity.
  split; [split; assumption|]. split; [apply maxdate_of_spec|].
  destruct (fs w !! ifile_of basename) as [f|] eqn:Hobs.
  - rewrite (main_merges fuel a w basename) in Hrun; try (rewrite ?Hobs; eauto).
    apply merge_outcome in Hrun
      as [[_ Hfs]|(_ & pand & lat & lon & w0 & rows' & Hread & Hfs & Hfilter & _)].
    + rewrite Hfs in Hrows. congruence.
    + rewrite Hfs, lookup_insert_eq in Hrows. injection Hrows as <-.
      exists pand, lat, lon, w0. split; [assumption|]. split; [assumption|].
      assert (Hiff : forall r,
                r ∈ map m_obs rows' <->
                r ∈ pand /\
                (datetime 2020 1 1 <= date r <= maxdate_of (clock w))%Z /\
                (0 < pandora_no2_l1hgt r /\ pandora_no2_l1hgt r < 15)%Q).
      { intros r. rewrite <- Hmin.
        rewrite Hfilter, list_elem_of_filter, Is_true_true, in_window_spec. tauto. }
      split; [exact Hiff|]. split.
      * intros r _ Hearly Hr. apply Hiff in Hr as (_ & [Hlo _] & _).
        rewrite Hsec in Hlo. lia.
      * intros r Hr. apply Hiff in Hr as (_ & _ & Hlo & Hhi). split; lra.
  - rewrite (main_obs_missing fuel a w basename) in Hrun by assumption.
    injection Hrun as <- <-. simpl in Hrows. congruence.
Qed.

End FilterClaims.

Lemma C7_window_filter_witness :
  exists rows,
    fs (main (lib := Examples.toy_library) 200 Examples.site_args Examples.site_world).2
      !! Examples.site_out = Some (CsvFile rows) /\
    (forall r, r ∈ map m_obs rows ->
       (1577836800 * 10 ^ 9 <= date r)%Z /\ (pandora_no2_l1hgt r < 15)%Q) /\
    Obs 1577836799000000000 10 7 1 5 ∉ map m_obs rows.
Proof.
  eexists. split; [vm_compute; reflexivity|].
  edestruct (C7_window_filter (lib := Examples.toy_library) 200 Examples.site_args
               Examples.site_world
               (main (lib := Examples.toy_library) 200 Examples.site_args Examples.site_world).2
               (main (lib := Examples.toy_library) 200 Examples.site_args Examples.site_world).1
               "Pandora140s1_WashingtonDC_L2_rnvh3p1-8.txt")
    as ([_ Hsec] & _ & pand & lat & lon & w0 & _ & _ & Hiff & Hearly & _).
  - vm_compute. reflexivity.
  - vm_compute. reflexivity.
  - apply surjective_pairing.
  - vm_compute. reflexivity.
  - split.
    + intros r Hr. apply Hiff in Hr. rewrite Hsec in Hr. tauto.
    + intros Hin. apply Hiff in Hin as (_ & [Hlo _] & _).
      rewrite Hsec in Hlo. simpl in Hlo. lia.
Defined.

Section QualityFlag.
Context {lib : Library}.

Lemma match_cf_ignores_qval a r1 r2 lat lon :
  same_but_qval r1 r2 -> _match_cf a r1 lat lon = _match_cf a r2 lat lon.
Proof.
  destruct r1, r2. intros (Hd & Hs & Hh & _). simpl in *. subst. reflexivity.
Qed.

Lemma match_rows_ignore_qval a lat lon pand1 pand2 w :
  Forall2 same_but_qval pand1 pand2 ->
  (match_rows a lat lon pand1 w).2 = (match_rows a lat lon pand2 w).2 /\
  match (match_rows a lat lon pand1 w).1, (match_rows a lat lon pand2 w).1 with
  | Ok rows1, Ok rows2 =>
      map derived rows1 = map derived rows2 /\
      map m_obs rows1 = pand1 /\ map m_obs rows2 = pand2
  | Raise e1, Raise e2 => e1 = e2
  | OutOfFuel, OutOfFuel => True
  | _, _ => False
  end.
Proof.
  intros Hsame. revert w. induction Hsame as [|r1 r2 pand1 pand2 Hr _ IH]; intros w; simpl.
  - repeat split.
  - unfold mbind, M_bind. rewrite (match_cf_ignores_qval a r1 r2 lat lon Hr).
    destruct (_match_cf a r2 lat lon w) as [[v|e|] w1]; simpl; try done.
    specialize (IH w1).
    destruct (match_rows a lat lon pand1 w1) as [[ms1|e1|] w2],
             (match_rows a lat lon pand2 w1) as [[ms2|e2|] w2']; simpl in *;
      destruct IH as [-> IH]; try done.
    destruct IH as (Hd & Ho1 & Ho2). split; [reflexivity|].
    unfold derived at 1 3. simpl. rewrite Hd, Ho1, Ho2. repeat split.
Qed.

(** C10.  The quality flag is the integer read from field 52 of a record
    line and is carried into the output row unchanged; two observations
    that differ only in it get the same decision from the three filters and
    the same result from [_match_cf], in the same world afterwards; and two
    frames that differ only in the flags give the same derived fields, row
    by row. *)
Theorem C10_quality_flag_is_inert (r1 r2 : obs) :
  same_but_qval r1 r2 ->
  (forall maxdate, in_window maxdate r1 = in_window maxdate r2) /\
  (forall a lat lon w, _match_cf a r1 lat lon w = _match_cf a r2 lat lon w) /\
  (forall line o, parse_row line = Ok o ->
     exists v, split " " line !! 52%nat = Some v /\ py_int v = Some (pandora_no2_qval o)) /\
  (forall a lat lon pand1 pand2 w rows1 w1,
     Forall2 same_but_qval pand1 pand2 ->
     match_rows a lat lon pand1 w = (Ok rows1, w1) ->
     map (fun m => pandora_no2_qval (m_obs m)) rows1 = map pandora_no2_qval pand1 /\
     exists rows2,
       match_rows a lat lon pand2 w = (Ok rows2, w1) /\
       map derived rows1 = map derived rows2 /\
       map (fun m => pandora_no2_qval (m_obs m)) rows2 = map pandora_no2_qval pand2).
Proof.
  intros Hsame. split; [|split; [|split]].
  - intros maxdate. destruct Hsame as (Hd & _ & Hh & _).
    unfold in_window. now rewrite Hd, Hh.
  - intros a lat lon w. now rewrite (match_cf_ignores_qval a r1 r2 lat lon Hsame).
  - intros line o. unfold parse_row, getitem, of_option. simpl.
    repeat match goal with
           | |- context [match ?x with _ => _ end] =>
               lazymatch x with
               | context [match _ with _ => _ end] => fail
               | _ => destruct x eqn:?; simpl; try discriminate
               end
           end.
    intros [= <-]. simpl. eauto.
  - intros a lat lon pand1 pand2 w rows1 w1 Hall Hrun.
    destruct (match_rows_ignore_qval a lat lon pand1 pand2 w Hall) as [Hw Hrows].
    rewrite Hrun in Hw, Hrows. simpl in *.
    destruct (match_rows a lat lon pand2 w) as [[rows2|e|] w2]; simpl in *; try done.
    destruct Hrows as (Hd & Ho1 & Ho2). subst w2. split.
    + rewrite <- Ho1. now rewrite map_map.
    + exists rows2. repeat split; try assumption.
      rewrite <- Ho2. now rewrite map_map.
Qed.

End QualityFlag.

Lemma C10_quality_flag_is_inert_witness :
  same_but_qval (Obs 1600000000000000000 10 7 1 5) (Obs 1600000000000000000 0 7 1 5) /\
  in_window (maxdate_of (clock Examples.site_world)) (Obs 1600000000000000000 10 7 1 5) =
  in_window (maxdate_of (clock Examples.site_world)) (Obs 1600000000000000000 0 7 1 5) /\
  _match_cf (lib := Examples.toy_library) Examples.site_args
    (Obs 1600000000000000000 10 7 1 5) 39 (-77) Examples.site_world =
  _match_cf (lib := Examples.toy_library) Examples.site_args
    (Obs 1600000000000000000 0 7 1 5) 39 (-77) Examples.site_world.
Proof.
  assert (Hsame : same_but_qval (Obs 1600000000000000000 10 7 1 5)
                    (Obs 1600000000000000000 0 7 1 5)) by (repeat split).
  destruct (C10_quality_flag_is_inert (lib := Examples.toy_library) _ _ Hsame)
    as (Hwin & Hmatch & _).
  split; [exact Hsame|]. split; [apply Hwin | apply Hmatch].
Defined.

(** ** Resolution of the model files *)

Lemma round_H_nearest t :
  (hour_ns | round_H t)%Z /\ (2 * Z.abs (round_H t - t) <= hour_ns)%Z.
Proof.
  unfold round_H.
  pose proof (Z.div_mod t hour_ns) as Hdm.
  pose proof (Z.mod_pos_bound t hour_ns eq_refl) as Hr.
  set (quo := (t / hour_ns)%Z) in *. set (rem := (t mod hour_ns)%Z) in *.
  change (hour_ns / 2)%Z with 1800000000000%Z.
  assert (Hh : hour_ns = 3600000000000%Z) by reflexivity.
  specialize (Hdm ltac:(rewrite Hh; discriminate)).
  destruct ((1800000000000 <? rem)%Z || (rem =? 1800000000000)%Z && Z.odd quo) eqn:E.
  - split; [apply Z.divide_factor_r|].
    apply orb_true_iff in E as [E|E].
    + apply Z.ltb_lt in E. lia.
    + apply andb_true_iff in E as [E _]. apply Z.eqb_eq in E. lia.
  - split; [apply Z.divide_factor_r|].
    apply orb_false_iff in E as [E _]. apply Z.ltb_ge in E. lia.
Qed.

Lemma lookup_cache_spec col path w :
  lookup_cache col path w =
  (if is_cached col path w
   then match dsl w !! col with
        | Some ds => Ok (Some ds)
        | None => Raise (KeyError col)
        end
   else Ok None, w).
Proof.
  unfold lookup_cache, is_cached.
  destruct (fnl w !! col) as [cur|] eqn:E.
  - destruct (String.eqb cur path) eqn:Ee.
    + apply String.eqb_eq in Ee as ->. rewrite bool_decide_eq_true_2 by reflexivity.
      now destruct (dsl w !! col).
    + apply String.eqb_neq in Ee. rewrite bool_decide_eq_false_2; [reflexivity|congruence].
  - rewrite bool_decide_eq_false_2; [reflexivity|discriminate].
Qed.

Lemma isfile_there path w :
  is_Some (fs w !! path) -> isfile path w = (Ok true, w).
Proof.
  intros Hf. unfold isfile, get_fs, mbind, M_bind, mret, M_ret.
  now rewrite (bool_decide_eq_true_2 _ Hf).
Qed.

Lemma isfile_absent path w :
  fs w !! path = None -> isfile path w = (Ok false, w).
Proof.
  intros Hf. unfold isfile, get_fs, mbind, M_bind, mret, M_ret.
  rewrite bool_decide_eq_false_2; [reflexivity|].
  rewrite Hf. now intros [? ?].
Qed.

Lemma read_collection_spec col path ds w :
  fs w !! path = Some (NetCDF ds) ->
  read_collection col path w =
  (Ok ds, cached_as col path ds (logged [PrintReading path; OpenDataset path] w)).
Proof.
  intros Hf. unfold read_collection, open_dataset, store_cache. mrun. rewrite Hf.
  unfold cached_as, logged. simpl. now rewrite <- app_assoc.
Qed.

Lemma resolve_spec col path ds w :
  resolvable col path ds w -> resolve col path w = (Ok ds, resolved col path ds w).
Proof.
  unfold resolvable, resolved, resolve. intros Hr.
  unfold mbind, M_bind. rewrite lookup_cache_spec.
  destruct (is_cached col path w).
  - now rewrite Hr.
  - now apply read_collection_spec.
Qed.

(** Resolving one collection leaves the files, the clock and the cache
    entries of the other collections as they are. *)
Lemma resolved_frame col path ds w col' path' ds' :
  col <> col' ->
  resolvable col' path' ds' w -> resolvable col' path' ds' (resolved col path ds w).
Proof.
  intros Hne. unfold resolvable, resolved, is_cached.
  destruct (bool_decide (fnl w !! col = Some path)); [done|]. simpl.
  rewrite !lookup_insert_ne by assumption. done.
Qed.

Lemma resolved_cached col path ds w :
  resolvable col path ds w ->
  fnl (resolved col path ds w) !! col = Some path /\
  dsl (resolved col path ds w) !! col = Some ds.
Proof.
  unfold resolvable, resolved, is_cached. case_bool_decide as E; simpl.
  - intros Hd. split; assumption.
  - intros _. rewrite !lookup_insert_eq. split; reflexivity.
Qed.

Lemma resolved_keeps_other col path ds w col' :
  col <> col' ->
  fnl (resolved col path ds w) !! col' = fnl w !! col' /\
  dsl (resolved col path ds w) !! col' = dsl w !! col'.
Proof.
  intros Hne. unfold resolved. destruct (is_cached col path w); [done|]. simpl.
  rewrite !lookup_insert_ne by assumption. done.
Qed.

Lemma resolved_opened col path ds w :
  opened (log (resolved col path ds w)) = opened (log w) ++ newly_opened col path w /\
  forall col' path', col <> col' ->
    newly_opened col' path' (resolved col path ds w) = newly_opened col' path' w.
Proof.
  unfold resolved, newly_opened, is_cached.
  destruct (bool_decide (fnl w !! col = Some path)); simpl.
  - split; [now rewrite app_nil_r | done].
  - split.
    + unfold opened. now rewrite omap_app.
    + intros col' path' Hne. now rewrite lookup_insert_ne by assumption.
Qed.

Section Resolution.
Context {lib : Library}.

(** The second half of [_match_cf] changes nothing in the world: the loop
    never prints. *)
Lemma derive_world row lat lon dsc dsm dsp w :
  (derive row lat lon dsc dsm dsp w).2 = w.
Proof.
  unfold derive. mrun.
  repeat match goal with
         | |- context [match ?x with _ => _ end] =>
             lazymatch x with
             | context [match _ with _ => _ end] => fail
             | _ => destruct x eqn:?; simpl; try reflexivity
             end
         end.
  all: match goal with
       | Hrun : Integration.integrate _ _ = Ok _ |- _ =>
           apply while_prints_nothing in Hrun; simpl in Hrun; rewrite Hrun in *
       end.
  all: simpl in *; congruence.
Qed.

(** [_match_cf] when the three collections can be resolved: the world
    after the three resolutions, and the outcome of [derive] there. *)
Lemma match_cf_resolves a row lat lon w dsc dsm dsp :
  let hourly := py_strftime (round_H (date row)) (cf_template a) in
  let ifilec := replace "<col>" "chm" hourly in
  let ifilem := replace "<col>" "met" hourly in
  let ifilep := py_strftime (date row) (pbl_template a) in
  resolvable "chm" ifilec dsc w ->
  resolvable "met" ifilem dsm w ->
  resolvable "pbl" ifilep dsp w ->
  let w3 := resolved "pbl" ifilep dsp (resolved "met" ifilem dsm (resolved "chm" ifilec dsc w)) in
  _match_cf a row lat lon w = ((derive row lat lon dsc dsm dsp w3).1, w3).
Proof.
  intros hourly ifilec ifilem ifilep Hc Hm Hp w3.
  assert (Hrest : forall w1, w1 = resolved "chm" ifilec dsc w ->
            (resolve "met" ifilem ≫= fun dm =>
             resolve "pbl" ifilep ≫= fun dp => derive row lat lon dsc dm dp) w1
            = ((derive row lat lon dsc dsm dsp w3).1, w3)).
  { intros w1 ->.
    rewrite (bind_Ok _ _ _ _ _ (resolve_spec "met" ifilem dsm _
               (resolved_frame "chm" ifilec dsc w "met" ifilem dsm ltac:(discriminate) Hm))).
    rewrite (bind_Ok _ _ _ _ _ (resolve_spec "pbl" ifilep dsp _
               (resolved_frame "met" ifilem dsm _ "pbl" ifilep dsp ltac:(discriminate)
                  (resolved_frame "chm" ifilec dsc w "pbl" ifilep dsp ltac:(discriminate) Hp)))).
    fold w3. pose proof (derive_world row lat lon dsc dsm dsp w3) as Hd.
    destruct (derive row lat lon dsc dsm dsp w3) as [o wd]. simpl in *. now subst. }
  unfold _match_cf. fold hourly ifilec ifilem ifilep.
  unfold mbind at 1. unfold M_bind. rewrite lookup_cache_spec.
  unfold resolvable in Hc.
  destruct (is_cached "chm" ifilec w) eqn:Ec.
  - rewrite Hc. apply Hrest. unfold resolved. now rewrite Ec.
  - rewrite (bind_Ok _ _ _ _ _ (isfile_there ifilec w ltac:(rewrite Hc; eauto))).
    simpl.
    rewrite (bind_Ok _ _ _ _ _ (read_collection_spec "chm" ifilec dsc w Hc)).
    apply Hrest. unfold resolved. now rewrite Ec.
Qed.

(** C9.  For an observation whose three collections can be resolved (each
    one cached under the formatted path, or present as a model file): the
    chemistry and meteorology paths are formatted from the time stamp
    rounded to the nearest full hour, the boundary-layer path from the time
    stamp itself with its own template; a collection whose formatted path
    is the cached one is served from the cache and opens no file, any other
    is opened once and then cached under the new path; and the values are
    derived from these three datasets. *)
Theorem C9_collections_and_cache (a : args) (row : obs) (lat lon : Q) (w : world)
    (dsc dsm dsp : dataset) :
  let hourly := py_strftime (round_H (date row)) (cf_template a) in
  let ifilec := replace "<col>" "chm" hourly in
  let ifilem := replace "<col>" "met" hourly in
  let ifilep := py_strftime (date row) (pbl_template a) in
  resolvable "chm" ifilec dsc w ->
  resolvable "met" ifilem dsm w ->
  resolvable "pbl" ifilep dsp w ->
  let w' := (_match_cf a row lat lon w).2 in
  ((hour_ns | round_H (date row))%Z /\
   (2 * Z.abs (round_H (date row) - date row) <= hour_ns)%Z) /\
  (_match_cf a row lat lon w).1 = (derive row lat lon dsc dsm dsp w').1 /\
  opened (log w') =
    opened (log w) ++ newly_opened "chm" ifilec w ++ newly_opened "met" ifilem w
    ++ newly_opened "pbl" ifilep w /\
  (fnl w' !! "chm" = Some ifilec /\ dsl w' !! "chm" = Some dsc) /\
  (fnl w' !! "met" = Some ifilem /\ dsl w' !! "met" = Some dsm) /\
  (fnl w' !! "pbl" = Some ifilep /\ dsl w' !! "pbl" = Some dsp) /\
  fs w' = fs w.
Proof.
  intros hourly ifilec ifilem ifilep Hc Hm Hp w'.
  pose proof (match_cf_resolves a row lat lon w dsc dsm dsp Hc Hm Hp) as Hrun.
  cbv zeta in Hrun. fold hourly ifilec ifilem ifilep in Hrun.
  subst w'. rewrite Hrun. simpl.
  set (w1 := resolved "chm" ifilec dsc w).
  set (w2 := resolved "met" ifilem dsm w1).
  assert (Hm1 : resolvable "met" ifilem dsm w1)
    by (apply resolved_frame; [discriminate | assumption]).
  assert (Hp2 : resolvable "pbl" ifilep dsp w2)
    by (do 2 (apply resolved_frame; [discriminate|]); assumption).
  split; [apply round_H_nearest|]. split; [reflexivity|]. split; [|split; [|split; [|split]]].
  - destruct (resolved_opened "pbl" ifilep dsp w2) as [Ho3 _].
    destruct (resolved_opened "met" ifilem dsm w1) as [Ho2 Hn2].
    destruct (resolved_opened "chm" ifilec dsc w) as [Ho1 Hn1].
    fold w1 in Ho1, Hn1. fold w2 in Ho2, Hn2.
    rewrite Ho3, Ho2, Ho1.
    rewrite (Hn2 "pbl" ifilep) by discriminate.
    rewrite (Hn1 "pbl" ifilep), (Hn1 "met" ifilem) by discriminate.
    now rewrite <- !app_assoc.
  - destruct (resolved_keeps_other "pbl" ifilep dsp w2 "chm") as [Hf3 Hd3]; [discriminate|].
    destruct (resolved_keeps_other "met" ifilem dsm w1 "chm") as [Hf2 Hd2]; [discriminate|].
    fold w2 in Hf2, Hd2. rewrite Hf3, Hd3, Hf2, Hd2.
    now apply resolved_cached.
  - destruct (resolved_keeps_other "pbl" ifilep dsp w2 "met") as [Hf3 Hd3]; [discriminate|].
    rewrite Hf3, Hd3.
    now apply resolved_cached.
  - now apply resolved_cached.
  - destruct (keeps_match_cf a row lat lon w) as [Hfs _]. now rewrite Hrun in Hfs.
Qed.

End Resolution.

Lemma C9_collections_and_cache_witness :
  let row := Obs 1600000000000000000 10 7 1 5 in
  let first := (_match_cf (lib := Examples.toy_library) Examples.site_args row 39 (-77)
                  Examples.site_world).2 in
  let second := (_match_cf (lib := Examples.toy_library) Examples.site_args row 39 (-77)
                   first).2 in
  opened (log first) =
    ["cf/chm.1599998400.nc4"; "cf/met.1599998400.nc4"; "cf/tavg.1600000000.nc4"] /\
  opened (log second) = opened (log first).
Proof.
  intros row first second. split.
  - assert (Hc : resolvable "chm" "cf/chm.1599998400.nc4" Examples.chm_dataset
                   Examples.site_world) by (vm_compute; reflexivity).
    assert (Hm : resolvable "met" "cf/met.1599998400.nc4" Examples.met_dataset
                   Examples.site_world) by (vm_compute; reflexivity).
    assert (Hp : resolvable "pbl" "cf/tavg.1600000000.nc4" Examples.pbl_dataset
                   Examples.site_world) by (vm_compute; reflexivity).
    pose proof (C9_collections_and_cache (lib := Examples.toy_library) Examples.site_args row
                  39 (-77) Examples.site_world Examples.chm_dataset Examples.met_dataset
                  Examples.pbl_dataset Hc Hm Hp) as (_ & _ & Hopened & _).
    exact Hopened.
  - assert (Hc : resolvable "chm" "cf/chm.1599998400.nc4" Examples.chm_dataset first)
      by (vm_compute; reflexivity).
    assert (Hm : resolvable "met" "cf/met.1599998400.nc4" Examples.met_dataset first)
      by (vm_compute; reflexivity).
    assert (Hp : resolvable "pbl" "cf/tavg.1600000000.nc4" Examples.pbl_dataset first)
      by (vm_compute; reflexivity).
    pose proof (C9_collections_and_cache (lib := Examples.toy_library) Examples.site_args row
                  39 (-77) first Examples.chm_dataset Examples.met_dataset
                  Examples.pbl_dataset Hc Hm Hp) as (_ & _ & Hopened & _).
    exact Hopened.
Defined.

(** ** Model files that are missing *)

Lemma resolve_absent col path w :
  is_cached col path w = false ->
  fs w !! path = None ->
  resolve col path w =
  (Raise (FileNotFoundError path), logged [PrintReading path; OpenDataset path] w).
Proof.
  intros Hc Hf. unfold resolve, mbind, M_bind. rewrite lookup_cache_spec, Hc.
  unfold read_collection, open_dataset. mrun. rewrite Hf.
  unfold logged. simpl. now rewrite <- app_assoc.
Qed.

Lemma resolved_is_cached col path ds w col' path' :
  col <> col' ->
  is_cached col' path' (resolved col path ds w) = is_cached col' path' w /\
  fs (resolved col path ds w) = fs w.
Proof.
  intros Hne. unfold resolved, is_cached.
  destruct (bool_decide (fnl w !! col = Some path)); [done|]. simpl.
  now rewrite lookup_insert_ne by assumption.
Qed.

Section MissingFiles.
Context {lib : Library}.

(** [_match_cf] once the chemistry collection is resolved. *)
Lemma match_cf_after_chm a row lat lon w dsc :
  let hourly := py_strftime (round_H (date row)) (cf_template a) in
  let ifilec := replace "<col>" "chm" hourly in
  let ifilem := replace "<col>" "met" hourly in
  let ifilep := py_strftime (date row) (pbl_template a) in
  resolvable "chm" ifilec dsc w ->
  _match_cf a row lat lon w =
  (resolve "met" ifilem ≫= fun dm =>
   resolve "pbl" ifilep ≫= fun dp => derive row lat lon dsc dm dp)
    (resolved "chm" ifilec dsc w).
Proof.
  intros hourly ifilec ifilem ifilep Hc.
  unfold _match_cf. fold hourly ifilec ifilem ifilep.
  unfold mbind at 1. unfold M_bind. rewrite lookup_cache_spec.
  unfold resolvable in Hc. unfold resolved.
  destruct (is_cached "chm" ifilec w) eqn:Ec.
  - now rewrite Hc.
  - rewrite (bind_Ok _ _ _ _ _ (isfile_there ifilec w ltac:(rewrite Hc; eauto))).
    simpl.
    now rewrite (bind_Ok _ _ _ _ _ (read_collection_spec "chm" ifilec dsc w Hc)).
Qed.

(** A run of [main] that ends in an exception has written nothing. *)
Lemma main_raise_writes_nothing fuel a w e w1 :
  main fuel a w = (Raise e, w1) -> fs w1 = fs w.
Proof.
  intros Hrun.
  destruct (basename_of_reads a w) as (o & Ho & _).
  destruct o as [basename|e'|].
  - destruct (fs w !! ifile_of basename) as [f|] eqn:Hobs.
    + destruct (fs w !! ofile_of basename) as [g|] eqn:Hout.
      * rewrite (main_output_exists fuel a w basename) in Hrun;
          try (rewrite ?Hobs, ?Hout; eauto). discriminate.
      * rewrite (main_merges fuel a w basename) in Hrun; try (rewrite ?Hobs; eauto).
        apply merge_outcome in Hrun as [[_ Hfs]|[Hok _]]; [assumption | discriminate].
    + rewrite (main_obs_missing fuel a w basename) in Hrun by assumption. discriminate.
  - unfold main in Hrun. rewrite (bind_Raise _ _ _ _ _ Ho) in Hrun. now injection Hrun as _ <-.
  - unfold main in Hrun. rewrite (bind_OutOfFuel _ _ _ _ Ho) in Hrun. discriminate.
Qed.

(** C5 (what the code does).  Only the chemistry file is tested with
    [os.path.isfile]: when it is missing (and not cached) [_match_cf] prints
    the warning and returns the five NaN, the world otherwise unchanged.
    When the meteorology file, or the boundary-layer file, is missing (and
    not cached), [xr.open_dataset] raises [FileNotFoundError] out of
    [_match_cf]; and a run of [main] that ends in an exception has written
    no output. *)
Theorem C5_only_chm_is_checked (a : args) (row : obs) (lat lon : Q) (w : world)
    (dsc dsm : dataset) :
  let hourly := py_strftime (round_H (date row)) (cf_template a) in
  let ifilec := replace "<col>" "chm" hourly in
  let ifilem := replace "<col>" "met" hourly in
  let ifilep := py_strftime (date row) (pbl_template a) in
  (is_cached "chm" ifilec w = false -> fs w !! ifilec = None ->
     _match_cf a row lat lon w = (Ok nan_values, logged [PrintFileNotFound ifilec] w)) /\
  (resolvable "chm" ifilec dsc w ->
   is_cached "met" ifilem w = false -> fs w !! ifilem = None ->
     (_match_cf a row lat lon w).1 = Raise (FileNotFoundError ifilem)) /\
  (resolvable "chm" ifilec dsc w -> resolvable "met" ifilem dsm w ->
   is_cached "pbl" ifilep w = false -> fs w !! ifilep = None ->
     (_match_cf a row lat lon w).1 = Raise (FileNotFoundError ifilep)) /\
  (forall fuel e w1, main fuel a w = (Raise e, w1) -> fs w1 = fs w).
Proof.
  intros hourly ifilec ifilem ifilep. split; [|split; [|split]].
  - intros Hc Hf. unfold _match_cf. fold hourly ifilec.
    unfold mbind at 1. unfold M_bind. rewrite lookup_cache_spec, Hc.
    now rewrite (bind_Ok _ _ _ _ _ (isfile_absent ifilec w Hf)).
  - intros Hc Hm Hf.
    rewrite (match_cf_after_chm a row lat lon w dsc Hc). fold hourly ifilec ifilem ifilep.
    destruct (resolved_is_cached "chm" ifilec dsc w "met" ifilem ltac:(discriminate))
      as [Hm' Hfs'].
    erewrite bind_Raise; [reflexivity|].
    apply resolve_absent; congruence.
  - intros Hc Hm Hp Hf.
    rewrite (match_cf_after_chm a row lat lon w dsc Hc). fold hourly ifilec ifilem ifilep.
    set (w1 := resolved "chm" ifilec dsc w).
    assert (Hm1 : resolvable "met" ifilem dsm w1)
      by (apply resolved_frame; [discriminate | assumption]).
    rewrite (bind_Ok _ _ _ _ _ (resolve_spec "met" ifilem dsm w1 Hm1)).
    destruct (resolved_is_cached "met" ifilem dsm w1 "pbl" ifilep ltac:(discriminate))
      as [Hp2 Hfs2].
    destruct (resolved_is_cached "chm" ifilec dsc w "pbl" ifilep ltac:(discriminate))
      as [Hp1 Hfs1].
    fold w1 in Hp1, Hfs1.
    erewrite bind_Raise; [reflexivity|].
    apply resolve_absent; congruence.
  - intros fuel e w1. apply main_raise_writes_nothing.
Qed.

End MissingFiles.

Lemma C5_only_chm_is_checked_witness :
  (_match_cf (lib := Examples.toy_library) Examples.site_args
     (Obs 1600000000000000000 10 7 1 5) 39 (-77) Examples.world_without_met).1
  = Raise (FileNotFoundError "cf/met.1599998400.nc4") /\
  (main (lib := Examples.toy_library) 200 Examples.site_args Examples.world_without_met).1
  = Raise (FileNotFoundError "cf/met.1599998400.nc4") /\
  fs (main (lib := Examples.toy_library) 200 Examples.site_args Examples.world_without_met).2
    !! Examples.site_out = None.
Proof.
  split; [|split].
  - assert (Hc : resolvable "chm" "cf/chm.1599998400.nc4" Examples.chm_dataset
                   Examples.world_without_met) by (vm_compute; reflexivity).
    assert (Hm : is_cached "met" "cf/met.1599998400.nc4" Examples.world_without_met = false)
      by (vm_compute; reflexivity).
    assert (Hf : fs Examples.world_without_met !! "cf/met.1599998400.nc4" = None)
      by (vm_compute; reflexivity).
    pose proof (C5_only_chm_is_checked (lib := Examples.toy_library) Examples.site_args
                  (Obs 1600000000000000000 10 7 1 5) 39 (-77) Examples.world_without_met
                  Examples.chm_dataset Examples.met_dataset) as (_ & Hmet & _).
    exact (Hmet Hc Hm Hf).
  - vm_compute. reflexivity.
  - vm_compute. reflexivity.
Defined.

(** ** The scan for the station's coordinates *)

Lemma Forall_absent label lines :
  forallb (fun l => negb (contains label (str_of_bytes l))) lines = true ->
  Forall (fun l => contains label (str_of_bytes l) = false) lines.
Proof.
  induction lines as [|l lines IH]; simpl; [constructor|].
  intros Hb. apply andb_true_iff in Hb as [Hl Hrest].
  constructor; [now apply negb_true_iff | now apply IH].
Qed.

Section Scan.
Context {lib : Library}.

Lemma parse_coordinate_fails line e :
  parse_coordinate line = Raise e -> e = IndexError \/ e = ValueError.
Proof.
  unfold parse_coordinate, getitem, of_option. simpl.
  destruct (split ":" line !! 1%nat) as [part|]; simpl.
  - destruct (py_float _); [discriminate|]. intros [= <-]. now right.
  - intros [= <-]. now left.
Qed.

Lemma spins_or_misreads_cons {A} l lines (o : outcome A) :
  spins_or_misreads lines o -> spins_or_misreads (l :: lines) o.
Proof.
  destruct o as [v|e|]; simpl; try done.
  intros (l' & Hl' & Hp). exists l'. split; [now apply list_elem_of_further | assumption].
Qed.

(** At the end of the file [readline] keeps returning the empty bytes, in
    which no label is found: a pass changes nothing. *)
Lemma scan_at_end_of_file fuel lat lon w :
  lat = None \/ lon = None ->
  scan_location fuel [] lat lon w = (OutOfFuel, w).
Proof.
  intros Hmiss. induction fuel as [|fuel IH]; simpl.
  - destruct lat, lon; try reflexivity. destruct Hmiss; discriminate.
  - destruct lat, lon; try (destruct Hmiss; discriminate); exact IH.
Qed.

(** One pass over a line without the longitude label. *)
Lemma pass_without_longitude fuel lines bytes rest lat w :
  (forall lat' w', spins_or_misreads lines (scan_location fuel rest lat' None w').1) ->
  contains "Location longitude" (str_of_bytes bytes) = false ->
  (contains "Location latitude" (str_of_bytes bytes) = true -> bytes ∈ lines) ->
  spins_or_misreads lines
    ((lat' ← (if contains "Location latitude" (str_of_bytes bytes)
              then v ← lift (parse_coordinate (str_of_bytes bytes));
                   emit (PrintLatitude v);; mret (Some v)
              else mret lat);
      lon' ← (if contains "Location longitude" (str_of_bytes bytes)
              then v ← lift (parse_coordinate (str_of_bytes bytes));
                   emit (PrintLongitude v);; mret (Some v)
              else mret None);
      scan_location fuel rest lat' lon') w).1.
Proof.
  intros IH Hno Hin. rewrite Hno.
  destruct (contains "Location latitude" (str_of_bytes bytes)).
  - mrun. destruct (parse_coordinate (str_of_bytes bytes)) as [v|e|] eqn:Ep; simpl.
    + apply IH.
    + exists bytes. split; [now apply Hin | assumption].
    + exact I.
  - mrun. apply IH.
Qed.

(** One pass over a line without the latitude label. *)
Lemma pass_without_latitude fuel lines bytes rest lon w :
  (forall lon' w', spins_or_misreads lines (scan_location fuel rest None lon' w').1) ->
  contains "Location latitude" (str_of_bytes bytes) = false ->
  (contains "Location longitude" (str_of_bytes bytes) = true -> bytes ∈ lines) ->
  spins_or_misreads lines
    ((lat' ← (if contains "Location latitude" (str_of_bytes bytes)
              then v ← lift (parse_coordinate (str_of_bytes bytes));
                   emit (PrintLatitude v);; mret (Some v)
              else mret None);
      lon' ← (if contains "Location longitude" (str_of_bytes bytes)
              then v ← lift (parse_coordinate (str_of_bytes bytes));
                   emit (PrintLongitude v);; mret (Some v)
              else mret lon);
      scan_location fuel rest lat' lon') w).1.
Proof.
  intros IH Hno Hin. rewrite Hno.
  destruct (contains "Location longitude" (str_of_bytes bytes)).
  - mrun. destruct (parse_coordinate (str_of_bytes bytes)) as [v|e|] eqn:Ep; simpl.
    + apply IH.
    + exists bytes. split; [now apply Hin | assumption].
    + exact I.
  - mrun. apply IH.
Qed.

(** Without a longitude line the scan cannot return, however long it runs. *)
Lemma scan_without_longitude lines :
  Forall (fun l => contains "Location longitude" (str_of_bytes l) = false) lines ->
  forall fuel lat w, spins_or_misreads lines (scan_location fuel lines lat None w).1.
Proof.
  intros Hall fuel. revert lines Hall.
  induction fuel as [|fuel IH]; intros lines Hall lat w; simpl.
  - now destruct lat.
  - destruct lines as [|l lines']; simpl.
    + destruct lat; apply (pass_without_longitude fuel [] EmptyString []);
        try (intros; apply IH; constructor); try reflexivity; discriminate.
    + inversion Hall; subst.
      destruct lat; apply (pass_without_longitude fuel (l :: lines') l lines');
        try assumption;
        try (intros; apply spins_or_misreads_cons, IH; assumption);
        intros _; apply list_elem_of_here.
Qed.

(** Without a latitude line the scan cannot return either. *)
Lemma scan_without_latitude lines :
  Forall (fun l => contains "Location latitude" (str_of_bytes l) = false) lines ->
  forall fuel lon w, spins_or_misreads lines (scan_location fuel lines None lon w).1.
Proof.
  intros Hall fuel. revert lines Hall.
  induction fuel as [|fuel IH]; intros lines Hall lon w; simpl.
  - now destruct lon.
  - destruct lines as [|l lines']; simpl.
    + apply (pass_without_latitude fuel [] EmptyString []);
        try (intros; apply IH; constructor); try reflexivity; discriminate.
    + inversion Hall; subst.
      apply (pass_without_latitude fuel (l :: lines') l lines');
        try assumption;
        try (intros; apply spins_or_misreads_cons, IH; assumption);
        intros _; apply list_elem_of_here.
Qed.

(** C6 (what the code does).  When no line of the observation file carries
    the latitude label, or none carries the longitude label, the scan never
    returns the coordinates and never reports their absence.  Once the file
    is exhausted every pass reads the empty bytes and changes nothing, so
    the loop spins; the only other way out is an exception from a line that
    does carry a label but cannot be read as a number.  When every line can
    be read the scan runs for ever, and [_read_pandora] never returns. *)
Theorem C6_missing_label_never_ends (lines : list string) :
  Forall (fun l => contains "Location latitude" (str_of_bytes l) = false) lines \/
  Forall (fun l => contains "Location longitude" (str_of_bytes l) = false) lines ->
  (forall fuel lat lon w, lat = None \/ lon = None ->
     scan_location fuel [] lat lon w = (OutOfFuel, w)) /\
  (forall fuel w, spins_or_misreads lines (scan_location fuel lines None None w).1) /\
  ((forall l e, l ∈ lines -> parse_coordinate (str_of_bytes l) <> Raise e) ->
   forall fuel w, (scan_location fuel lines None None w).1 = OutOfFuel) /\
  (forall fuel ifile w v,
     fs w !! ifile = Some (TextFile lines) -> (_read_pandora fuel ifile w).1 <> Ok v).
Proof.
  intros Hmiss.
  assert (Hscan : forall fuel w,
            spins_or_misreads lines (scan_location fuel lines None None w).1).
  { intros fuel w. destruct Hmiss as [Hlat|Hlon].
    - now apply scan_without_latitude.
    - now apply scan_without_longitude. }
  split; [|split; [|split]].
  - intros fuel lat lon w. apply scan_at_end_of_file.
  - exact Hscan.
  - intros Hreads fuel w. specialize (Hscan fuel w).
    destruct (scan_location fuel lines None None w) as [[ll|e|] w2]; simpl in *.
    + contradiction.
    + destruct Hscan as (l & Hl & Hp). now apply Hreads in Hp.
    + reflexivity.
  - intros fuel ifile w v Hfile. unfold _read_pandora. mrun. rewrite Hfile. simpl.
    destruct (pd_read_csv lines 93) as [rows|e|]; simpl; try discriminate.
    destruct (parse_rows rows) as [[|r tmp]|e|]; simpl; try discriminate.
    match goal with
    | |- context [scan_location fuel lines None None ?w0] =>
        specialize (Hscan fuel w0); destruct (scan_location fuel lines None None w0) as [[ll|e|] w2]
    end; simpl in *; try discriminate. contradiction.
Qed.

End Scan.

Lemma C6_missing_label_never_ends_witness :
  (forall fuel v,
     (_read_pandora (lib := Examples.toy_library) fuel Examples.site_obs
        Examples.world_without_longitude).1 <> Ok v) /\
  (_read_pandora (lib := Examples.toy_library) 200 Examples.site_obs
     Examples.world_without_longitude).1 = OutOfFuel /\
  (main (lib := Examples.toy_library) 200 Examples.site_args
     Examples.world_without_longitude).1 = OutOfFuel.
Proof.
  split; [|split].
  - intros fuel v.
    apply (C6_missing_label_never_ends (lib := Examples.toy_library)
             (Examples.obs_lines [Examples.latitude_line]
                [Examples.record_2019; Examples.record_2020])).
    + right. apply Forall_absent. vm_compute. reflexivity.
    + vm_compute. reflexivity.
  - vm_compute. reflexivity.
  - vm_compute. reflexivity.
Defined.

(** * Further properties *)

(** ** The integration loop *)

Section LoopTermination.
Import Integration Layers.
Local Open Scope Q_scope.

Variable p : profile.
Variable H : Q.

(** More fuel than the loop needs changes nothing. *)
Lemma while_more_fuel fuel extra st :
  while_inML p H fuel st <> OutOfFuel ->
  while_inML p H (fuel + extra) st = while_inML p H fuel st.
Proof.
  revert st. induction fuel as [|fuel IH]; intros st; simpl.
  - destruct (inML st) eqn:E; [congruence|]. intros _.
    destruct extra; simpl; rewrite E; reflexivity.
  - destruct (inML st); [|reflexivity].
    destruct (loop_body p H st) as [st'| |]; simpl; try reflexivity. apply IH.
Qed.

(** Where a loop that returns has stopped. *)
Lemma while_returns fuel st st' :
  while_inML p H fuel st = Ok st' ->
  inML st' = false /\
  (inML st = true -> (iL st < iL st' < length (zl p))%nat).
Proof.
  revert st. induction fuel as [|fuel IH]; intros st; simpl.
  - destruct (inML st) eqn:E; [discriminate|]. intros [= <-]. split; [assumption|discriminate].
  - destruct (inML st) eqn:E; [|intros [= <-]; split; [assumption|discriminate]].
    destruct (loop_body p H st) as [st1| |] eqn:Hb; simpl; try discriminate.
    intros Hrun. destruct (IH _ Hrun) as [Hstop Hnext]. split; [assumption|]. intros _.
    destruct (loop_body_inv _ _ _ _ Hb) as (t & Ht & _ & Hi & _).
    apply layer_top_lt in Ht.
    destruct (inML st1) eqn:E1.
    + specialize (Hnext eq_refl). lia.
    + destruct fuel; simpl in Hrun; rewrite E1 in Hrun; injection Hrun as <-; lia.
Qed.

Lemma while_raises fuel st e :
  while_inML p H fuel st = Raise e -> e = IndexError.
Proof.
  revert st. induction fuel as [|fuel IH]; intros st; simpl.
  - destruct (inML st); discriminate.
  - destruct (inML st); [|discriminate].
    destruct (loop_body_fails p H st) as [[st1 Hb]|Hb]; rewrite Hb; simpl.
    + apply IH.
    + now intros [= <-].
Qed.

(** X1.  The integration loop always ends, after at most [len(zl) - 1]
    completed passes: it either returns, with [inML] false, between one and
    [len(zl) - 1] layers consumed and nothing printed, or raises
    [IndexError]; no other exception leaves it, and any larger bound on the
    number of passes gives the same result. *)
Theorem X1_integration_loop_ends (fuel : nat) :
  (length (zl p) < fuel)%nat ->
  while_inML p H fuel loop_init = integrate p H /\
  integrate p H <> OutOfFuel /\
  (forall st, integrate p H = Ok st ->
     inML st = false /\ (1 <= iL st < length (zl p))%nat /\ out st = []) /\
  (forall e, integrate p H = Raise e -> e = IndexError).
Proof.
  intros Hfuel. split; [|split; [|split]].
  - replace fuel with (S (length (zl p)) + (fuel - S (length (zl p))))%nat by lia.
    apply while_more_fuel, integrate_terminates.
  - apply integrate_terminates.
  - intros st Hrun. destruct (while_returns _ _ _ Hrun) as [Hstop Hi].
    specialize (Hi eq_refl). simpl in Hi. repeat split; try assumption; try lia.
    now apply while_prints_nothing in Hrun.
  - intros e. apply while_raises.
Qed.

End LoopTermination.

Lemma X1_integration_loop_ends_witness :
  Integration.while_inML (Examples.three_levels 0) 25 1000 Integration.loop_init
  = Integration.integrate (Examples.three_levels 0) 25.
Proof.
  apply (X1_integration_loop_ends (Examples.three_levels 0) 25 1000). simpl. lia.
Defined.

Section Scaling.
Import Integration Layers.
Local Open Scope Q_scope.

Variable p : profile.
Variable H k : Q.

Lemma loop_body_scaled st st' :
  scaled k st st' ->
  match loop_body p H st, loop_body (scale_no2 k p) H st' with
  | Ok s, Ok s' => scaled k s s'
  | Raise e, Raise e' => e = e'
  | OutOfFuel, OutOfFuel => True
  | _, _ => False
  end.
Proof.
  intros (Hin & Hi & Hf & Ho & Hc).
  unfold loop_body. simpl. rewrite Hi, Hin, Ho.
  unfold getitem. rewrite list_lookup_fmap.
  destruct (zl p !! iL st) as [z0|]; simpl; [|reflexivity].
  destruct (zl p !! (iL st + 1)%nat) as [z1|]; simpl; [|reflexivity].
  set (fr := (if Qlt_bool H ((z0 + z1) / 2)
              then both ← (if (0 <? iL st)%nat
                           then zm ← match zl p !! (iL st - 1)%nat with
                                     | Some v => Ok v
                                     | None => Raise IndexError
                                     end; Ok ((z0 + zm) / 2)
                           else Ok 0);
                   Ok ((H - both) / ((z0 + z1) / 2 - both))
              else Ok 1)).
  destruct fr as [f| |]; simpl; try reflexivity.
  destruct (no2 p !! iL st) as [x|]; simpl; [|reflexivity].
  destruct (delp p !! iL st) as [dp|]; simpl; [|reflexivity].
  destruct (q p !! iL st) as [qi|]; simpl; [|reflexivity].
  repeat split; simpl. rewrite Hc. ring.
Qed.

Lemma while_scaled fuel st st' :
  scaled k st st' ->
  match while_inML p H fuel st, while_inML (scale_no2 k p) H fuel st' with
  | Ok s, Ok s' => scaled k s s'
  | Raise e, Raise e' => e = e'
  | OutOfFuel, OutOfFuel => True
  | _, _ => False
  end.
Proof.
  revert st st'. induction fuel as [|fuel IH]; intros st st' Hs; simpl.
  - pose proof Hs as (Hin & _). rewrite Hin.
    destruct (inML st); [exact I | exact Hs].
  - pose proof Hs as (Hin & _). rewrite Hin.
    destruct (inML st); [|exact Hs].
    pose proof (loop_body_scaled st st' Hs) as Hb.
    destruct (loop_body p H st) as [s| |], (loop_body (scale_no2 k p) H st') as [s'| |];
      simpl; try contradiction; try assumption.
    now apply IH.
Qed.

(** X2.  The column is linear in the mixing ratio: with every [no2[i]]
    multiplied by [k] the loop takes the same passes, stops on the same
    layer with the same [frac] (or fails in the same way), and returns [k]
    times the column. *)
Theorem X2_column_scales_with_mixing_ratio :
  match integrate p H, integrate (scale_no2 k p) H with
  | Ok st, Ok st' =>
      iL st' = iL st /\ frac st' = frac st /\ l1col st' == k * l1col st
  | Raise e, Raise e' => e = e'
  | OutOfFuel, OutOfFuel => True
  | _, _ => False
  end.
Proof.
  unfold integrate. change (zl (scale_no2 k p)) with (zl p).
  assert (Hinit : scaled k loop_init loop_init).
  { unfold scaled. simpl. repeat split. ring. }
  pose proof (while_scaled (S (length (zl p))) loop_init loop_init Hinit) as Hw.
  destruct (while_inML p H (S (length (zl p))) loop_init) as [s| |],
           (while_inML (scale_no2 k p) H (S (length (zl p))) loop_init) as [s'| |];
    try exact Hw.
  destruct Hw as (_ & Hi & Hf & _ & Hc). cbv beta iota.
  split; [exact Hi | split; [exact Hf | exact Hc]].
Qed.

End Scaling.

(** ** What [_match_cf] prints and opens *)

Lemma bind_Ok_inv {A B} (m : M A) (k : A -> M B) w b w' :
  (m ≫= k) w = (Ok b, w') -> exists a w1, m w = (Ok a, w1) /\ k a w1 = (Ok b, w').
Proof.
  unfold mbind, M_bind. destruct (m w) as [[a|e|] w1]; try discriminate. eauto.
Qed.

Lemma emits_weaken {A} (P P' : event -> Prop) (m : M A) :
  (forall e, P e -> P' e) -> emits_only P m -> emits_only P' m.
Proof.
  intros Himp Hm w. destruct (Hm w) as (es & Hlog & Hes).
  exists es. split; [assumption|]. eapply Forall_impl; eauto.
Qed.

Lemma emits_silent {A} (P : event -> Prop) (m : M A) :
  (forall w, log (m w).2 = log w) -> emits_only P m.
Proof. intros Hm w. exists []. rewrite Hm, app_nil_r. split; [reflexivity | constructor]. Qed.

Lemma emits_bind {A B} (P : event -> Prop) (m : M A) (k : A -> M B) :
  emits_only P m -> (forall a, emits_only P (k a)) -> emits_only P (m ≫= k).
Proof.
  intros Hm Hk w. unfold mbind, M_bind. destruct (Hm w) as (es & Hlog & Hes).
  destruct (m w) as [[a|e|] w1]; simpl in *; eauto.
  destruct (Hk a w1) as (es' & Hlog' & Hes').
  exists (es ++ es'). rewrite Hlog', Hlog, app_assoc. split; [reflexivity|].
  now apply Forall_app.
Qed.

Lemma emits_emit (P : event -> Prop) e : P e -> emits_only P (emit e).
Proof. intros He w. exists [e]. split; [reflexivity | now constructor]. Qed.

Lemma emits_lookup_cache P col path : emits_only P (lookup_cache col path).
Proof. apply emits_silent. intros w. now rewrite lookup_cache_spec. Qed.

Ltac emits_step :=
  first
    [ apply emits_bind; [|intros]
    | apply emits_emit
    | apply emits_lookup_cache
    | apply emits_silent; intros; reflexivity
    | match goal with
      | |- emits_only _ (match ?x with _ => _ end) => destruct x
      | |- emits_only _ (if ?b then _ else _) => destruct b
      end ].

Lemma emits_open_dataset (P : event -> Prop) path :
  P (OpenDataset path) -> emits_only P (open_dataset path).
Proof. intros HP. unfold open_dataset. repeat emits_step; assumption. Qed.

Lemma emits_read_collection (P : event -> Prop) col path :
  P (PrintReading path) -> P (OpenDataset path) -> emits_only P (read_collection col path).
Proof.
  intros HP1 HP2. unfold read_collection.
  apply emits_bind; [now apply emits_emit | intros _].
  apply emits_bind; [now apply emits_open_dataset | intros ds].
  repeat emits_step.
Qed.

Lemma emits_resolve (P : event -> Prop) col path :
  P (PrintReading path) -> P (OpenDataset path) -> emits_only P (resolve col path).
Proof.
  intros HP1 HP2. unfold resolve.
  apply emits_bind; [apply emits_lookup_cache | intros [ds|]].
  - repeat emits_step.
  - now apply emits_read_collection.
Qed.

Section MatchEvents.
Context {lib : Library}.

Lemma emits_derive P row lat lon dsc dsm dsp :
  emits_only P (derive row lat lon dsc dsm dsp).
Proof. apply emits_silent. intros w. now rewrite derive_world. Qed.

(** The events of [_match_cf] concern its three paths only. *)
Lemma match_cf_emits (a : args) (row : obs) (lat lon : Q) :
  let hourly := py_strftime (round_H (date row)) (cf_template a) in
  let ifilec := replace "<col>" "chm" hourly in
  let ifilem := replace "<col>" "met" hourly in
  let ifilep := py_strftime (date row) (pbl_template a) in
  emits_only (fun e => e ∈ [PrintFileNotFound ifilec;
                            PrintReading ifilec; OpenDataset ifilec;
                            PrintReading ifilem; OpenDataset ifilem;
                            PrintReading ifilep; OpenDataset ifilep])
    (_match_cf a row lat lon).
Proof.
  intros hourly ifilec ifilem ifilep.
  unfold _match_cf. fold hourly ifilec ifilem ifilep.
  set (P := fun e => e ∈ [PrintFileNotFound ifilec;
                          PrintReading ifilec; OpenDataset ifilec;
                          PrintReading ifilem; OpenDataset ifilem;
                          PrintReading ifilep; OpenDataset ifilep]).
  assert (Hrest : forall dsc,
            emits_only P
              (resolve "met" ifilem ≫= fun dm =>
               resolve "pbl" ifilep ≫= fun dp => derive row lat lon dsc dm dp)).
  { intros dsc.
    apply emits_bind; [apply emits_resolve; subst P; set_solver | intros dm].
    apply emits_bind; [apply emits_resolve; subst P; set_solver | intros dp].
    apply emits_derive. }
  apply emits_bind; [apply emits_lookup_cache | intros [dsc|]].
  - apply Hrest.
  - apply emits_bind; [apply emits_silent; reflexivity | intros found].
    destruct (negb found).
    + apply emits_bind; [apply emits_emit; subst P; set_solver | intros _].
      apply emits_silent. reflexivity.
    + apply emits_bind; [apply emits_read_collection; subst P; set_solver | intros dsc].
      apply Hrest.
Qed.

(** X3.  Whatever its outcome, [_match_cf] leaves every file and the clock
    as they are, and everything it prints or opens concerns one of the three
    paths it has formatted: the warning for the chemistry path, and a
    reading message and an [open_dataset] for each path.  It opens no other
    file and prints nothing else. *)
Theorem X3_match_cf_touches_three_paths (a : args) (row : obs) (lat lon : Q) (w : world) :
  let hourly := py_strftime (round_H (date row)) (cf_template a) in
  let ifilec := replace "<col>" "chm" hourly in
  let ifilem := replace "<col>" "met" hourly in
  let ifilep := py_strftime (date row) (pbl_template a) in
  fs (_match_cf a row lat lon w).2 = fs w /\
  clock (_match_cf a row lat lon w).2 = clock w /\
  exists es,
    log (_match_cf a row lat lon w).2 = log w ++ es /\
    Forall (fun e => e ∈ [PrintFileNotFound ifilec;
                          PrintReading ifilec; OpenDataset ifilec;
                          PrintReading ifilem; OpenDataset ifilem;
                          PrintReading ifilep; OpenDataset ifilep]) es.
Proof.
  intros hourly ifilec ifilem ifilep.
  destruct (keeps_match_cf a row lat lon w) as [Hfs Hck].
  split; [assumption|]. split; [assumption|].
  apply (match_cf_emits a row lat lon w).
Qed.

Lemma emits_match_cf_no_warning a row lat lon :
  emits_only (fun e => forall h, e <> PrintAboveAtmosphere h) (_match_cf a row lat lon).
Proof.
  eapply emits_weaken; [|apply match_cf_emits]. cbv beta.
  intros e He h ->.
  repeat (apply elem_of_cons in He as [He|He]; [discriminate|]).
  now apply elem_of_nil in He.
Qed.

Lemma emits_match_rows_no_warning a lat lon pand :
  emits_only (fun e => forall h, e <> PrintAboveAtmosphere h) (match_rows a lat lon pand).
Proof.
  induction pand as [|row pand IH]; simpl.
  - apply emits_silent. reflexivity.
  - apply emits_bind; [apply emits_match_cf_no_warning | intros v].
    apply emits_bind; [apply IH | intros ms]. apply emits_silent. reflexivity.
Qed.

Lemma emits_scan_location_no_warning fuel f lat lon :
  emits_only (fun e => forall h, e <> PrintAboveAtmosphere h) (scan_location fuel f lat lon).
Proof.
  revert f lat lon. induction fuel as [|fuel IH]; intros f lat lon; simpl.
  - destruct lat, lon; apply emits_silent; reflexivity.
  - destruct lat, lon, (readline f);
      try (apply emits_silent; reflexivity);
      repeat (first [ apply IH | emits_step ]; try (intros h; discriminate)).
Qed.

Lemma emits_read_pandora_no_warning fuel ifile :
  emits_only (fun e => forall h, e <> PrintAboveAtmosphere h) (_read_pandora fuel ifile).
Proof.
  unfold _read_pandora.
  repeat (first [ apply emits_scan_location_no_warning | emits_step ];
          try (intros h; discriminate)).
Qed.

Lemma emits_merge_no_warning fuel a ifile ofile :
  emits_only (fun e => forall h, e <> PrintAboveAtmosphere h) (merge fuel a ifile ofile).
Proof.
  unfold merge.
  apply emits_bind; [apply emits_read_pandora_no_warning | intros [[pand lat] lon]].
  apply emits_bind; [apply emits_silent; reflexivity | intros now].
  apply emits_bind; [apply emits_silent; reflexivity | intros _].
  apply emits_bind; [apply emits_match_rows_no_warning | intros rows].
  apply emits_bind; [|intros _; apply emits_emit; intros h; discriminate].
  intros w. exists [WriteCsv ofile]. split; [reflexivity|].
  constructor; [intros h; discriminate | constructor].
Qed.

(** X4.  No run of [main] prints the warning that the layer height is
    greater than the entire atmosphere: whatever the files, the arguments
    and the outcome, that message is not among the events the run adds. *)
Theorem X4_atmosphere_warning_is_never_printed (fuel : nat) (a : args) (w : world) :
  exists es,
    log (main fuel a w).2 = log w ++ es /\
    Forall (fun e => forall h, e <> PrintAboveAtmosphere h) es.
Proof.
  revert w.
  change (emits_only (fun e => forall h, e <> PrintAboveAtmosphere h) (main fuel a)).
  unfold main, basename_of, load_locations.
  repeat (first [ apply emits_merge_no_warning | emits_step ];
          try (intros h; discriminate)).
Qed.

End MatchEvents.

(** ** The cache and the values of [_match_cf] *)

Lemma sel_surface_raises d lon lat name e :
  sel_surface d lon lat name = Raise e -> e = KeyError name \/ e = ValueError.
Proof.
  unfold sel_surface. destruct (sel_nearest d lon lat !! name) as [[v|vs]|];
    intros [= <-]; auto.
Qed.

Lemma sel_levels_raises d lon lat name e :
  sel_levels d lon lat name = Raise e -> e = KeyError name \/ e = IndexError.
Proof.
  unfold sel_levels. destruct (sel_nearest d lon lat !! name) as [[v|vs]|];
    intros [= <-]; auto.
Qed.

Lemma getlast_raises {A} (l : list A) e : getlast l = Raise e -> e = IndexError.
Proof. unfold getlast. destruct (last l); now intros [= <-]. Qed.

Lemma getitem_raises {A} (l : list A) i e : getitem l i = Raise e -> e = IndexError.
Proof. unfold getitem. destruct (l !! i); now intros [= <-]. Qed.

Lemma cached_as_consistent col path ds w :
  cache_consistent w -> cache_consistent (cached_as col path ds w).
Proof.
  intros Hc col'. simpl. destruct (decide (col = col')) as [->|Hne].
  - rewrite !lookup_insert_eq. eauto.
  - rewrite !lookup_insert_ne by assumption. apply Hc.
Qed.

Lemma safe_bind {A B} (m : M A) (k : A -> M B) :
  cache_safe m -> (forall a, cache_safe (k a)) -> cache_safe (m ≫= k).
Proof.
  intros Hm Hk w Hw. unfold mbind, M_bind. destruct (Hm w Hw) as [Hw1 Hkey].
  destruct (m w) as [[a|e|] w1]; simpl in *.
  - now apply Hk.
  - split; [assumption | intros key [= ->]; now apply Hkey].
  - split; [assumption | discriminate].
Qed.

(** A step that changes neither [fnl] nor [dsl] and raises no [KeyError]. *)
Lemma safe_step {A} (m : M A) :
  (forall w, fnl (m w).2 = fnl w /\ dsl (m w).2 = dsl w) ->
  (forall w key, (m w).1 = Raise (KeyError key) -> key ∈ model_variables) ->
  cache_safe m.
Proof.
  intros Hsame Hkey w Hw. split; [|apply Hkey].
  intros col. destruct (Hsame w) as [-> ->]. apply Hw.
Qed.

Lemma safe_lookup_cache col path : cache_safe (lookup_cache col path).
Proof.
  intros w Hw. unfold lookup_cache.
  destruct (fnl w !! col) as [cur|] eqn:Ef; [|split; [assumption | discriminate]].
  destruct (String.eqb cur path); [|split; [assumption | discriminate]].
  destruct (Hw col) as [ds Hds]; [rewrite Ef; eauto|]. rewrite Hds.
  split; [assumption | discriminate].
Qed.

Lemma safe_open_dataset path : cache_safe (open_dataset path).
Proof.
  apply safe_step; intros w; unfold open_dataset; mrun;
    destruct (fs w !! path) as [[ls|urls|d|rows]|]; simpl; try done.
Qed.

Lemma safe_store_cache col path ds : cache_safe (store_cache col path ds).
Proof.
  intros w Hw. split; [now apply cached_as_consistent | discriminate].
Qed.

Lemma safe_read_collection col path : cache_safe (read_collection col path).
Proof.
  unfold read_collection.
  apply safe_bind; [apply safe_step; [now intros w | discriminate] | intros _].
  apply safe_bind; [apply safe_open_dataset | intros ds].
  apply safe_bind; [apply safe_store_cache | intros _].
  apply safe_step; [now intros w | discriminate].
Qed.

Lemma safe_resolve col path : cache_safe (resolve col path).
Proof.
  unfold resolve. apply safe_bind; [apply safe_lookup_cache | intros [ds|]].
  - apply safe_step; [now intros w | discriminate].
  - apply safe_read_collection.
Qed.

Section CacheInvariant.
Context {lib : Library}.

Lemma derive_KeyError row lat lon dsc dsm dsp w key :
  (derive row lat lon dsc dsm dsp w).1 = Raise (KeyError key) ->
  key ∈ model_variables.
Proof.
  unfold derive, model_variables. mrun.
  repeat match goal with
         | |- context [match ?x with _ => _ end] =>
             lazymatch x with
             | context [match _ with _ => _ end] => fail
             | _ => destruct x eqn:?; simpl; try discriminate
             end
         end.
  all: try match goal with
           | Hrun : Integration.integrate _ _ = Ok _ |- _ =>
               apply while_prints_nothing in Hrun; simpl in Hrun; rewrite Hrun in *;
               simpl in *; congruence
           end.
  all: intros [= ->].
  all: repeat match goal with
           | Hs : sel_surface _ _ _ _ = Raise _ |- _ =>
               apply sel_surface_raises in Hs as [Hs|Hs]; [injection Hs as <-|discriminate]
           | Hs : sel_levels _ _ _ _ = Raise _ |- _ =>
               apply sel_levels_raises in Hs as [Hs|Hs]; [injection Hs as <-|discriminate]
           | Hs : getlast _ = Raise _ |- _ => apply getlast_raises in Hs; discriminate
           | Hs : getitem _ _ = Raise _ |- _ => apply getitem_raises in Hs; discriminate
           | Hs : Integration.integrate _ _ = Raise _ |- _ =>
               unfold Integration.integrate in Hs; apply while_raises in Hs; discriminate
           end.
  all: rewrite !elem_of_cons; tauto.
Qed.

Lemma safe_derive row lat lon dsc dsm dsp : cache_safe (derive row lat lon dsc dsm dsp).
Proof.
  apply safe_step.
  - intros w. now rewrite derive_world.
  - intros w key. apply derive_KeyError.
Qed.

Lemma safe_match_cf a row lat lon : cache_safe (_match_cf a row lat lon).
Proof.
  unfold _match_cf.
  apply safe_bind; [apply safe_lookup_cache | intros [dsc|]].
  - repeat (apply safe_bind; [apply safe_resolve | intros ?]). apply safe_derive.
  - apply safe_bind; [apply safe_step; [now intros w | discriminate] | intros found].
    destruct (negb found).
    + apply safe_bind; [apply safe_step; [now intros w | discriminate] | intros _].
      apply safe_step; [now intros w | discriminate].
    + apply safe_bind; [apply safe_read_collection | intros dsc].
      repeat (apply safe_bind; [apply safe_resolve | intros ?]). apply safe_derive.
Qed.

(** X5.  When every collection with a cached path has a cached dataset, as
    with the two empty dicts [main] starts from, this is still so after
    [_match_cf] and after the whole loop over the records, whatever their
    outcome; and a [KeyError] out of them always names a variable that a
    model file lacks, never a slot of the cache. *)
Theorem X5_cache_slots_are_never_missing (a : args) (lat lon : Q) (pand : list obs)
    (w : world) :
  cache_consistent w ->
  (forall row,
     cache_consistent (_match_cf a row lat lon w).2 /\
     forall key, (_match_cf a row lat lon w).1 = Raise (KeyError key) ->
                 key ∈ model_variables) /\
  cache_consistent (match_rows a lat lon pand w).2 /\
  (forall key, (match_rows a lat lon pand w).1 = Raise (KeyError key) ->
               key ∈ model_variables).
Proof.
  intros Hw. split; [intros row; now apply safe_match_cf|].
  revert w Hw. change (cache_safe (match_rows a lat lon pand)).
  induction pand as [|row pand IH]; simpl.
  - apply safe_step; [now intros w | discriminate].
  - apply safe_bind; [apply safe_match_cf | intros v].
    apply safe_bind; [apply IH | intros ms].
    apply safe_step; [now intros w | discriminate].
Qed.

Lemma derive_fin row lat lon dsc dsm dsp w v w' :
  derive row lat lon dsc dsm dsp w = (Ok v, w') -> all_fin v.
Proof.
  unfold derive, all_fin. mrun.
  repeat match goal with
         | |- context [match ?x with _ => _ end] =>
             lazymatch x with
             | context [match _ with _ => _ end] => fail
             | _ => destruct x eqn:?; simpl; try discriminate
             end
         end.
  all: intros [= <- <-]; repeat eexists.
Qed.

Lemma match_cf_chm_missing a row lat lon w :
  let ifilec := replace "<col>" "chm" (py_strftime (round_H (date row)) (cf_template a)) in
  is_cached "chm" ifilec w = false ->
  fs w !! ifilec = None ->
  _match_cf a row lat lon w = (Ok nan_values, logged [PrintFileNotFound ifilec] w).
Proof.
  intros ifilec Hc Hf. unfold _match_cf. fold ifilec.
  unfold mbind at 1. unfold M_bind. rewrite lookup_cache_spec, Hc.
  now rewrite (bind_Ok _ _ _ _ _ (isfile_absent ifilec w Hf)).
Qed.

(** With the chemistry collection at hand, a call that returns gives five
    numbers. *)
Lemma match_cf_with_chm (a : args) (row : obs) (lat lon : Q) (w w' : world)
    (v : cf_values) :
  let ifilec := replace "<col>" "chm" (py_strftime (round_H (date row)) (cf_template a)) in
  is_cached "chm" ifilec w = true \/ is_Some (fs w !! ifilec) ->
  _match_cf a row lat lon w = (Ok v, w') ->
  all_fin v.
Proof.
  intros ifilec Hthere Hrun.
  assert (Hrest : forall dsc w1,
            (resolve "met"
               (replace "<col>" "met" (py_strftime (round_H (date row)) (cf_template a)))
             ≫= fun dm =>
             resolve "pbl" (py_strftime (date row) (pbl_template a)) ≫= fun dp =>
             derive row lat lon dsc dm dp) w1 = (Ok v, w') -> all_fin v).
  { intros dsc w1 Hr.
    apply bind_Ok_inv in Hr as (dm & w2 & _ & Hr).
    apply bind_Ok_inv in Hr as (dp & w3 & _ & Hr).
    now apply derive_fin in Hr. }
  unfold _match_cf in Hrun. fold ifilec in Hrun.
  unfold mbind at 1 in Hrun. unfold M_bind in Hrun.
  rewrite lookup_cache_spec in Hrun.
  destruct (is_cached "chm" ifilec w) eqn:Hc.
  - destruct (dsl w !! "chm") as [dsc|]; [|discriminate].
    now apply Hrest in Hrun.
  - destruct Hthere as [?|Hf]; [discriminate|].
    rewrite (bind_Ok _ _ _ _ _ (isfile_there ifilec w Hf)) in Hrun.
    simpl in Hrun.
    apply bind_Ok_inv in Hrun as (dsc & w1 & _ & Hrun).
    now apply Hrest in Hrun.
Qed.

Lemma match_cf_all_or_none (a : args) (row : obs) (lat lon : Q) (w w' : world)
    (v : cf_values) :
  let ifilec := replace "<col>" "chm" (py_strftime (round_H (date row)) (cf_template a)) in
  _match_cf a row lat lon w = (Ok v, w') ->
  v = nan_values \/
  (all_fin v /\ (is_cached "chm" ifilec w = true \/ is_Some (fs w !! ifilec))).
Proof.
  intros ifilec Hrun.
  destruct (is_cached "chm" ifilec w) eqn:Hc;
    [|destruct (fs w !! ifilec) as [f|] eqn:Hf].
  - right. split; [|now left].
    apply (match_cf_with_chm a row lat lon w w' v); [left; exact Hc | exact Hrun].
  - right. split; [|right; eauto].
    apply (match_cf_with_chm a row lat lon w w' v); [|exact Hrun].
    right. fold ifilec. rewrite Hf. eauto.
  - left. rewrite (match_cf_chm_missing a row lat lon w Hc Hf) in Hrun. congruence.
Qed.

End CacheInvariant.

Lemma X5_cache_slots_are_never_missing_witness :
  cache_consistent
    (match_rows (lib := Examples.toy_library) Examples.site_args 39 (-77)
       [Obs 1600000000000000000 10 7 1 5] Examples.site_world).2.
Proof.
  apply (X5_cache_slots_are_never_missing (lib := Examples.toy_library) Examples.site_args
           39 (-77) [Obs 1600000000000000000 10 7 1 5] Examples.site_world).
  intros col. simpl. rewrite lookup_empty. now intros [? ?].
Defined.

(** ** The rows and the files of a run of [main] *)

Section Rows.
Context {lib : Library}.

(** What a normal end of the second half of [main] has done. *)
Lemma merge_rows fuel a ifile ofile w w1 :
  merge fuel a ifile ofile w = (Ok tt, w1) ->
  exists pand lat lon w0 rows w2,
    _read_pandora fuel ifile w = (Ok (pand, lat, lon), w0) /\
    match_rows a lat lon (filter (fun r => in_window (maxdate_of (clock w)) r) pand)
      {| fs := fs w0; clock := clock w0; log := log w0; fnl := ∅; dsl := ∅ |}
    = (Ok rows, w2) /\
    w1 = logged [PrintWritten ofile] (written ofile rows w2).
Proof.
  unfold merge. intros Hrun.
  destruct (keeps_read_pandora fuel ifile w) as [_ Hck0].
  apply bind_Ok_inv in Hrun as ([[pand lat] lon] & w0 & Hr & Hrun).
  rewrite Hr in Hck0. simpl in Hck0.
  unfold mbind, M_bind, today, new_dicts in Hrun. simpl in Hrun.
  destruct (match_rows a lat lon _ _) as [[rows|e|] w2] eqn:Hm; simpl in *; try discriminate.
  injection Hrun as <-. exists pand, lat, lon, w0, rows, w2.
  split; [exact Hr|]. split; [|reflexivity]. rewrite <- Hck0. exact Hm.
Qed.

(** X7.  A table that [main] has written closes a normal run, and every
    row of it carries the one latitude and the one longitude that
    [_read_pandora] has read from the observation file. *)
Theorem X7_written_rows_carry_the_station (fuel : nat) (a : args) (w w1 : world)
    (o : outcome unit) (basename : string) (rows : list merged) :
  basename_of a w = (Ok basename, w) ->
  fs w !! ofile_of basename = None ->
  main fuel a w = (o, w1) ->
  fs w1 !! ofile_of basename = Some (CsvFile rows) ->
  o = Ok tt /\
  exists pand lat lon w0,
    _read_pandora fuel (ifile_of basename) w = (Ok (pand, lat, lon), w0) /\
    length rows = length (filter (fun r => in_window (maxdate_of (clock w)) r) pand) /\
    Forall (fun m => m_lat m = lat /\ m_lon m = lon) rows.
Proof.
  intros Hb Hout Hrun Hrows.
  destruct (fs w !! ifile_of basename) as [f|] eqn:Hobs.
  - rewrite (main_merges fuel a w basename) in Hrun; try (rewrite ?Hobs; eauto).
    destruct (merge_outcome _ _ _ _ _ _ _ Hrun) as [[_ Hfs]|[-> _]].
    + rewrite Hfs in Hrows. congruence.
    + split; [reflexivity|].
      apply merge_rows in Hrun as (pand & lat & lon & w0 & rows' & w2 & Hread & Hm & ->).
      simpl in Hrows. rewrite lookup_insert_eq in Hrows. injection Hrows as <-.
      exists pand, lat, lon, w0. split; [assumption|].
      destruct (match_rows_obs _ _ _ _ _ _ _ Hm) as [Hobs' Hll].
      split; [|assumption]. rewrite <- Hobs'. now rewrite length_map.
  - rewrite (main_obs_missing fuel a w basename) in Hrun by assumption.
    injection Hrun as <- <-. simpl in Hrows. congruence.
Qed.

(** X8.  [main] never touches a file that exists, and creates at most
    one: whatever the outcome, the files afterwards are those before, or
    those before with the output table added under a name that was free,
    and then the run ended normally.  The clock is not changed. *)
Theorem X8_main_creates_at_most_the_output (fuel : nat) (a : args) (w : world) :
  (forall path f, fs w !! path = Some f -> fs (main fuel a w).2 !! path = Some f) /\
  (fs (main fuel a w).2 = fs w \/
   exists basename rows,
     basename_of a w = (Ok basename, w) /\
     fs w !! ofile_of basename = None /\
     (main fuel a w).1 = Ok tt /\
     fs (main fuel a w).2 = <[ofile_of basename := CsvFile rows]> (fs w)).
Proof.
  assert (Hcases : fs (main fuel a w).2 = fs w \/
            exists basename rows,
              basename_of a w = (Ok basename, w) /\
              fs w !! ofile_of basename = None /\
              (main fuel a w).1 = Ok tt /\
              fs (main fuel a w).2 = <[ofile_of basename := CsvFile rows]> (fs w)).
  { destruct (basename_of_reads a w) as (o & Ho & _).
    destruct o as [basename|e'|].
    - destruct (fs w !! ifile_of basename) as [f|] eqn:Hobs.
      + destruct (fs w !! ofile_of basename) as [g|] eqn:Hout.
        * rewrite (main_output_exists fuel a w basename);
            try (rewrite ?Hobs, ?Hout; eauto).
        * rewrite (main_merges fuel a w basename); try (rewrite ?Hobs; eauto).
          destruct (merge fuel a (ifile_of basename) (ofile_of basename) w) as [o1 w1] eqn:Hrun.
          apply merge_outcome in Hrun
            as [[_ Hfs]|(-> & pand & lat & lon & w0 & rows & _ & Hfs & _)].
          -- now left.
          -- right. exists basename, rows. repeat split; assumption.
      + rewrite (main_obs_missing fuel a w basename) by assumption. now left.
    - left. unfold main. now rewrite (bind_Raise _ _ _ _ _ Ho).
    - left. unfold main. now rewrite (bind_OutOfFuel _ _ _ _ Ho). }
  split; [|exact Hcases].
  intros path f Hf.
  destruct Hcases as [->|(basename & rows & _ & Hfree & _ & ->)]; [assumption|].
  rewrite lookup_insert_ne; [assumption|]. intros <-. congruence.
Qed.

End Rows.

Lemma X7_written_rows_carry_the_station_witness :
  exists rows,
    fs (main (lib := Examples.toy_library) 200 Examples.site_args Examples.site_world).2
      !! Examples.site_out = Some (CsvFile rows) /\
    Forall (fun m => m_lat m = 39%Q /\ m_lon m = (-77)%Q) rows.
Proof.
  eexists. split; [vm_compute; reflexivity|].
  edestruct (X7_written_rows_carry_the_station (lib := Examples.toy_library) 200
               Examples.site_args Examples.site_world
               (main (lib := Examples.toy_library) 200 Examples.site_args Examples.site_world).2
               (main (lib := Examples.toy_library) 200 Examples.site_args Examples.site_world).1
               "Pandora140s1_WashingtonDC_L2_rnvh3p1-8.txt")
    as (_ & pand & lat & lon & w0 & Hread & _ & Hrows).
  - vm_compute. reflexivity.
  - vm_compute. reflexivity.
  - apply surjective_pairing.
  - vm_compute. reflexivity.
  - assert (Hll : match (Ok (pand, lat, lon), w0).1 with
                  | Ok (_, la, lo) => (la, lo)
                  | _ => (0, 0)%Q
                  end = (39, -77)%Q).
    { rewrite <- Hread. vm_compute. reflexivity. }
    simpl in Hll. injection Hll as -> ->. exact Hrows.
Defined.

(** ** [download_all.py] *)

Lemma split_parts c s :
  split c s <> [] /\ Forall (fun part => has_char c part = false) (split c s).
Proof.
  induction s as [|c0 s' [Hne Hall]]; simpl.
  - split; [discriminate | repeat constructor].
  - destruct (Ascii.eqb c0 c) eqn:Ec.
    + split; [discriminate | now constructor].
    + destruct (split c s') as [|part parts]; [contradiction|].
      split; [discriminate|]. inversion Hall; subst.
      constructor; [|assumption]. simpl. now rewrite Ec.
Qed.

(** [url.split('/')[-1]] never fails, and holds no [/]. *)
Lemma last_part c s :
  exists part, last (split c s) = Some part /\ has_char c part = false.
Proof.
  destruct (split_parts c s) as [Hne Hall].
  destruct (last (split c s)) as [part|] eqn:El.
  - exists part. split; [reflexivity|].
    rewrite Forall_forall in Hall. apply Hall.
    rewrite last_Some in El. destruct El as [l' ->]. set_solver.
  - apply last_None in El. contradiction.
Qed.

Section Downloads.
Variable web : string -> fetch.
Variable mkstemp : gmap string file -> string.
Variable can_open : string -> bool.

(** A temporary file gets a name that is not in use. *)
Hypothesis mkstemp_fresh : forall files, files !! mkstemp files = None.

Lemma urlretrieve_spec url ofile w :
  last (split "/" url) = Some ofile ->
  has_char "/" ofile = false ->
  dl_fs w !! ofile = None ->
  (forall p f, dl_fs w !! p = Some f ->
     dl_fs (urlretrieve web mkstemp can_open url ofile w).2 !! p = Some f) /\
  (forall p, dl_fs w !! p = None ->
     is_Some (dl_fs (urlretrieve web mkstemp can_open url ofile w).2 !! p) ->
     fetched_as web mkstemp url p) /\
  (ofile <> EmptyString ->
   settled web can_open (dl_fs (urlretrieve web mkstemp can_open url ofile w).2) url).
Proof.
  intros Hlast Hslash Hfree.
  assert (Hsame : forall files : gmap string file, files = dl_fs w ->
            web url = Refused \/ can_open ofile = false \/ ofile = EmptyString ->
            (forall p f, dl_fs w !! p = Some f -> files !! p = Some f) /\
            (forall p, dl_fs w !! p = None -> is_Some (files !! p) ->
               fetched_as web mkstemp url p) /\
            (ofile <> EmptyString -> settled web can_open files url)).
  { intros files -> Hno. split; [auto|]. split.
    - intros p Hp [f Hf]. congruence.
    - intros Hname ofile'. rewrite Hlast. intros [= <-].
      destruct Hno as [?|[?|?]]; [now right; left | now right; right | contradiction]. }
  assert (Hwritten : forall (files : gmap string file) content,
            web url <> Refused ->
            files = <[destination mkstemp ofile w := TextFile content]> (dl_fs w) ->
            (forall p f, dl_fs w !! p = Some f -> files !! p = Some f) /\
            (forall p, dl_fs w !! p = None -> is_Some (files !! p) ->
               fetched_as web mkstemp url p) /\
            (ofile <> EmptyString -> settled web can_open files url)).
  { intros files content Hweb ->. unfold destination.
    destruct (String.eqb ofile EmptyString) eqn:Hname.
    - apply String.eqb_eq in Hname. subst ofile. split; [|split].
      + intros p f Hp. rewrite lookup_insert_ne; [assumption|].
        intros <-. rewrite mkstemp_fresh in Hp. discriminate.
      + intros p Hp [f Hf]. destruct (decide (mkstemp (dl_fs w) = p)) as [<-|Hne].
        * split; [assumption|]. right. split; [assumption|]. now exists (dl_fs w).
        * rewrite lookup_insert_ne in Hf by assumption. congruence.
      + intros Hname. contradiction.
    - apply String.eqb_neq in Hname. split; [|split].
      + intros p f Hp. rewrite lookup_insert_ne; [assumption | intros <-; congruence].
      + intros p Hp [f Hf]. destruct (decide (ofile = p)) as [<-|Hne].
        * split; [assumption|]. now left.
        * rewrite lookup_insert_ne in Hf by assumption. congruence.
      + intros _ ofile'. rewrite Hlast. intros [= <-].
        left. rewrite lookup_insert_eq. eauto. }
  assert (Hclosed : can_open (destination mkstemp ofile w) = false ->
            web url = Refused \/ can_open ofile = false \/ ofile = EmptyString).
  { unfold destination. destruct (String.eqb ofile EmptyString) eqn:Hname.
    - apply String.eqb_eq in Hname. auto.
    - auto. }
  unfold urlretrieve.
  destruct (web url) as [content|content|content|] eqn:Hweb.
  - destruct (can_open (destination mkstemp ofile w)) eqn:Hopen; simpl.
    + apply (Hwritten _ content); [discriminate | reflexivity].
    + apply Hsame; [reflexivity | now apply Hclosed].
  - destruct (can_open (destination mkstemp ofile w)) eqn:Hopen; simpl.
    + apply (Hwritten _ content); [discriminate | reflexivity].
    + apply Hsame; [reflexivity | now apply Hclosed].
  - destruct (String.eqb ofile EmptyString) eqn:Hname; simpl.
    + apply Hsame; [reflexivity|]. apply String.eqb_eq in Hname. auto.
    + destruct (can_open ofile) eqn:Hopen; simpl.
      * apply (Hwritten _ content); [discriminate|]. unfold destination.
        now rewrite Hname.
      * apply Hsame; [reflexivity | auto].
  - apply Hsame; [reflexivity | auto].
Qed.

(** One entry of the list: it never raises, keeps the files there are, and
    can only add the file of its own address. *)
Lemma download_one_spec l w :
  (download_one web mkstemp can_open l w).1 = Ok tt /\
  (forall p f, dl_fs w !! p = Some f ->
     dl_fs (download_one web mkstemp can_open l w).2 !! p = Some f) /\
  (forall p, dl_fs w !! p = None ->
     is_Some (dl_fs (download_one web mkstemp can_open l w).2 !! p) ->
     exists url, l = Some url /\ fetched_as web mkstemp url p) /\
  (forall url, l = Some url -> last (split "/" url) <> Some EmptyString ->
     settled web can_open (dl_fs (download_one web mkstemp can_open l w).2) url).
Proof.
  destruct l as [url|]; simpl.
  2:{ split; [reflexivity|]. split; [auto|]. split; [|discriminate].
      intros p Hp [f Hf]. congruence. }
  destruct (last_part "/" url) as (ofile & Hlast & Hslash).
  unfold getlast. rewrite Hlast.
  destruct (bool_decide (is_Some (dl_fs w !! ofile))) eqn:Hthere; simpl.
  - apply bool_decide_eq_true in Hthere.
    split; [reflexivity|]. split; [auto|]. split.
    + intros p Hp [f Hf]. congruence.
    + intros url' [= <-] _ ofile'. rewrite Hlast. intros [= <-]. now left.
  - apply bool_decide_eq_false in Hthere.
    assert (Hfree : dl_fs w !! ofile = None).
    { destruct (dl_fs w !! ofile) eqn:E; [|reflexivity]. exfalso. apply Hthere. eauto. }
    destruct (urlretrieve_spec url ofile (dl_print (PrintAttempt url) w) Hlast Hslash Hfree)
      as (Hkeep & Hnew & Hset).
    destruct (urlretrieve web mkstemp can_open url ofile (dl_print (PrintAttempt url) w))
      as [raised w2].
    simpl in Hkeep, Hnew, Hset.
    assert (Hboth : forall files : gmap string file, files = dl_fs w2 ->
              (forall p f, dl_fs w !! p = Some f -> files !! p = Some f) /\
              (forall p, dl_fs w !! p = None -> is_Some (files !! p) ->
                 exists url0, Some url = Some url0 /\ fetched_as web mkstemp url0 p) /\
              (forall url0, Some url = Some url0 ->
                 last (split "/" url0) <> Some EmptyString ->
                 settled web can_open files url0)).
    { intros files ->. split; [exact Hkeep|]. split.
      - intros p Hp Hafter. exists url. split; [reflexivity | now apply Hnew].
      - intros url0 [= <-] Hname. apply Hset. intros ->. now apply Hname. }
    destruct raised; simpl; (split; [reflexivity|]); now apply Hboth.
Qed.

Lemma download_urls_spec urls w :
  (download_urls web mkstemp can_open urls w).1 = Ok tt /\
  (forall p f, dl_fs w !! p = Some f ->
     dl_fs (download_urls web mkstemp can_open urls w).2 !! p = Some f) /\
  (forall p, dl_fs w !! p = None ->
     is_Some (dl_fs (download_urls web mkstemp can_open urls w).2 !! p) ->
     exists url, Some url ∈ urls /\ fetched_as web mkstemp url p) /\
  (forall url, Some url ∈ urls -> last (split "/" url) <> Some EmptyString ->
     settled web can_open (dl_fs (download_urls web mkstemp can_open urls w).2) url).
Proof.
  revert w. induction urls as [|l urls IH]; intros w; simpl.
  - split; [reflexivity|]. split; [auto|]. split.
    + intros p Hp [f Hf]. congruence.
    + intros url Hin. now apply elem_of_nil in Hin.
  - destruct (download_one_spec l w) as (Hok & Hkeep & Hnew & Hset).
    destruct (download_one web mkstemp can_open l w) as [o w1]. simpl in *. subst o.
    destruct (IH w1) as (Hok' & Hkeep' & Hnew' & Hset').
    split; [assumption|]. split; [|split].
    + intros p f Hp. now apply Hkeep', Hkeep.
    + intros p Hp Hafter.
      destruct (dl_fs w1 !! p) as [f|] eqn:Hmid.
      * destruct (Hnew p Hp) as (url & -> & Hf); [eauto|].
        exists url. split; [apply list_elem_of_here | assumption].
      * destruct (Hnew' p Hmid Hafter) as (url & Hin & Hf).
        exists url. split; [now apply list_elem_of_further | assumption].
    + intros url Hin Hname. apply elem_of_cons in Hin as [Heq|Hin]; [|now apply Hset'].
      intros ofile Hl.
      destruct (Hset url (eq_sym Heq) Hname ofile Hl) as [[f Hf]|Hno]; [|now right].
      left. rewrite (Hkeep' _ _ Hf). eauto.
Qed.

(** X16.  Once the list is loaded the downloader never fails, whatever
    the network and the disk do: every failure of a download is caught and
    the loop goes on.  It never touches a file that exists.  A file it
    creates comes from an address of the list that the network answered: it
    is named by the last component of that address, holds no [/] and so lies
    in the current directory; or, for an address that ends with [/] and so
    names no file, it is a temporary file. *)
Theorem X16_downloader_never_fails (urllist : string) (urls : list (option string))
    (w : dl_world) :
  dl_fs w !! urllist = Some (JsonLocations urls) ->
  (download_all web mkstemp can_open urllist w).1 = Ok tt /\
  (forall p f, dl_fs w !! p = Some f ->
     dl_fs (download_all web mkstemp can_open urllist w).2 !! p = Some f) /\
  (forall p, dl_fs w !! p = None ->
     is_Some (dl_fs (download_all web mkstemp can_open urllist w).2 !! p) ->
     exists url, Some url ∈ urls /\ web url <> Refused /\
       ((last (split "/" url) = Some p /\ p <> EmptyString /\ has_char "/" p = false) \/
        (last (split "/" url) = Some EmptyString /\ temporary mkstemp p))).
Proof.
  intros Hlist. unfold download_all. rewrite Hlist.
  destruct (download_urls_spec urls w) as (Hok & Hkeep & Hnew & _).
  split; [assumption|]. split; [assumption|].
  intros p Hp Hafter. destruct (Hnew p Hp Hafter) as (url & Hin & Hweb & Hform).
  exists url. auto.
Qed.

(** Nothing is written when nothing is left to download. *)
Lemma download_urls_settled urls w :
  (forall url, Some url ∈ urls ->
     last (split "/" url) <> Some EmptyString /\ settled web can_open (dl_fs w) url) ->
  dl_fs (download_urls web mkstemp can_open urls w).2 = dl_fs w.
Proof.
  revert w. induction urls as [|l urls IH]; intros w Hset; simpl; [reflexivity|].
  assert (Hone : dl_fs (download_one web mkstemp can_open l w).2 = dl_fs w).
  { destruct l as [url|]; simpl; [|reflexivity].
    destruct (last_part "/" url) as (ofile & Hlast & _).
    unfold getlast. rewrite Hlast.
    destruct (bool_decide (is_Some (dl_fs w !! ofile))) eqn:Hthere; simpl; [reflexivity|].
    apply bool_decide_eq_false in Hthere.
    destruct (Hset url (list_elem_of_here _ _)) as [Hname Hs].
    assert (Hne : String.eqb ofile EmptyString = false).
    { apply String.eqb_neq. intros ->. now apply Hname. }
    destruct (Hs ofile Hlast) as [Hyes|[Hweb|Hopen]]; [contradiction| |];
      unfold urlretrieve, destination; rewrite Hne.
    - now rewrite Hweb.
    - rewrite Hopen. now destruct (web url). }
  destruct (download_one_spec l w) as (Hok & _).
  destruct (download_one web mkstemp can_open l w) as [o w1]. simpl in *. subst o.
  rewrite IH; [assumption|].
  intros url Hin. rewrite Hone. apply Hset. now apply list_elem_of_further.
Qed.

(** X17.  When every address of the list names a file (none ends with
    [/]), a second run over the same list changes no file, provided the
    network and the disk answer as before: what the first run fetched, in
    whole or in part, is skipped as existing, so a download cut short is
    never repeated, and what failed fails again. *)
Theorem X17_second_download_changes_no_file (urllist : string)
    (urls : list (option string)) (w : dl_world) :
  dl_fs w !! urllist = Some (JsonLocations urls) ->
  (forall url, Some url ∈ urls -> last (split "/" url) <> Some EmptyString) ->
  let w1 := (download_all web mkstemp can_open urllist w).2 in
  (download_all web mkstemp can_open urllist w1).1 = Ok tt /\
  dl_fs (download_all web mkstemp can_open urllist w1).2 = dl_fs w1 /\
  (forall url content ofile, Some url ∈ urls -> web url = Truncated content ->
     last (split "/" url) = Some ofile -> can_open ofile = true ->
     is_Some (dl_fs w1 !! ofile)).
Proof.
  intros Hlist Hnames w1.
  assert (Hw1 : w1 = (download_urls web mkstemp can_open urls w).2).
  { subst w1. unfold download_all. now rewrite Hlist. }
  destruct (download_urls_spec urls w) as (_ & Hkeep & _ & Hset).
  rewrite <- Hw1 in Hkeep, Hset.
  assert (Hlist1 : dl_fs w1 !! urllist = Some (JsonLocations urls)) by now apply Hkeep.
  split; [|split].
  - unfold download_all. rewrite Hlist1. apply download_urls_spec.
  - unfold download_all. rewrite Hlist1. apply download_urls_settled.
    intros url Hin. split; [now apply Hnames | apply Hset; auto].
  - intros url content ofile Hin Hweb Hlast Hopen.
    destruct (Hset url Hin (Hnames url Hin) ofile Hlast) as [Hyes|[Hno|Hno]];
      [assumption | congruence | congruence].
Qed.

End Downloads.

Lemma X16_downloader_never_fails_witness :
  (download_all Examples.toy_web Examples.toy_mkstemp (fun _ => true)
     "PANDORA_Locations.json" Examples.download_world_with_index).1 = Ok tt.
Proof.
  apply (X16_downloader_never_fails Examples.toy_web Examples.toy_mkstemp (fun _ => true)
           (fun files => fresh_string_fresh files "/tmp/tmp")
           "PANDORA_Locations.json" Examples.download_list_with_index
           Examples.download_world_with_index).
  vm_compute. reflexivity.
Defined.

Lemma X17_second_download_changes_no_file_witness :
  dl_fs (download_all Examples.toy_web Examples.toy_mkstemp (fun _ => true)
           "PANDORA_Locations.json"
           (download_all Examples.toy_web Examples.toy_mkstemp (fun _ => true)
              "PANDORA_Locations.json" Examples.download_world).2).2
  = dl_fs (download_all Examples.toy_web Examples.toy_mkstemp (fun _ => true)
             "PANDORA_Locations.json" Examples.download_world).2.
Proof.
  apply (X17_second_download_changes_no_file Examples.toy_web Examples.toy_mkstemp
           (fun _ => true) (fun files => fresh_string_fresh files "/tmp/tmp")
           "PANDORA_Locations.json" Examples.download_list Examples.download_world).
  - vm_compute. reflexivity.
  - intros url Hin. unfold Examples.download_list in Hin.
    repeat (apply elem_of_cons in Hin as [Hin|Hin]; [try discriminate|]).
    + injection Hin as ->. vm_compute. discriminate.
    + injection Hin as ->. vm_compute. discriminate.
    + injection Hin as ->. vm_compute. discriminate.
    + now apply elem_of_nil in Hin.
Defined.

(** ** The choice of the station *)

Section SiteSelection.
Context {lib : Library}.

(** X9.  The station index is checked from above only.  An index at or
    beyond the length of the list fails the assertion; a negative index
    passes it and counts from the end of the list, as far as the list
    reaches, and below that raises [IndexError]; an entry without an address
    raises [AttributeError].  In all these failures nothing is printed and
    nothing is changed.  Otherwise the base name is the last component of
    the address and holds no [/]. *)
Theorem X9_site_index_is_checked_from_above_only (fuel : nat) (a : args) (w : world)
    (locs : list (option string)) :
  fs w !! locations a = Some (JsonLocations locs) ->
  let n := Z.of_nat (length locs) in
  ((n <= nsite a)%Z -> main fuel a w = (Raise AssertionError, w)) /\
  ((nsite a < - n)%Z -> main fuel a w = (Raise IndexError, w)) /\
  ((- n <= nsite a < n)%Z ->
     exists iloc, locs !! Z.to_nat (nsite a mod n) = Some iloc /\
       match iloc with
       | None => main fuel a w = (Raise AttributeError, w)
       | Some url =>
           exists basename,
             last (split "/" url) = Some basename /\ has_char "/" basename = false /\
             basename_of a w = (Ok basename, w)
       end).
Proof.
  intros Hlocs n.
  assert (Hload : load_locations (locations a) w = (Ok locs, w)).
  { unfold load_locations. mrun. now rewrite Hlocs. }
  split; [|split].
  - intros Hhigh.
    assert (Hbase : basename_of a w = (Raise AssertionError, w)).
    { unfold basename_of. rewrite (bind_Ok _ _ _ _ _ Hload).
      replace (nsite a <? Z.of_nat (length locs))%Z with false
        by (symmetry; apply Z.ltb_ge; exact Hhigh).
      reflexivity. }
    unfold main. now rewrite (bind_Raise _ _ _ _ _ Hbase).
  - intros Hlow.
    assert (Hbase : basename_of a w = (Raise IndexError, w)).
    { unfold basename_of. rewrite (bind_Ok _ _ _ _ _ Hload).
      replace (nsite a <? Z.of_nat (length locs))%Z with true
        by (symmetry; apply Z.ltb_lt; fold n; lia).
      simpl. unfold getitem_Z. fold n.
      replace (nsite a <? 0)%Z with true by (symmetry; apply Z.ltb_lt; lia).
      replace (nsite a + n <? 0)%Z with true by (symmetry; apply Z.ltb_lt; lia).
      reflexivity. }
    unfold main. now rewrite (bind_Raise _ _ _ _ _ Hbase).
  - intros Hin.
    assert (Hidx : getitem_Z locs (nsite a) = getitem locs (Z.to_nat (nsite a mod n))).
    { unfold getitem_Z. fold n. destruct (nsite a <? 0)%Z eqn:Eneg.
      - apply Z.ltb_lt in Eneg.
        replace (nsite a + n <? 0)%Z with false by (symmetry; apply Z.ltb_ge; lia).
        replace (nsite a mod n)%Z with (nsite a + n)%Z; [reflexivity|].
        apply (Z.mod_unique_pos _ _ (-1)); lia.
      - apply Z.ltb_ge in Eneg.
        replace (nsite a <? 0)%Z with false by (symmetry; apply Z.ltb_ge; lia).
        now rewrite Z.mod_small by lia. }
    assert (Hthere : (Z.to_nat (nsite a mod n) < length locs)%nat).
    { pose proof (Z.mod_pos_bound (nsite a) n ltac:(lia)). subst n. lia. }
    apply lookup_lt_is_Some_2 in Hthere as [iloc Hiloc].
    exists iloc. split; [assumption|].
    assert (Hbase : basename_of a w =
              (url ← of_option AttributeError iloc; getlast (split "/" url), w)).
    { unfold basename_of. rewrite (bind_Ok _ _ _ _ _ Hload).
      replace (nsite a <? Z.of_nat (length locs))%Z with true
        by (symmetry; apply Z.ltb_lt; fold n; lia).
      simpl. rewrite Hidx. unfold getitem. rewrite Hiloc. mrun.
      destruct iloc as [url|]; simpl; [|reflexivity].
      now destruct (getlast (split "/" url)). }
    destruct iloc as [url|]; simpl in Hbase.
    + destruct (last_part "/" url) as (basename & Hlast & Hslash).
      exists basename. split; [assumption|]. split; [assumption|].
      rewrite Hbase. unfold getlast. now rewrite Hlast.
    + unfold main. now rewrite (bind_Raise _ _ _ _ _ Hbase).
Qed.

End SiteSelection.

Lemma X9_site_index_is_checked_from_above_only_witness :
  main (lib := Examples.toy_library) 200
    {| locations := "PANDORA_Locations.json"; nsite := 1;
       cf_template := "cf/<col>.%s.nc4"; pbl_template := "cf/tavg.%s.nc4" |}
    Examples.site_world
  = (Raise AssertionError, Examples.site_world).
Proof.
  apply (X9_site_index_is_checked_from_above_only (lib := Examples.toy_library) 200
           {| locations := "PANDORA_Locations.json"; nsite := 1;
              cf_template := "cf/<col>.%s.nc4"; pbl_template := "cf/tavg.%s.nc4" |}
           Examples.site_world [Some Examples.site_url]).
  - vm_compute. reflexivity.
  - simpl. lia.
Defined.

(** ** The cache from one record to the next *)

Lemma resolved_hit col path ds w :
  is_cached col path w = true -> resolved col path ds w = w.
Proof. unfold resolved. now intros ->. Qed.

Lemma read_collection_Ok col path ds w w' :
  read_collection col path w = (Ok ds, w') -> fs w !! path = Some (NetCDF ds).
Proof.
  unfold read_collection, open_dataset, store_cache. mrun.
  destruct (fs w !! path) as [[ls|urls|d|rows]|]; simpl; try discriminate.
  now intros [= ->].
Qed.

Lemma resolve_Ok col path ds w w' :
  resolve col path w = (Ok ds, w') ->
  resolvable col path ds w /\ w' = resolved col path ds w.
Proof.
  intros Hrun.
  assert (Hr : resolvable col path ds w).
  { unfold resolvable. unfold resolve, mbind, M_bind in Hrun.
    rewrite lookup_cache_spec in Hrun.
    destruct (is_cached col path w).
    - destruct (dsl w !! col); [|discriminate]. now injection Hrun as -> _.
    - now apply read_collection_Ok in Hrun. }
  split; [assumption|]. rewrite (resolve_spec _ _ _ _ Hr) in Hrun. now injection Hrun.
Qed.

Section CacheReuse.
Context {lib : Library}.

(** A call of [_match_cf] that returns numbers has resolved its three
    collections, one after the other. *)
Lemma match_cf_Ok_resolved a row lat lon w v w' :
  let hourly := py_strftime (round_H (date row)) (cf_template a) in
  let ifilec := replace "<col>" "chm" hourly in
  let ifilem := replace "<col>" "met" hourly in
  let ifilep := py_strftime (date row) (pbl_template a) in
  _match_cf a row lat lon w = (Ok v, w') ->
  v <> nan_values ->
  exists dsc dsm dsp,
    resolvable "chm" ifilec dsc w /\
    resolvable "met" ifilem dsm (resolved "chm" ifilec dsc w) /\
    resolvable "pbl" ifilep dsp (resolved "met" ifilem dsm (resolved "chm" ifilec dsc w)) /\
    w' = resolved "pbl" ifilep dsp (resolved "met" ifilem dsm (resolved "chm" ifilec dsc w)).
Proof.
  intros hourly ifilec ifilem ifilep Hrun Hv.
  assert (Hc : exists dsc, resolvable "chm" ifilec dsc w).
  { unfold resolvable.
    destruct (match_cf_all_or_none _ _ _ _ _ _ _ Hrun) as [->|[_ Hthere]];
      [contradiction|].
    fold hourly ifilec in Hthere.
    unfold _match_cf in Hrun. fold hourly ifilec ifilem ifilep in Hrun.
    unfold mbind at 1 in Hrun. unfold M_bind in Hrun.
    rewrite lookup_cache_spec in Hrun.
    destruct (is_cached "chm" ifilec w) eqn:Ec.
    - destruct (dsl w !! "chm") as [dsc|]; [eauto | discriminate].
    - destruct Hthere as [?|Hf]; [discriminate|].
      rewrite (bind_Ok _ _ _ _ _ (isfile_there ifilec w Hf)) in Hrun. simpl in Hrun.
      apply bind_Ok_inv in Hrun as (dsc & w1 & Hread & _).
      apply read_collection_Ok in Hread. eauto. }
  destruct Hc as [dsc Hc]. exists dsc.
  rewrite (match_cf_after_chm a row lat lon w dsc Hc) in Hrun.
  fold hourly ifilec ifilem ifilep in Hrun.
  apply bind_Ok_inv in Hrun as (dsm & w2 & Hm & Hrun).
  apply resolve_Ok in Hm as [Hm ->].
  apply bind_Ok_inv in Hrun as (dsp & w3 & Hp & Hrun).
  apply resolve_Ok in Hp as [Hp ->].
  exists dsm, dsp. repeat split; try assumption.
  pose proof (derive_world row lat lon dsc dsm dsp
                (resolved "pbl" ifilep dsp
                   (resolved "met" ifilem dsm (resolved "chm" ifilec dsc w)))) as Hd.
  rewrite Hrun in Hd. now simpl in Hd.
Qed.

(** X10.  Records of the same hour share the open datasets.  After a
    call of [_match_cf] that returned numbers, a call for a record whose
    time stamp rounds to the same hour opens neither the chemistry nor the
    meteorology file again: all it can print or open is the boundary-layer
    file of the new record; and when that path is the same as well, the call
    prints nothing, opens nothing and leaves the cache as it is. *)
Theorem X10_same_hour_reuses_the_datasets (a : args) (row1 row2 : obs) (lat lon : Q)
    (w w1 : world) (v1 : cf_values) :
  _match_cf a row1 lat lon w = (Ok v1, w1) ->
  v1 <> nan_values ->
  round_H (date row2) = round_H (date row1) ->
  let ifilep2 := py_strftime (date row2) (pbl_template a) in
  (exists es,
     log (_match_cf a row2 lat lon w1).2 = log w1 ++ es /\
     Forall (fun e => e ∈ [PrintReading ifilep2; OpenDataset ifilep2]) es) /\
  (ifilep2 = py_strftime (date row1) (pbl_template a) ->
   (_match_cf a row2 lat lon w1).2 = w1).
Proof.
  intros Hrun Hv Hhour ifilep2.
  destruct (match_cf_Ok_resolved _ _ _ _ _ _ _ Hrun Hv)
    as (dsc & dsm & dsp & Hc & Hm & Hp & Hw1).
  set (hourly := py_strftime (round_H (date row1)) (cf_template a)) in *.
  set (ifilec := replace "<col>" "chm" hourly) in *.
  set (ifilem := replace "<col>" "met" hourly) in *.
  set (ifilep := py_strftime (date row1) (pbl_template a)) in *.
  set (wc := resolved "chm" ifilec dsc w) in *.
  set (wm := resolved "met" ifilem dsm wc) in *.
  (* the three collections are cached in [w1] *)
  destruct (resolved_cached _ _ _ _ Hc) as [Hfc Hdc]. fold wc in Hfc, Hdc.
  destruct (resolved_cached _ _ _ _ Hm) as [Hfm Hdm]. fold wm in Hfm, Hdm.
  destruct (resolved_cached _ _ _ _ Hp) as [Hfp Hdp]. rewrite <- Hw1 in Hfp, Hdp.
  assert (Hfm1 : fnl w1 !! "met" = Some ifilem /\ dsl w1 !! "met" = Some dsm).
  { rewrite Hw1.
    destruct (resolved_keeps_other "pbl" ifilep dsp wm "met" ltac:(discriminate)) as [-> ->].
    now split. }
  assert (Hfc1 : fnl w1 !! "chm" = Some ifilec /\ dsl w1 !! "chm" = Some dsc).
  { rewrite Hw1.
    destruct (resolved_keeps_other "pbl" ifilep dsp wm "chm" ltac:(discriminate)) as [-> ->].
    subst wm.
    destruct (resolved_keeps_other "met" ifilem dsm wc "chm" ltac:(discriminate)) as [-> ->].
    now split. }
  destruct Hfm1 as [Hfm1 Hdm1]. destruct Hfc1 as [Hfc1 Hdc1].
  assert (Hcc : is_cached "chm" ifilec w1 = true)
    by (unfold is_cached; now apply bool_decide_eq_true_2).
  assert (Hcm : is_cached "met" ifilem w1 = true)
    by (unfold is_cached; now apply bool_decide_eq_true_2).
  assert (Hcp : is_cached "pbl" ifilep w1 = true)
    by (unfold is_cached; now apply bool_decide_eq_true_2).
  (* the second call starts with two hits *)
  assert (Hsecond : _match_cf a row2 lat lon w1 =
            (resolve "pbl" ifilep2 ≫= fun dp => derive row2 lat lon dsc dsm dp) w1).
  { assert (Hc2 : resolvable "chm" ifilec dsc w1) by (unfold resolvable; now rewrite Hcc).
    assert (Hm2 : resolvable "met" ifilem dsm w1) by (unfold resolvable; now rewrite Hcm).
    pose proof (match_cf_after_chm a row2 lat lon w1 dsc) as Hafter.
    cbv zeta in Hafter. rewrite Hhour in Hafter. fold hourly ifilec ifilem in Hafter.
    rewrite (Hafter Hc2), (resolved_hit _ _ _ _ Hcc).
    rewrite (bind_Ok _ _ _ _ _ (resolve_spec "met" ifilem dsm w1 Hm2)).
    now rewrite (resolved_hit _ _ _ _ Hcm). }
  rewrite Hsecond. split.
  - apply emits_bind; [|intros dp; apply emits_derive].
    apply emits_resolve; cbv beta;
      [apply list_elem_of_here | apply list_elem_of_further, list_elem_of_here].
  - intros Hsame.
    assert (Hp2 : resolvable "pbl" ifilep2 dsp w1).
    { rewrite Hsame. fold ifilep. unfold resolvable. now rewrite Hcp. }
    rewrite (bind_Ok _ _ _ _ _ (resolve_spec "pbl" ifilep2 dsp w1 Hp2)).
    rewrite Hsame. fold ifilep. rewrite (resolved_hit _ _ _ _ Hcp).
    apply derive_world.
Qed.

Lemma logged_cons e es w : logged es (logged [e] w) = logged (e :: es) w.
Proof. unfold logged. simpl. now rewrite <- app_assoc. Qed.

(** X11.  Without chemistry files the loop over the records still runs
    to its end: when for every record the chemistry file of its hour is
    neither cached nor a file, every row comes back with its five fields
    NaN, one warning is printed per record, in order, no file is opened and
    the cache is not changed. *)
Theorem X11_no_chemistry_file_gives_nan_rows (a : args) (lat lon : Q) (pand : list obs)
    (w : world) :
  Forall (fun row => is_cached "chm" (chm_path a row) w = false /\
                     fs w !! chm_path a row = None) pand ->
  match_rows a lat lon pand w =
  (Ok (map (nan_row lat lon) pand),
   logged (map (fun row => PrintFileNotFound (chm_path a row)) pand) w).
Proof.
  revert w. induction pand as [|row pand IH]; intros w Hall; simpl.
  - unfold logged. simpl. rewrite app_nil_r. now destruct w.
  - inversion Hall as [|? ? [Hc Hf] Hrest]; subst.
    rewrite (bind_Ok _ _ _ _ _ (match_cf_chm_missing a row lat lon w Hc Hf)).
    fold (chm_path a row).
    rewrite (bind_Ok _ _ _ _ _ (IH (logged [PrintFileNotFound (chm_path a row)] w) Hrest)).
    now rewrite logged_cons.
Qed.

End CacheReuse.

Lemma X10_same_hour_reuses_the_datasets_witness :
  (_match_cf (lib := Examples.toy_library) Examples.site_args
     (Obs 1600000000000000000 0 9 2 5) 39 (-77)
     (_match_cf (lib := Examples.toy_library) Examples.site_args
        (Obs 1600000000000000000 10 7 1 5) 39 (-77) Examples.site_world).2).2
  = (_match_cf (lib := Examples.toy_library) Examples.site_args
       (Obs 1600000000000000000 10 7 1 5) 39 (-77) Examples.site_world).2.
Proof.
  apply (X10_same_hour_reuses_the_datasets (lib := Examples.toy_library) Examples.site_args
           (Obs 1600000000000000000 10 7 1 5) (Obs 1600000000000000000 0 9 2 5) 39 (-77)
           Examples.site_world _
           (match (_match_cf (lib := Examples.toy_library) Examples.site_args
                     (Obs 1600000000000000000 10 7 1 5) 39 (-77) Examples.site_world).1 with
            | Ok v => v
            | _ => nan_values
            end)).
  - vm_compute. reflexivity.
  - vm_compute. discriminate.
  - reflexivity.
  - reflexivity.
Defined.

Lemma X11_no_chemistry_file_gives_nan_rows_witness :
  match_rows (lib := Examples.toy_library) Examples.site_args 39 (-77)
    [Obs 1600000000000000000 10 7 1 5; Obs 1600003600000000000 10 7 1 5]
    (Examples.world_of ∅)
  = (Ok (map (nan_row 39 (-77))
           [Obs 1600000000000000000 10 7 1 5; Obs 1600003600000000000 10 7 1 5]),
     logged (map (fun row => PrintFileNotFound
                               (chm_path (lib := Examples.toy_library) Examples.site_args row))
               [Obs 1600000000000000000 10 7 1 5; Obs 1600003600000000000 10 7 1 5])
       (Examples.world_of ∅)).
Proof.
  apply (X11_no_chemistry_file_gives_nan_rows (lib := Examples.toy_library)).
  repeat constructor.
Defined.

(** ** Reading the observation file *)

Section Reading.
Context {lib : Library}.


(** X14.  An observation file without record lines aborts the run:
    [pd.concat] refuses the empty list, so [main] ends in [ValueError] before
    the coordinates are looked for, whatever the file holds besides, and
    nothing is written. *)
Theorem X14_file_without_records_aborts (fuel : nat) (a : args) (w : world)
    (basename : string) (lines : list string) :
  basename_of a w = (Ok basename, w) ->
  fs w !! ifile_of basename = Some (TextFile lines) ->
  fs w !! ofile_of basename = None ->
  pd_read_csv lines 93 = Ok [] ->
  main fuel a w =
  (Raise ValueError,
   logged [PrintReadingObs (ifile_of basename); ReadObservations (ifile_of basename)] w).
Proof.
  intros Hb Hobs Hout Hcsv.
  rewrite (main_merges fuel a w basename) by (rewrite ?Hobs; eauto).
  assert (Hread : _read_pandora fuel (ifile_of basename) w =
            (Raise ValueError,
             logged [PrintReadingObs (ifile_of basename);
                     ReadObservations (ifile_of basename)] w)).
  { unfold _read_pandora. mrun. rewrite Hobs. simpl. rewrite Hcsv. simpl.
    unfold logged. simpl. now rewrite <- app_assoc. }
  unfold merge. now rewrite (bind_Raise _ _ _ _ _ Hread).
Qed.

(** X13.  When no record of the observation file passes the three
    filters, the loop over the records is not entered: no model file is
    opened and no warning printed, and a table that the run has written has
    no rows.  All that the run has logged, beyond reading the observations,
    is that write and the final message. *)
Theorem X13_nothing_in_window_opens_no_model_file (fuel : nat) (a : args)
    (w w0 w1 : world) (o : outcome unit) (basename : string) (pand : list obs)
    (lat lon : Q) (rows : list merged) :
  basename_of a w = (Ok basename, w) ->
  fs w !! ofile_of basename = None ->
  _read_pandora fuel (ifile_of basename) w = (Ok (pand, lat, lon), w0) ->
  Forall (fun r => in_window (maxdate_of (clock w)) r = false) pand ->
  main fuel a w = (o, w1) ->
  fs w1 !! ofile_of basename = Some (CsvFile rows) ->
  rows = [] /\
  log w1 = log w0 ++ [WriteCsv (ofile_of basename); PrintWritten (ofile_of basename)].
Proof.
  intros Hb Hout Hread Hnone Hrun Hrows.
  destruct (fs w !! ifile_of basename) as [f|] eqn:Hobs.
  2:{ rewrite (main_obs_missing fuel a w basename) in Hrun by assumption.
      injection Hrun as <- <-. simpl in Hrows. congruence. }
  rewrite (main_merges fuel a w basename) in Hrun; try (rewrite ?Hobs; eauto).
  destruct (merge_outcome _ _ _ _ _ _ _ Hrun) as [[_ Hfs]|[-> _]].
  { rewrite Hfs in Hrows. congruence. }
  apply merge_rows in Hrun as (pand' & lat' & lon' & w0' & rows' & w2 & Hread' & Hm & ->).
  rewrite Hread in Hread'. injection Hread' as <- <- <- <-.
  assert (Hempty : filter (fun r => in_window (maxdate_of (clock w)) r) pand = []).
  { clear -Hnone. induction Hnone as [|r pand Hr _ IH]; [reflexivity|].
    rewrite filter_cons, IH. rewrite Hr. reflexivity. }
  rewrite Hempty in Hm. simpl in Hm. injection Hm as <- <-.
  simpl in Hrows. rewrite lookup_insert_eq in Hrows. injection Hrows as <-.
  split; [reflexivity|]. simpl. now rewrite <- app_assoc.
Qed.

Lemma scan_skips_unlabelled fuel pre rest lat lon w :
  Forall unlabelled pre ->
  lat = None \/ lon = None ->
  scan_location (length pre + fuel) (pre ++ rest) lat lon w
  = scan_location fuel rest lat lon w.
Proof.
  intros Hpre Hmiss. induction Hpre as [|l pre [Hla Hlo] _ IH]; [reflexivity|].
  simpl length. simpl app. simpl plus.
  assert (Hstep : forall n, scan_location (S n) (l :: pre ++ rest) lat lon w
                            = scan_location n (pre ++ rest) lat lon w).
  { intros n.
    destruct lat, lon; try (destruct Hmiss; discriminate);
      cbn [scan_location readline]; rewrite Hla, Hlo; reflexivity. }
  now rewrite Hstep.
Qed.

(** X15.  In a file that carries a latitude line and, later, a longitude
    line, with no other labelled line before them, the scan ends as soon as
    it has seen both: it returns the two numbers, prints them once each, and
    never reads the lines after the longitude line.  A bound on the passes
    of two more than the lines skipped is enough, and any larger bound gives
    the same result. *)
Theorem X15_scan_finds_the_coordinates (fuel : nat) (pre mid rest : list string)
    (la lo : string) (x y : Q) (w : world) :
  Forall unlabelled pre ->
  Forall unlabelled mid ->
  contains "Location latitude" (str_of_bytes la) = true ->
  contains "Location longitude" (str_of_bytes la) = false ->
  parse_coordinate (str_of_bytes la) = Ok x ->
  contains "Location latitude" (str_of_bytes lo) = false ->
  contains "Location longitude" (str_of_bytes lo) = true ->
  parse_coordinate (str_of_bytes lo) = Ok y ->
  (length pre + length mid + 2 <= fuel)%nat ->
  scan_location fuel (pre ++ la :: mid ++ lo :: rest) None None w
  = (Ok (x, y), logged [PrintLatitude x; PrintLongitude y] w).
Proof.
  intros Hpre Hmid Hla1 Hla2 Hx Hlo1 Hlo2 Hy Hfuel.
  replace fuel with (length pre + S (length mid + S (fuel - length pre - length mid - 2)))%nat
    by lia.
  rewrite (scan_skips_unlabelled _ pre) by auto.
  assert (Hlat : forall n f w',
            scan_location (S n) (la :: f) None None w'
            = scan_location n f (Some x) None (logged [PrintLatitude x] w')).
  { intros n f w'. cbn [scan_location readline]. rewrite Hla1, Hla2, Hx. reflexivity. }
  rewrite Hlat.
  rewrite (scan_skips_unlabelled _ mid) by auto.
  cbn [scan_location readline]. rewrite Hlo1, Hlo2, Hy.
  unfold mbind, M_bind, mret, M_ret, lift, emit.
  destruct (fuel - length pre - length mid - 2)%nat; cbn [scan_location];
    unfold mret, M_ret, logged; cbn [fs clock log fnl dsl]; now rewrite <- app_assoc.
Qed.

End Reading.

Lemma X13_nothing_in_window_opens_no_model_file_witness :
  fs (main (lib := Examples.toy_library) 200 Examples.site_args
        Examples.world_before_2020).2 !! Examples.site_out
  = Some (CsvFile []).
Proof.
  destruct (X13_nothing_in_window_opens_no_model_file (lib := Examples.toy_library) 200
              Examples.site_args Examples.world_before_2020
              (_read_pandora (lib := Examples.toy_library) 200 Examples.site_obs
                 Examples.world_before_2020).2
              (main (lib := Examples.toy_library) 200 Examples.site_args
                 Examples.world_before_2020).2
              (main (lib := Examples.toy_library) 200 Examples.site_args
                 Examples.world_before_2020).1
              "Pandora140s1_WashingtonDC_L2_rnvh3p1-8.txt"
              [Obs 1577836799000000000 10 7 1 5] 39 (-77)
              (match fs (main (lib := Examples.toy_library) 200 Examples.site_args
                           Examples.world_before_2020).2 !! Examples.site_out with
               | Some (CsvFile rows) => rows
               | _ => []
               end)) as [Hrows _].
  - vm_compute. reflexivity.
  - vm_compute. reflexivity.
  - vm_compute. reflexivity.
  - repeat constructor.
  - apply surjective_pairing.
  - vm_compute. reflexivity.
  - rewrite <- Hrows. vm_compute. reflexivity.
Defined.

Lemma X14_file_without_records_aborts_witness :
  main (lib := Examples.toy_library) 200 Examples.site_args Examples.world_without_records
  = (Raise ValueError,
     logged [PrintReadingObs Examples.site_obs; ReadObservations Examples.site_obs]
       Examples.world_without_records).
Proof.
  apply (X14_file_without_records_aborts (lib := Examples.toy_library) 200
           Examples.site_args Examples.world_without_records
           "Pandora140s1_WashingtonDC_L2_rnvh3p1-8.txt"
           (Examples.obs_lines [Examples.latitude_line; Examples.longitude_line] [])).
  - vm_compute. reflexivity.
  - vm_compute. reflexivity.
  - vm_compute. reflexivity.
  - vm_compute. reflexivity.
Defined.

Lemma X15_scan_finds_the_coordinates_witness :
  scan_location (lib := Examples.toy_library) 4
    (["---"] ++ Examples.latitude_line :: ["---"] ++ Examples.longitude_line
       :: [Examples.record_2020])
    None None (Examples.world_of ∅)
  = (Ok (39, -77)%Q, logged [PrintLatitude 39; PrintLongitude (-77)] (Examples.world_of ∅)).
Proof.
  apply (X15_scan_finds_the_coordinates (lib := Examples.toy_library)).
  - repeat constructor.
  - repeat constructor.
  - vm_compute. reflexivity.
  - vm_compute. reflexivity.
  - vm_compute. reflexivity.
  - vm_compute. reflexivity.
  - vm_compute. reflexivity.
  - vm_compute. reflexivity.
  - simpl. lia.
Defined.
